(* ===== verification/_CoqProject ===== *)
-Q . S2P
Prelude.v
MT19937.v
PyRandom.v
PySet.v
PyInt.v
Gen3Sat.v
Plot.v
Dimacs.v
