(* ===== verification/Prelude.v ===== *)
(** * A verification library for vasiivlad/sat-solver-comparison

    The repository holds two independent scripts:
    - src/scripts/gen_random_3sat.py (13 lines) writes a random 3-SAT
      instance in DIMACS format from the arguments [n m seed path];
    - src/plot/results_plot.py (8 lines) reads a CSV of benchmark results and
      saves a line plot of [time_sec] against [vars].
    The generator's behaviour rests on three pieces of CPython it calls: the
    [random] module (a Mersenne Twister seeded from the integer seed), the
    [set] type (a hash table whose slot order fixes the order of the
    literals on a line) and [int]/[str] conversions; the plotter's on
    [pandas.read_csv] and pyplot's figure state.  The model translates the
    scripts line by line and the library code each call runs.

    ** Files, in dependency order

    - [Prelude] (this file): text as [list ascii] and [split_on]; Python
      exceptions and the [outcome] of a run (returned, raised, out of fuel);
      the state and exception monad [PyM S A := S -> outcome A * S] with
      [let*] and [;;;]; [inv_spec I c Q] (from a state satisfying [I], [c]
      raises nothing, keeps [I], and returns a value satisfying [Q]) with its
      rules and the tactics [inv_spec_step] and [inv_spec_call]; 32-bit
      words ([wrap32], [is_u32], the [u32] hint database, [solve_u32]);
      arrays of words ([rd], list insert); the counted loop [for_loop] and
      its invariant rule; searches [find] along a list.
    - [MT19937] (Module [MT19937]): CPython's Modules/_randommodule.c.
      [state] is [RandomObject] (624 words and an index); [init_genrand],
      [init_by_array], [twist] (the three in-place regeneration loops of
      [genrand_uint32]), [temper], [genrand_uint32], and the integer case of
      [random_seed] ([seed_key]: the absolute value cut into little-endian
      32-bit words).  [mt_reachable] is the generator as a state machine
      (seeding and drawing).  Theorems: every reachable state keeps the
      invariant and draws 32-bit words ([mt_reachable_wf]); the in-place
      regeneration is the reference recurrence ([twist_next_block]); the
      key words read back as [|seed|] ([seed_key_roundtrip]); a witness
      checks the model against the published output of mt19937ar.c.
    - [PyRandom]: Lib/random.py and the rest of _randommodule.c, written
      against the class [RandomSource] (a state with an invariant and its
      next 32-bit word), of which the Mersenne Twister is the instance:
      [getrandbits] (fast path and word loop), [random] (the exact rational
      value of the double), [_randbelow] (rejection loop with fuel),
      [randrange], [seed].  Theorems: the fast path equals the word loop
      ([getrandbits_fast_path]); [random() < 0.5] is the top bit of the
      first word ([random_lt_half]); the bounds and error cases of
      [getrandbits], [_randbelow] and [randrange] (lemmas the generator's
      proofs use).
    - [PySet]: the interface of a Python set of integers ([PySetOps] and its
      laws [PySetLaws]), the abstract set [ListSet], the refinement of
      [ListSet] by any implementation whose [add] keeps its invariant
      ([adds_spec]), and CPython's table of Objects/setobject.c (Module
      [CPySet]: [int.__hash__], [set_add_entry] with its probe sequence,
      [set_table_resize], [set_insert_clean], iteration in slot order;
      [found_unused] is the [found_unused:] block of [set_add_entry]).
      Theorems: every slot a probe reads is inside the table, the linear
      runs included ([probe_in_table]); the probe sequence visits every
      slot (the map
      [i -> 5 i + 1 mod 2^k] has one cycle; [perturb] is spent after 13
      shifts), so the probe loop ends ([set_add_entry_probe_terminates]);
      the open-addressing invariant [tbl_inv] is kept by insertion and
      resizing, which makes CPython's table an instance of [PySetLaws]
      ([cpyset_laws]) and a refinement of the abstract set
      ([cpyset_refines]); a table built by [set_add_entry] stays under
      three fifths full ([set_load_factor]); keys with distinct home slots
      [hash & 7] in a table of 8 slots, as a clause's literals mostly are,
      are iterated in increasing order of home slot, which fixes the order
      of the literals on a line ([set_slot_order]).
    - [PyInt]: [int(str)] as [PyLong_FromString] reads base 10 (ASCII
      white space, sign, underscores between digits, the 4300-digit limit,
      [ValueError]), [str(int)], [sys.argv[i]]; the lemma
      [int(str(z)) == z], and white space around a literal does not change
      what [int] reads ([py_int_strip]).
    - [Gen3Sat] (Module [Gen3Sat]): the generator.  The process state
      [world] is the generator's state and a map from paths to file
      contents; every line is an operation of [PyM world]: [parse_args]
      (line 2), [seed] (line 3), [open_w] (line 4), [header] and [f_write]
      (line 5), [gen_clauses] (the [for] loop, line 6), [fill_clause] (the
      [while] loop, lines 7 to 12), [draw_lit] (lines 9 to 11),
      [clause_line] (line 13); [main] composes them on CPython's generator
      and set.  The clause loop is proved against the set interface and any
      [RandomSource].  Theorems: a finished run leaves the header and
      [max(m, 0)] lines of three distinct literals in [[-n, n] \ {0}]
      ([main_output]); [n <= 0] raises [ValueError] with only the header
      written ([write_instance_nonpos_vars]); [n = 1] never ends, for any
      fuel ([write_instance_one_var_diverges]); under fair draws (the next
      [k] literals drawn, [draw_lits], hold three distinct values) the
      clause loop ends within [k] iterations with the distinct literals of
      the shortest such prefix ([fill_clause_live]); seeds [z] and [-z] give the
      same run ([main_seed_sign]); missing arguments raise before any
      effect ([main_short_argv]), and so does the first argument that is
      not an integer, whatever follows it ([main_bad_int]); [m <= 0] writes
      the header alone ([write_instance_no_clauses]).  The witness of
      [main_output] is a whole run, byte for byte ([3 4 0 out.cnf]), and
      that of [fill_clause_live] shows [n = 2] ending.
    - [Plot] (Module [Plot]): the plotter.  The process state [pworld] is
      the files and pyplot's current figure; the bytes of a saved image
      are [render fmt fig] for a renderer [render] that is a variable of
      the section of [savefig] and [main];
      [read_csv]/[parse_csv] follow pandas' C parser with its default
      options, [getitem] is [df[key]], [plot], [xlabel], [ylabel], [title]
      and [savefig] act on the figure; [main] is lines 1 to 8.  Theorems:
      the saved figure on a good table, at the name matplotlib gives the
      file ([main_plot_output]); [KeyError] on a
      missing column ([main_missing_column]); read errors
      ([main_read_error]); the parser raises [EmptyDataError] exactly on a
      file of blank lines and otherwise only [ParserError]
      ([parse_csv_errors]); a missing output path fails only after drawing
      ([main_no_output_path]); a table of [int64] values with distinct
      plain column names written as comma-separated [str(z)] lines reads
      back as those columns ([read_csv_roundtrip]).
    - [Dimacs] (Module [Dimacs]): a reader of the DIMACS format of the spec
      and the round trip of the generator's output text
      ([dimacs_roundtrip]).

    ** Fuel and bounds

    Three loops of the code are unbounded: the [while] of line 8, the
    rejection loop of [_randbelow] and the probe loop of [set_add_entry].
    Each takes a fuel argument and ends in [OutOfFuel] when it is used up.
    No theorem holds only for runs that return: [n = 1] is shown to diverge
    for every fuel, the runs of the witnesses finish with fuel 100, a run of
    [_randbelow] that returns keeps its result under more fuel
    ([randbelow_loop_fuel_mono]), and the probe loop of a table of [2^k]
    slots is given [14 + 2^k] passes, which [set_add_entry_probe_terminates]
    shows to be enough.  The set laws assume fewer than [2^32] elements
    ([set_room]), so that a resized table of [2^k] slots keeps [k <= 40]
    and is indexed by 64-bit words; a clause holds at most 3.

    ** Not modelled

    Unicode text beyond ASCII and [int()] on non-ASCII digits or white
    space, and [str()]'s 4300-digit limit (unreachable, see [PyInt]); dummy
    entries of CPython's set table (nothing is removed); pandas' quoting,
    [uint64] and boolean columns, [inf], the renaming of duplicate column
    names, and the rounding of decimal fractions to doubles (a float field
    is the exact rational it denotes); the bytes a matplotlib backend
    renders (a variable of the plotter's model), and file-system errors of
    [open] and [savefig] (missing directories, permissions).

    ** Plan for later work

    The distribution of the literals (uniformity of [_randbelow] over the
    generator's outputs), and with it the unconditional liveness of the
    clause loop for [n >= 3]: it ends with probability one, which is not a
    property of every stream of words, so [fill_clause_live] takes the
    fairness of the draws as its hypothesis; pandas' quoting. *)

From stdpp Require Import base list strings.
From Stdlib Require Import ZArith Ascii Lia.

Declare Scope py_scope.
Delimit Scope py_scope with py.

(** ** Text

    Python [str] values of the scripts are ASCII: they are modelled as
    [list ascii], so that list lemmas apply to them.  [txt] turns a Rocq
    string literal into text. *)
Definition text := list ascii.
Definition txt (s : string) : text := String.list_ascii_of_string s.

(** [s.split(sep)] for a one-character separator. *)
Fixpoint split_on (sep : ascii) (s : text) : list text :=
  match s with
  | [] => [[]]
  | c :: s' =>
      if decide (c = sep) then [] :: split_on sep s'
      else match split_on sep s' with
           | f :: fs => (c :: f) :: fs
           | [] => [[c]]
           end
  end.

(** [sep.join(items)]. *)
Fixpoint join (sep : text) (items : list text) : text :=
  match items with
  | [] => []
  | [x] => x
  | x :: rest => x ++ sep ++ join sep rest
  end.

(** ** Python exceptions and outcomes

    The exceptions that the two scripts can raise on the paths we model.
    An outcome is a returned value, a raised exception, or [OutOfFuel] when a
    [while] loop of the model has used its whole fuel (the model of a run that
    has not finished). *)
Inductive exc : Type :=
  | ValueError
  | IndexError
  | KeyError
  | FileNotFoundError
  | EmptyDataError   (* pandas.errors.EmptyDataError *)
  | ParserError.     (* pandas.errors.ParserError *)

Inductive outcome (A : Type) : Type :=
  | Ret (a : A)
  | Raise (e : exc)
  | OutOfFuel.
Arguments Ret {A} a.
Arguments Raise {A} e.
Arguments OutOfFuel {A}.

#[export] Instance exc_eq_dec : EqDecision exc.
Proof. solve_decision. Defined.

(** ** A state and exception monad

    Python threads a state (the generator's hidden state, the open file, the
    plotting state) through statements that may raise.  [PyM S A] is a
    computation on a state [S]: the state at the point where an exception is
    raised is kept, as Python keeps what was already written to a file. *)
Definition PyM (S A : Type) : Type := S -> outcome A * S.

Definition mret {S A} (a : A) : PyM S A := fun s => (Ret a, s).

Definition mthrow {S A} (e : exc) : PyM S A := fun s => (Raise e, s).

Definition mstuck {S A} : PyM S A := fun s => (OutOfFuel, s).

Definition mbind {S A B} (c : PyM S A) (k : A -> PyM S B) : PyM S B :=
  fun s =>
    match c s with
    | (Ret a, s') => k a s'
    | (Raise e, s') => (Raise e, s')
    | (OutOfFuel, s') => (OutOfFuel, s')
    end.

Definition mget {S} : PyM S S := fun s => (Ret s, s).
Definition mput {S} (s : S) : PyM S unit := fun _ => (Ret tt, s).
Definition mstate {S A} (f : S -> A * S) : PyM S A :=
  fun s => let '(a, s') := f s in (Ret a, s').

Notation "'let*' x ':=' c 'in' k" := (mbind c (fun x => k))
  (at level 100, x name, c at level 99, k at level 200, right associativity) : py_scope.
Notation "c ;;; k" := (mbind c (fun _ => k))
  (at level 100, k at level 200, right associativity) : py_scope.

Open Scope py_scope.

Section MonadLaws.
Context {S A B C : Type}.

Lemma mbind_ret (a : A) (k : A -> PyM S B) s : mbind (mret a) k s = k a s.
Proof. reflexivity. Qed.

Lemma mbind_assoc (c : PyM S A) (k1 : A -> PyM S B) (k2 : B -> PyM S C) s :
  mbind (mbind c k1) k2 s = mbind c (fun a => mbind (k1 a) k2) s.
Proof. unfold mbind. by destruct (c s) as [[a| e |] s']. Qed.

Lemma mbind_ret_inv (c : PyM S A) (k : A -> PyM S B) s b s' :
  mbind c k s = (Ret b, s') ->
  exists a s1, c s = (Ret a, s1) /\ k a s1 = (Ret b, s').
Proof. unfold mbind. destruct (c s) as [[a| e |] s1]; naive_solver. Qed.
End MonadLaws.

(** ** Invariant specifications of computations

    [inv_spec I c Q]: run from a state satisfying [I], the computation [c]
    raises no exception, it ends (by returning or by running out of fuel) in
    a state satisfying [I], and a returned value satisfies [Q].  With
    [Q := fun _ => False] it says that [c] never returns.  The rules below
    let a property of a composed computation follow from those of its
    parts. *)
Definition inv_spec {S A} (I : S -> Prop) (c : PyM S A) (Q : A -> Prop) : Prop :=
  forall s, I s -> I (c s).2 /\
    match (c s).1 with Ret a => Q a | Raise _ => False | OutOfFuel => True end.

Section InvSpec.
Context {S A B : Type} (I : S -> Prop).

Lemma inv_spec_ret (Q : A -> Prop) a : Q a -> inv_spec I (mret a) Q.
Proof. intros Ha s Hs. by split. Qed.

Lemma inv_spec_stuck (Q : A -> Prop) : inv_spec I mstuck Q.
Proof. intros s Hs. by split. Qed.

Lemma inv_spec_bind (P : A -> Prop) (Q : B -> Prop) c k :
  inv_spec I c P -> (forall a, P a -> inv_spec I (k a) Q) -> inv_spec I (mbind c k) Q.
Proof.
  intros Hc Hk s Hs. unfold mbind. destruct (Hc s Hs) as [Hs' Ha].
  destruct (c s) as [[a| e |] s']; simpl in *; [|done|by split].
  by apply Hk.
Qed.

Lemma inv_spec_bind_ret (Q : B -> Prop) (a : A) k :
  inv_spec I (k a) Q -> inv_spec I (mbind (mret a) k) Q.
Proof. done. Qed.

Lemma inv_spec_weaken (P Q : A -> Prop) c :
  inv_spec I c P -> (forall a, P a -> Q a) -> inv_spec I c Q.
Proof.
  intros Hc HPQ s Hs. destruct (Hc s Hs) as [? Ha]. split; [done|].
  destruct (c s).1; eauto.
Qed.

(** What a returned value satisfies. *)
Lemma inv_spec_ret_inv (Q : A -> Prop) c s a s' :
  inv_spec I c Q -> I s -> c s = (Ret a, s') -> I s' /\ Q a.
Proof. intros Hc Hs Hrun. destruct (Hc s Hs) as [H1 H2]. rewrite Hrun in H1, H2. done. Qed.

(** A computation that never returns ends out of fuel. *)
Lemma inv_spec_diverges (c : PyM S A) s :
  inv_spec I c (fun _ => False) -> I s -> (c s).1 = OutOfFuel.
Proof. intros Hc Hs. destruct (Hc s Hs) as [_ H]. by destruct (c s).1. Qed.
End InvSpec.

Create HintDb pyspec discriminated.
#[export] Hint Resolve inv_spec_ret inv_spec_stuck : pyspec.

(** [inv_spec] goals are split along the program's binds. *)
Ltac inv_spec_step :=
  lazymatch goal with
  | |- inv_spec _ (mbind (mret _) _) _ => apply inv_spec_bind_ret
  | |- inv_spec _ (mbind _ _) _ => eapply inv_spec_bind; [|intros ? ?]
  | |- inv_spec _ (mret _) _ => apply inv_spec_ret
  | |- inv_spec _ mstuck _ => apply inv_spec_stuck
  end.

(** A call to a computation whose specification is the lemma [L]. *)
Tactic Notation "inv_spec_call" uconstr(L) :=
  eapply inv_spec_bind; [eapply L|intros ? ?]; cbv beta in *.
Tactic Notation "inv_spec_call" uconstr(L) "as" ident(a) ident(Ha) :=
  eapply inv_spec_bind; [eapply L|intros a Ha]; cbv beta in *.

(** ** Unsigned 32-bit words

    C's [uint32_t] is modelled as a [Z] in [0, 2^32); arithmetic that wraps
    in C is written with [wrap32]. *)
Local Open Scope Z_scope.

Definition wrap32 (z : Z) : Z := z mod 2 ^ 32.
Definition is_u32 (z : Z) : Prop := (0 <= z < 2 ^ 32)%Z.

Create HintDb u32 discriminated.
#[export] Hint Constants Opaque : u32.

Lemma wrap32_u32 z : is_u32 (wrap32 z).
Proof. unfold is_u32, wrap32. apply Z.mod_pos_bound. lia. Qed.

Lemma u32_mod a : is_u32 a -> a mod 2 ^ 32 = a.
Proof. intros H. by apply Z.mod_small. Qed.

Lemma u32_testbit_high a n : is_u32 a -> (32 <= n)%Z -> Z.testbit a n = false.
Proof.
  intros Ha Hn. rewrite <- (u32_mod a Ha). apply Z.mod_pow2_bits_high. lia.
Qed.

(** A value whose bits above 31 are clear and which is not negative is a
    32-bit word: every bitwise operation below goes through this lemma. *)
Lemma u32_of_bits a :
  (0 <= a)%Z -> (forall n, (32 <= n)%Z -> Z.testbit a n = false) -> is_u32 a.
Proof.
  intros H0 Hb. split; [done|].
  assert (a = a mod 2 ^ 32) as ->; [|apply Z.mod_pos_bound; lia].
  apply Z.bits_inj'. intros n Hn. rewrite Z.testbit_mod_pow2 by lia.
  destruct (Z.ltb_spec n 32); simpl; [done|]. apply Hb. lia.
Qed.

Lemma lxor_u32 a b : is_u32 a -> is_u32 b -> is_u32 (Z.lxor a b).
Proof.
  intros Ha Hb. apply u32_of_bits.
  - apply Z.lxor_nonneg. destruct Ha, Hb. lia.
  - intros n Hn. rewrite Z.lxor_spec, !u32_testbit_high by done. done.
Qed.

Lemma lor_u32 a b : is_u32 a -> is_u32 b -> is_u32 (Z.lor a b).
Proof.
  intros Ha Hb. apply u32_of_bits.
  - apply Z.lor_nonneg. destruct Ha, Hb. lia.
  - intros n Hn. rewrite Z.lor_spec, !u32_testbit_high by done. done.
Qed.

Lemma land_u32_l a b : is_u32 a -> (0 <= b)%Z -> is_u32 (Z.land a b).
Proof.
  intros Ha Hb. apply u32_of_bits.
  - apply Z.land_nonneg. lia.
  - intros n Hn. rewrite Z.land_spec, u32_testbit_high by done. done.
Qed.

Lemma land_u32_r a b : (0 <= a)%Z -> is_u32 b -> is_u32 (Z.land a b).
Proof. intros. rewrite Z.land_comm. by apply land_u32_l. Qed.

Lemma shiftr_u32 a n : is_u32 a -> (0 <= n)%Z -> is_u32 (Z.shiftr a n).
Proof.
  intros Ha Hn. apply u32_of_bits.
  - apply Z.shiftr_nonneg. apply Ha.
  - intros m Hm. rewrite Z.shiftr_spec by lia. apply u32_testbit_high; [done|lia].
Qed.

Lemma u32_const z : (0 <=? z)%Z && (z <? 2 ^ 32)%Z = true -> is_u32 z.
Proof. intros H. apply andb_prop in H as [H1 H2]. split; lia. Qed.

#[export] Hint Resolve wrap32_u32 lxor_u32 lor_u32 shiftr_u32 : u32.
#[export] Hint Extern 2 (is_u32 (Z.land _ _)) =>
  first [apply land_u32_l; [solve [eauto 12 with u32]|solve [eauto 12 with u32]]
        | apply land_u32_r; [solve [eauto 12 with u32]|solve [eauto 12 with u32]]] : u32.
#[export] Hint Extern 5 (0 <= _)%Z => lia : u32.
#[export] Hint Extern 6 (0 <= ?z)%Z =>
  match goal with H : is_u32 z |- _ => apply H end : u32.

Ltac solve_u32 := solve [eauto 12 with u32].

(** ** Arrays of words

    A C array [uint32_t mt[N]] is a list of words read with [rd] (C reads it
    only in range) and written with stdpp's list insert [<[i:=x]>]. *)
Definition rd (l : list Z) (i : nat) : Z :=
  match l !! i with Some x => x | None => 0 end.

Lemma rd_lookup (l : list Z) i x : l !! i = Some x -> rd l i = x.
Proof. unfold rd. by intros ->. Qed.

Lemma rd_u32 l i : Forall is_u32 l -> is_u32 (rd l i).
Proof.
  intros Hl. unfold rd. destruct (l !! i) eqn:E.
  - by eapply Forall_lookup_1.
  - split; lia.
Qed.

(** ** Counted loops

    [for_loop n i body a] runs [body i], [body (i+1)], ..., [body (i+n-1)]
    on the accumulator [a]: the C loop [for (k = i; k < i + n; k++)]. *)
Fixpoint for_loop {A} (n i : nat) (body : nat -> A -> A) (a : A) : A :=
  match n with
  | O => a
  | S n' => for_loop n' (S i) body (body i a)
  end.

Arguments for_loop : simpl never.

(** An invariant kept by every iteration is kept by the loop. *)
Lemma for_loop_inv {A} (P : nat -> A -> Prop) n i body a :
  P i a ->
  (forall k x, (i <= k < i + n)%nat -> P k x -> P (S k) (body k x)) ->
  P (i + n)%nat (for_loop n i body a).
Proof.
  revert i a. induction n as [|n IH]; intros i a H0 Hstep; cbn [for_loop].
  - by rewrite Nat.add_0_r.
  - replace (i + S n)%nat with (S i + n)%nat by lia.
    apply IH; [apply Hstep; [lia|done]|].
    intros k x Hk. apply Hstep. lia.
Qed.

Lemma Forall_insert_u32 (l : list Z) i x :
  Forall is_u32 l -> is_u32 x -> Forall is_u32 (<[i:=x]> l).
Proof. apply Forall_insert. Qed.

#[export] Hint Resolve rd_u32 Forall_insert_u32 : u32.

(** ** Splitting text *)
Section SplitOn.
Context (sep : ascii).

Lemma split_on_no_sep a : sep ∉ a -> split_on sep a = [a].
Proof.
  induction a as [|c a IH]; [done|]. intros Ha. cbn [split_on].
  rewrite decide_False by (intros ->; apply Ha; left).
  rewrite IH; [done|]. intros H. apply Ha. by right.
Qed.

Lemma split_on_app_sep a b : sep ∉ a -> split_on sep (a ++ sep :: b) = a :: split_on sep b.
Proof.
  induction a as [|c a IH]; intros Ha; cbn [app split_on].
  - by rewrite decide_True.
  - rewrite decide_False by (intros ->; apply Ha; left).
    rewrite IH; [done|]. intros H. apply Ha. by right.
Qed.
(** The pieces of [sep.join(items)], for pieces without [sep]. *)
Lemma split_on_join (xs : list text) :
  xs <> [] -> Forall (fun x => sep ∉ x) xs -> split_on sep (join [sep] xs) = xs.
Proof.
  induction xs as [|x [|y xs] IH]; intros Hne Hall; [done| |].
  - inversion Hall. by apply split_on_no_sep.
  - inversion Hall as [|? ? Hx Hrest]; subst.
    change (join [sep] (x :: y :: xs)) with (x ++ sep :: join [sep] (y :: xs)).
    rewrite split_on_app_sep by done. by rewrite IH.
Qed.

Lemma join_snoc (xs : list text) y :
  xs <> [] -> join [sep] xs ++ sep :: y = join [sep] (xs ++ [y]).
Proof.
  induction xs as [|x [|x' xs] IH]; intros Hne; [done|done|].
  change (join [sep] (x :: x' :: xs)) with (x ++ [sep] ++ join [sep] (x' :: xs)).
  change (join [sep] ((x :: x' :: xs) ++ [y])) with (x ++ [sep] ++ join [sep] ((x' :: xs) ++ [y])).
  rewrite <- IH by done. by rewrite <- !app_assoc.
Qed.
(** The lines of a text made of lines each ended by [sep]. *)
Lemma split_on_lines (ls : list text) :
  Forall (fun l => sep ∉ l) ls -> split_on sep (concat (map (fun l => l ++ [sep]) ls)) = ls ++ [[]].
Proof.
  induction 1 as [|l ls Hl _ IH]; [done|]. cbn [map concat].
  rewrite <- app_assoc. cbn [app]. by rewrite split_on_app_sep, IH.
Qed.

End SplitOn.

Lemma list_filter_all {A} (P : A -> Prop) `{!forall x, Decision (P x)} (l : list A) :
  Forall P l -> filter P l = l.
Proof. induction 1 as [|x l Hx _ IH]; [done|]. cbn. case_decide; [|done]. by f_equal. Qed.

(** ** Searching a list

    [find p l], the first element of [l] that satisfies [p], models the
    loops that stop at the first match (the probe loops of a hash table). *)
Section Find.
Context {A : Type}.
Implicit Types (p q : A -> bool) (l : list A).

Lemma find_app p l1 l2 :
  find p (l1 ++ l2) = match find p l1 with Some x => Some x | None => find p l2 end.
Proof. induction l1 as [|x l1 IH]; [done|]. simpl. by destruct (p x). Qed.

(** A search keeps its result under a test that rejects at least what the
    old test rejected and still accepts the result. *)
Lemma find_mono p q l a :
  find p l = Some a -> (forall z, In z l -> p z = false -> q z = false) -> q a = true ->
  find q l = Some a.
Proof.
  induction l as [|x l IH]; [done|]. simpl. intros Hf Hpq Hq.
  destruct (p x) eqn:Hp.
  - injection Hf as ->. by rewrite Hq.
  - rewrite (Hpq x (or_introl eq_refl) Hp). apply IH; auto.
Qed.

Lemma find_ext p q l : (forall z, In z l -> p z = q z) -> find p l = find q l.
Proof.
  induction l as [|x l IH]; [done|]. simpl. intros H.
  rewrite (H x (or_introl eq_refl)). destruct (q x); [done|]. auto.
Qed.

(** The search finds something as soon as one element passes the test. *)
Lemma find_exists p l z : In z l -> p z = true -> exists a, find p l = Some a /\ In a l /\ p a = true.
Proof.
  intros Hz Hp. destruct (find p l) as [a|] eqn:E.
  - exists a. split; [done|]. by apply find_some.
  - by rewrite (find_none p l E z Hz) in Hp.
Qed.
End Find.
