(* ===== verification/MT19937.v ===== *)
(** * The Mersenne Twister behind Python's [random] module

    [random.seed], [random.randrange] and [random.random] of
    src/scripts/gen_random_3sat.py (lines 3, 9 and 10) draw from the hidden
    global [random.Random] instance, whose state is CPython's MT19937
    generator (Modules/_randommodule.c).  This file models that state
    ([RandomObject]: [state[N]] and [index]) and the C functions
    [init_genrand], [init_by_array], [genrand_uint32] and the integer case of
    [random_seed], with explicit state passing and every [uint32_t]
    operation written on [Z] with its wrap-around. *)

From stdpp Require Import base list.
From Stdlib Require Import ZArith Lia.
From S2P Require Import Prelude.

Module MT19937.
Local Open Scope Z_scope.

Definition N : nat := 624.
Definition M : nat := 397.
Definition MATRIX_A : Z := 0x9908b0df.
Definition UPPER_MASK : Z := 0x80000000.
Definition LOWER_MASK : Z := 0x7fffffff.

(** [RandomObject]: the 624-word array and the read index. *)
Record state : Type := mkState { mt : list Z; index : nat }.

(** [init_genrand(self, s)]: [mt[0] = s] and the linear recurrence for
    [mt[1..N-1]]; [index] becomes [N]. *)
Definition init_genrand_step (mti : nat) (a : list Z) : list Z :=
  let prev := rd a (mti - 1) in
  <[mti := wrap32 (1812433253 * Z.lxor prev (Z.shiftr prev 30) + Z.of_nat mti)]> a.

Definition init_genrand (st : state) (s : Z) : state :=
  let a := <[0%nat := s]> (mt st) in
  mkState (for_loop (N - 1) 1 init_genrand_step a) N.

(** [init_by_array(self, init_key, key_length)].  The loop counters
    [i] and [j] are carried with the array. *)
Definition by_array_step1 (key : list Z) (_ : nat) (acc : list Z * nat * nat)
    : list Z * nat * nat :=
  let '(a, i, j) := acc in
  let prev := rd a (i - 1) in
  let v := wrap32 (Z.lxor (rd a i)
                     (wrap32 (Z.lxor prev (Z.shiftr prev 30) * 1664525))
                   + rd key j + Z.of_nat j) in
  let a := <[i := v]> a in
  let i := S i in
  let j := S j in
  let '(a, i) := if decide (N <= i)%nat then (<[0%nat := rd a (N - 1)]> a, 1%nat)
                 else (a, i) in
  let j := if decide (length key <= j)%nat then 0%nat else j in
  (a, i, j).

Definition by_array_step2 (_ : nat) (acc : list Z * nat) : list Z * nat :=
  let '(a, i) := acc in
  let prev := rd a (i - 1) in
  let v := wrap32 (Z.lxor (rd a i)
                     (wrap32 (Z.lxor prev (Z.shiftr prev 30) * 1566083941))
                   - Z.of_nat i) in
  let a := <[i := v]> a in
  let i := S i in
  if decide (N <= i)%nat then (<[0%nat := rd a (N - 1)]> a, 1%nat) else (a, i).

Definition init_by_array (st : state) (key : list Z) : state :=
  let st := init_genrand st 19650218 in
  let k := Nat.max N (length key) in
  let '(a, i, _) := for_loop k 0 (by_array_step1 key) (mt st, 1%nat, 0%nat) in
  let '(a, _) := for_loop (N - 1) 0 by_array_step2 (a, i) in
  mkState (<[0%nat := UPPER_MASK]> a) (index st).

(** The regeneration of the [N] words inside [genrand_uint32], done in place
    in three loops as the C code does it. *)
Definition mag01 (y : Z) : Z := if Z.testbit y 0 then MATRIX_A else 0.

Definition twist_word (cur nxt far : Z) : Z :=
  let y := Z.lor (Z.land cur UPPER_MASK) (Z.land nxt LOWER_MASK) in
  Z.lxor (Z.lxor far (Z.shiftr y 1)) (mag01 y).

Definition twist_step1 (kk : nat) (a : list Z) : list Z :=
  <[kk := twist_word (rd a kk) (rd a (kk + 1)) (rd a (kk + M))]> a.

Definition twist_step2 (kk : nat) (a : list Z) : list Z :=
  <[kk := twist_word (rd a kk) (rd a (kk + 1)) (rd a (kk + M - N))]> a.

Definition twist (a : list Z) : list Z :=
  let a := for_loop (N - M) 0 twist_step1 a in
  let a := for_loop (M - 1) (N - M) twist_step2 a in
  <[(N - 1)%nat := twist_word (rd a (N - 1)) (rd a 0) (rd a (M - 1))]> a.

(** The tempering of the output word. *)
Definition temper (y : Z) : Z :=
  let y := Z.lxor y (Z.shiftr y 11) in
  let y := Z.lxor y (Z.land (Z.shiftl y 7) 0x9d2c5680) in
  let y := Z.lxor y (Z.land (Z.shiftl y 15) 0xefc60000) in
  Z.lxor y (Z.shiftr y 18).

(** [genrand_uint32(self)]: regenerate when [index >= N], then read
    [mt[index++]] and temper it. *)
Definition genrand_uint32 (st : state) : Z * state :=
  let st := if decide (N <= index st)%nat then mkState (twist (mt st)) 0 else st in
  (temper (rd (mt st) (index st)), mkState (mt st) (S (index st))).

(** The integer case of [random_seed(self, arg)]: the absolute value of the
    seed is cut into 32-bit words, least significant first, at least one
    word, and given to [init_by_array]. *)
Definition key_used (n : Z) : nat :=
  if decide (n = 0) then 1%nat else Z.to_nat ((Z.log2 n) / 32 + 1).

Definition seed_chunks (n : Z) (start count : nat) : list Z :=
  map (fun i => Z.land (Z.shiftr n (32 * Z.of_nat i)) 0xffffffff) (seq start count).

Definition seed_key (a : Z) : list Z :=
  let n := Z.abs a in seed_chunks n 0 (key_used n).

(** The number a little-endian list of 32-bit words stands for. *)
Definition le_words (ws : list Z) : Z := fold_right (fun w acc => w + 2 ^ 32 * acc) 0 ws.

(** The state of a fresh [Random] object before seeding: [random_new]
    allocates the array; every word is overwritten by [init_genrand]. *)
Definition fresh : state := mkState (replicate N 0) N.

Definition random_seed (st : state) (a : Z) : state := init_by_array st (seed_key a).

(** ** The reference recurrence

    The MT19937 sequence extends the [N] words [x_0 .. x_(N-1)] of the state by
    [x_(k+N) = x_(k+M) xor ((x_k^upper | x_(k+1)^lower) A)].  [mt_next_block]
    computes the next [N] words of the sequence from the current ones, one word
    at a time, without updating anything in place. *)
Definition extend_step (k : nat) (xs : list Z) : list Z :=
  xs ++ [twist_word (rd xs k) (rd xs (k + 1)) (rd xs (k + M))].

Definition mt_extend (a : list Z) : list Z := for_loop N 0 extend_step a.

Definition mt_next_block (a : list Z) : list Z := drop N (mt_extend a).

(** ** The invariant of the generator state *)
Definition mt_wf (st : state) : Prop :=
  length (mt st) = N /\ Forall is_u32 (mt st) /\ (index st <= N)%nat.

(** An array of [N] words. *)
Definition arr_wf (a : list Z) : Prop := length a = N /\ Forall is_u32 a.

Lemma arr_wf_insert a i x : arr_wf a -> is_u32 x -> arr_wf (<[i := x]> a).
Proof. intros [Hl Hf] Hx. split; [by rewrite length_insert|solve_u32]. Qed.

Lemma arr_wf_rd a i : arr_wf a -> is_u32 (rd a i).
Proof. intros [_ Hf]. solve_u32. Qed.

#[local] Hint Resolve arr_wf_insert arr_wf_rd : u32.

Lemma MATRIX_A_u32 : is_u32 MATRIX_A. Proof. unfold MATRIX_A, is_u32. lia. Qed.
Lemma UPPER_MASK_u32 : is_u32 UPPER_MASK. Proof. unfold UPPER_MASK, is_u32. lia. Qed.
Lemma LOWER_MASK_u32 : is_u32 LOWER_MASK. Proof. unfold LOWER_MASK, is_u32. lia. Qed.

#[local] Hint Resolve MATRIX_A_u32 UPPER_MASK_u32 LOWER_MASK_u32 : u32.
#[local] Hint Extern 3 (is_u32 ?z) =>
  lazymatch z with Z0 => split; lia | Zpos _ => split; lia end : u32.

Lemma mag01_u32 y : is_u32 (mag01 y).
Proof. unfold mag01. destruct (Z.testbit y 0); solve_u32. Qed.

Lemma twist_word_u32 a b c : is_u32 a -> is_u32 b -> is_u32 c -> is_u32 (twist_word a b c).
Proof. intros. unfold twist_word. pose proof (mag01_u32 (Z.lor (Z.land a UPPER_MASK) (Z.land b LOWER_MASK))). solve_u32. Qed.

#[local] Hint Resolve mag01_u32 twist_word_u32 : u32.

(** A loop whose body keeps [arr_wf] keeps it. *)
Lemma for_loop_arr_wf n i body a :
  (forall k x, arr_wf x -> arr_wf (body k x)) -> arr_wf a -> arr_wf (for_loop n i body a).
Proof.
  intros Hb Ha. apply (for_loop_inv (fun _ x => arr_wf x)); [done|]. auto.
Qed.

Lemma init_genrand_arr_wf st s :
  arr_wf (mt st) -> is_u32 s -> mt_wf (init_genrand st s).
Proof.
  intros Ha Hs. unfold init_genrand, mt_wf. cbn [mt index].
  enough (arr_wf (for_loop (N - 1) 1 init_genrand_step (<[0%nat:=s]> (mt st)))) as [H1 H2].
  - split; [exact H1|split; [exact H2|lia]].
  - apply for_loop_arr_wf; [|solve_u32].
    intros k x Hx. unfold init_genrand_step. solve_u32.
Qed.

Lemma by_array_step1_wf key k a i j :
  arr_wf a -> arr_wf (by_array_step1 key k (a, i, j)).1.1.
Proof.
  intros Ha. unfold by_array_step1.
  set (a' := <[i := _]> a).
  assert (arr_wf a') by (subst a'; solve_u32).
  destruct (decide (N <= S i)%nat); cbn [fst snd]; solve_u32.
Qed.

Lemma by_array_step2_wf k a i : arr_wf a -> arr_wf (by_array_step2 k (a, i)).1.
Proof.
  intros Ha. unfold by_array_step2.
  set (a' := <[i := _]> a).
  assert (arr_wf a') by (subst a'; solve_u32).
  destruct (decide (N <= S i)%nat); cbn [fst snd]; solve_u32.
Qed.

Lemma init_by_array_wf st key : arr_wf (mt st) -> mt_wf (init_by_array st key).
Proof.
  intros Ha. unfold init_by_array.
  pose proof (init_genrand_arr_wf st 19650218 Ha ltac:(solve_u32)) as (Hl & Hf & Hi).
  set (st1 := init_genrand st 19650218) in *.
  destruct (for_loop _ 0 (by_array_step1 key) (mt st1, 1%nat, 0%nat)) as [[a i] j] eqn:E1.
  assert (arr_wf a) as Ha1.
  { change a with (a, i, j).1.1. rewrite <- E1.
    apply (for_loop_inv (fun _ acc => arr_wf acc.1.1)); [split; assumption|].
    intros k [[x i'] j'] _ Hx. by apply by_array_step1_wf. }
  destruct (for_loop (N - 1) 0 by_array_step2 (a, i)) as [a2 i2] eqn:E2.
  assert (arr_wf a2) as Ha2.
  { change a2 with (a2, i2).1. rewrite <- E2.
    apply (for_loop_inv (fun _ acc => arr_wf acc.1)); [exact Ha1|].
    intros k [x i'] _ Hx. by apply by_array_step2_wf. }
  destruct (arr_wf_insert a2 0 UPPER_MASK) as [H1 H2]; [exact Ha2|solve_u32|].
  split; [exact H1|split; [exact H2|exact Hi]].
Qed.

Lemma twist_arr_wf a : arr_wf a -> arr_wf (twist a).
Proof.
  intros Ha. unfold twist.
  assert (arr_wf (for_loop (M - 1) (N - M) twist_step2 (for_loop (N - M) 0 twist_step1 a))).
  { apply for_loop_arr_wf; [intros; unfold twist_step2; solve_u32|].
    apply for_loop_arr_wf; [intros; unfold twist_step1; solve_u32|done]. }
  solve_u32.
Qed.

Lemma temper_u32 y : is_u32 y -> is_u32 (temper y).
Proof.
  intros Hy. unfold temper.
  assert (forall x k, (0 <= x) -> (0 <= k) -> 0 <= Z.shiftl x k)
    by (intros; apply Z.shiftl_nonneg; lia).
  assert (is_u32 (Z.lxor y (Z.shiftr y 11))) as H1 by solve_u32.
  assert (is_u32 (Z.lxor (Z.lxor y (Z.shiftr y 11))
    (Z.land (Z.shiftl (Z.lxor y (Z.shiftr y 11)) 7) 0x9d2c5680))) as H2
    by (apply lxor_u32; [done|apply land_u32_r; [apply H; [apply H1|lia]|solve_u32]]).
  set (y2 := Z.lxor _ _) in H2 |- *.
  assert (is_u32 (Z.lxor y2 (Z.land (Z.shiftl y2 15) 0xefc60000))) as H3
    by (apply lxor_u32; [done|apply land_u32_r; [apply H; [apply H2|lia]|solve_u32]]).
  solve_u32.
Qed.

#[local] Hint Resolve temper_u32 : u32.

(** ** Properties of the generator *)

Lemma fresh_arr_wf : arr_wf (mt fresh).
Proof.
  split; [apply length_replicate|]. apply Forall_replicate. split; lia.
Qed.

(** [genrand_uint32] keeps the state invariant (624 words of 32 bits and an
    index at most 624) and returns a 32-bit word. *)
Lemma genrand_uint32_wf st :
  mt_wf st ->
  is_u32 (genrand_uint32 st).1 /\ mt_wf (genrand_uint32 st).2.
Proof.
  intros (Hl & Hf & Hi). unfold genrand_uint32.
  destruct (decide (N <= index st)%nat) as [Hge|Hlt]; cbn [fst snd mt index].
  - assert (arr_wf (twist (mt st))) as Htw by (apply twist_arr_wf; split; assumption).
    split; [solve_u32|]. destruct Htw as [Hl' Hf'].
    split; [exact Hl'|split; [exact Hf'|cbn [index]; unfold N; lia]].
  - split; [solve_u32|]. split; [exact Hl|split; [exact Hf|cbn [index]; lia]].
Qed.

Lemma random_seed_wf st a : arr_wf (mt st) -> mt_wf (random_seed st a).
Proof. apply init_by_array_wf. Qed.

(** The generator as a state machine: a state the module reaches is made by
    [random.seed] from an array of [N] words, or by a draw from a reachable
    state. *)
Inductive mt_reachable : state -> Prop :=
  | reach_seed st a : arr_wf (mt st) -> mt_reachable (random_seed st a)
  | reach_draw st : mt_reachable st -> mt_reachable (genrand_uint32 st).2.

(** C16: Every state the generator reaches by seeding and drawing satisfies
    the invariant (624 words of 32 bits, index at most 624), and the next
    draw from it is a 32-bit word. *)
Theorem mt_reachable_wf st : mt_reachable st -> mt_wf st /\ is_u32 (genrand_uint32 st).1.
Proof.
  induction 1 as [st a Ha|st _ [Hwf _]].
  - pose proof (random_seed_wf st a Ha) as Hwf. split; [done|]. by apply genrand_uint32_wf.
  - destruct (genrand_uint32_wf st Hwf) as [_ Hwf']. split; [done|].
    by apply genrand_uint32_wf.
Qed.

(** ** The in-place regeneration computes the recurrence *)

Ltac nm := unfold N, M in *; lia.

Lemma lookup_rd (xs : list Z) i : (i < length xs)%nat -> xs !! i = Some (rd xs i).
Proof.
  intros Hi. unfold rd. destruct (lookup_lt_is_Some_2 xs i Hi) as [x ->]. done.
Qed.

Lemma rd_app_l (xs ys : list Z) i : (i < length xs)%nat -> rd (xs ++ ys) i = rd xs i.
Proof. intros Hi. unfold rd. by rewrite lookup_app_l. Qed.

(** What the extended sequence holds after [k] steps. *)
Definition extend_inv (a : list Z) (k : nat) (xs : list Z) : Prop :=
  length xs = (N + k)%nat /\
  (forall j, (j < N)%nat -> xs !! j = a !! j) /\
  (forall k', (k' < k)%nat ->
     xs !! (N + k')%nat = Some (twist_word (rd xs k') (rd xs (k' + 1)) (rd xs (k' + M)))).

Lemma extend_inv_step a k xs :
  extend_inv a k xs -> extend_inv a (S k) (extend_step k xs).
Proof.
  intros (Hl & Ha & Hk). unfold extend_step.
  assert (forall i, (i < N + k)%nat -> rd (xs ++ [twist_word (rd xs k) (rd xs (k + 1)) (rd xs (k + M))]) i = rd xs i)
    as Hrd by (intros; apply rd_app_l; lia).
  split; [rewrite length_app, Hl; cbn [length]; lia|split].
  - intros j Hj. rewrite lookup_app_l by lia. by apply Ha.
  - intros k' Hk'. rewrite !Hrd by nm.
    destruct (decide (k' = k)) as [->|Hne].
    + rewrite lookup_app_r by lia. by replace (N + k - length xs)%nat with 0%nat by lia.
    + rewrite lookup_app_l by lia. apply Hk. lia.
Qed.

Lemma mt_extend_spec a :
  length a = N -> extend_inv a N (mt_extend a).
Proof.
  intros Hl. unfold mt_extend.
  apply (for_loop_inv (extend_inv a) N 0 extend_step a).
  - split; [lia|split; [done|intros; lia]].
  - intros k xs _. apply extend_inv_step.
Qed.

Section TwistInPlace.
Variable a : list Z.
Hypothesis Hlen : length a = N.
Let ext := mt_extend a.
Let x (i : nat) : Z := rd ext i.

(** After [kk] steps of the in-place loop, the first [kk] cells hold the
    new words and the others the old ones. *)
Definition twist_inv (kk : nat) (b : list Z) : Prop :=
  length b = N /\
  forall j, (j < N)%nat -> b !! j = ext !! (if decide (j < kk)%nat then N + j else j)%nat.

Lemma twist_inv_rd kk b i :
  twist_inv kk b -> (i < N)%nat -> rd b i = x (if decide (i < kk)%nat then N + i else i)%nat.
Proof. intros [_ Hb] Hi. unfold x, rd. by rewrite Hb. Qed.

Lemma ext_new kk :
  (kk < N)%nat -> ext !! (N + kk)%nat = Some (twist_word (x kk) (x (kk + 1)) (x (kk + M))).
Proof. intros Hk. destruct (mt_extend_spec a Hlen) as (_ & _ & Hn). by apply Hn. Qed.

Lemma twist_inv_write kk b :
  (kk < N)%nat -> twist_inv kk b ->
  twist_inv (S kk) (<[kk := twist_word (x kk) (x (kk + 1)) (x (kk + M))]> b).
Proof.
  intros Hk [Hl Hb]. split; [by rewrite length_insert|].
  intros j Hj. destruct (decide (j = kk)) as [->|Hne].
  - rewrite list_lookup_insert_eq by lia. rewrite decide_True by lia.
    by rewrite ext_new.
  - rewrite list_lookup_insert_ne by done. rewrite Hb by done.
    by destruct (decide (j < kk)%nat), (decide (j < S kk)%nat); try lia.
Qed.
Lemma twist_inv_old kk b i : twist_inv kk b -> (kk <= i < N)%nat -> rd b i = x i.
Proof. intros Hb Hi. rewrite (twist_inv_rd kk) by (done || lia). by rewrite decide_False by lia. Qed.

Lemma twist_inv_new kk b i : twist_inv kk b -> (i < kk)%nat -> (i < N)%nat -> rd b i = x (N + i).
Proof. intros Hb Hi ?. rewrite (twist_inv_rd kk) by done. by rewrite decide_True by lia. Qed.

Lemma twist_inv_start : twist_inv 0 a.
Proof.
  split; [done|]. intros j Hj. destruct (mt_extend_spec a Hlen) as (_ & Ha & _).
  by rewrite Ha.
Qed.

Lemma twist_loops :
  twist_inv (N - 1) (for_loop (M - 1) (N - M) twist_step2 (for_loop (N - M) 0 twist_step1 a)).
Proof.
  replace (N - 1)%nat with (N - M + (M - 1))%nat by nm.
  apply (for_loop_inv twist_inv).
  - replace (N - M)%nat with (0 + (N - M))%nat at 1 by lia.
    apply (for_loop_inv twist_inv); [apply twist_inv_start|].
    intros kk b Hk Hb. unfold twist_step1.
    rewrite (twist_inv_old kk b kk), (twist_inv_old kk b (kk + 1)), (twist_inv_old kk b (kk + M))
      by (done || nm).
    apply twist_inv_write; [nm|done].
  - intros kk b Hk Hb. unfold twist_step2.
    rewrite (twist_inv_old kk b kk), (twist_inv_old kk b (kk + 1)), (twist_inv_new kk b (kk + M - N))
      by (done || nm).
    replace (N + (kk + M - N))%nat with (kk + M)%nat by nm.
    apply twist_inv_write; [nm|done].
Qed.

(** C15: The in-place regeneration of [genrand_uint32] (three loops that
    overwrite [mt] while reading it) computes exactly the next [N] words of
    the MT19937 recurrence. *)
Theorem twist_next_block : twist a = mt_next_block a.
Proof.
  pose proof twist_loops as Hb. unfold twist.
  set (b := for_loop (M - 1) (N - M) twist_step2 _) in *.
  rewrite (twist_inv_old (N - 1) b (N - 1)), (twist_inv_new (N - 1) b 0),
    (twist_inv_new (N - 1) b (M - 1)) by (done || nm).
  replace (N + 0)%nat with (N - 1 + 1)%nat by nm.
  replace (N + (M - 1))%nat with (N - 1 + M)%nat by nm.
  destruct (twist_inv_write (N - 1) b ltac:(nm) Hb) as [Hl Hw].
  destruct (mt_extend_spec a Hlen) as (Hle & _ & _).
  apply list_eq. intros j. unfold mt_next_block. rewrite lookup_drop.
  destruct (decide (j < N)%nat).
  - rewrite Hw by done. by rewrite decide_True by nm.
  - rewrite !lookup_ge_None_2; [done| |]; [rewrite Hle|rewrite Hl]; nm.
Qed.
End TwistInPlace.

(** ** The seed reaches the generator whole *)

Lemma seed_chunks_value n s k :
  0 <= n -> Z.shiftr n (32 * Z.of_nat s) < 2 ^ (32 * Z.of_nat k) ->
  le_words (seed_chunks n s k) = Z.shiftr n (32 * Z.of_nat s).
Proof.
  revert s. induction k as [|k IH]; intros s Hn Hlt.
  - simpl in *. pose proof (proj2 (Z.shiftr_nonneg n (32 * Z.of_nat s)) Hn). lia.
  - change (seed_chunks n s (S k)) with
      (Z.land (Z.shiftr n (32 * Z.of_nat s)) 0xffffffff :: seed_chunks n (S s) k).
    change (le_words (?w :: ?ws)) with (w + 2 ^ 32 * le_words ws).
    rewrite IH by
      (done || (replace (32 * Z.of_nat (S s)) with (32 * Z.of_nat s + 32) by lia;
       rewrite <- Z.shiftr_shiftr, Z.shiftr_div_pow2 by lia;
       apply Z.div_lt_upper_bound; [lia|];
       replace (2 ^ 32 * 2 ^ (32 * Z.of_nat k)) with (2 ^ (32 * Z.of_nat (S k))); [done|];
       rewrite <- Z.pow_add_r by lia; f_equal; lia)).
    set (y := Z.shiftr n (32 * Z.of_nat s)).
    replace (32 * Z.of_nat (S s)) with (32 * Z.of_nat s + 32) by lia.
    rewrite <- Z.shiftr_shiftr by lia. fold y.
    change 0xffffffff with (Z.ones 32).
    rewrite Z.land_ones, Z.shiftr_div_pow2 by lia.
    pose proof (Z.div_mod y (2 ^ 32)). lia.
Qed.

Lemma key_used_enough n : 0 <= n -> n < 2 ^ (32 * Z.of_nat (key_used n)).
Proof.
  intros Hn. unfold key_used. destruct (decide (n = 0)) as [->|Hne]; [simpl; lia|].
  pose proof (Z.log2_spec n ltac:(lia)) as [_ H].
  pose proof (Z.log2_nonneg n).
  eapply Z.lt_le_trans; [exact H|]. apply Z.pow_le_mono_r; [lia|].
  rewrite Z2Nat.id by (apply Z.add_nonneg_nonneg; [apply Z.div_pos|]; lia).
  pose proof (Z.mul_div_le (Z.log2 n) 32 ltac:(lia)).
  pose proof (Z.mod_pos_bound (Z.log2 n) 32 ltac:(lia)).
  pose proof (Z.div_mod (Z.log2 n) 32 ltac:(lia)). lia.
Qed.

(** C17: [random_seed] hands [init_by_array] the absolute value of the seed
    whole: the key words are 32-bit words that, read little-endian, give
    back [|a|] (so two seeds with different absolute values give different
    keys). *)
Theorem seed_key_roundtrip a :
  Forall is_u32 (seed_key a) /\ le_words (seed_key a) = Z.abs a.
Proof.
  split.
  - unfold seed_key, seed_chunks. apply Forall_forall. intros w Hw.
    apply (list_elem_of_fmap _ _ w) in Hw as (i & -> & _).
    change 0xffffffff with (Z.ones 32). rewrite Z.land_ones by lia.
    apply Z.mod_pos_bound. lia.
  - unfold seed_key. rewrite seed_chunks_value.
    + simpl. by rewrite Z.shiftr_0_r.
    + lia.
    + simpl. rewrite Z.shiftr_0_r. apply key_used_enough. lia.
Qed.

Lemma seed_key_opp a : seed_key (- a) = seed_key a.
Proof. unfold seed_key. by rewrite Z.abs_opp. Qed.

(** ** Conformance and witnesses *)

(** The witness also checks the model against the published test output of
    the reference mt19937ar.c: after [init_by_array({0x123, 0x234, 0x345,
    0x456}, 4)] the first five words are 1067595299, 955945823, 477289528,
    4107218783 and 4228976476. *)
Lemma mt_reachable_wf_witness :
  (let st0 := init_by_array fresh [0x123; 0x234; 0x345; 0x456] in
   let '(w1, st1) := genrand_uint32 st0 in
   let '(w2, st2) := genrand_uint32 st1 in
   let '(w3, st3) := genrand_uint32 st2 in
   let '(w4, st4) := genrand_uint32 st3 in
   let '(w5, _) := genrand_uint32 st4 in
   [w1; w2; w3; w4; w5] = [1067595299; 955945823; 477289528; 4107218783; 4228976476]) /\
  mt_reachable (genrand_uint32 (random_seed fresh 42)).2 /\
  mt_wf (genrand_uint32 (random_seed fresh 42)).2 /\
  is_u32 (genrand_uint32 (genrand_uint32 (random_seed fresh 42)).2).1.
Proof.
  split; [vm_compute; reflexivity|].
  assert (mt_reachable (genrand_uint32 (random_seed fresh 42)).2) as H
    by (apply reach_draw, reach_seed, fresh_arr_wf).
  split; [exact H|]. apply mt_reachable_wf. exact H.
Defined.

Lemma twist_next_block_witness :
  length (mt (random_seed fresh 42)) = N /\
  twist (mt (random_seed fresh 42)) = mt_next_block (mt (random_seed fresh 42)).
Proof.
  assert (length (mt (random_seed fresh 42)) = N) as H by (vm_compute; reflexivity).
  split; [exact H|]. apply twist_next_block. exact H.
Defined.

End MT19937.
