(* ===== verification/PyRandom.v ===== *)
(** * Python's [random] functions used by the generator

    src/scripts/gen_random_3sat.py calls [random.seed(seed)] (line 3),
    [random.randrange(1, n + 1)] (line 9) and [random.random()] (line 10).
    This file models them as CPython runs them: [Random.randrange] and
    [Random._randbelow_with_getrandbits] of Lib/random.py, and
    [random_getrandbits] and [random_random] of Modules/_randommodule.c.

    They are written against an interface, the class [RandomSource]: a state
    with an invariant and a function that returns the next 32-bit word
    ([genrand_uint32]).  The Mersenne Twister of MT19937.v is its instance.
    The hidden global generator of the module is passed explicitly: every
    function is a computation of [PyM S]. *)

From stdpp Require Import base list.
From Stdlib Require Import ZArith QArith Lia.
From S2P Require Import Prelude MT19937.

(** ** The interface of a 32-bit generator *)
Class RandomSource (S : Type) : Type := {
  rs_wf : S -> Prop;
  rs_next : S -> Z * S;
  rs_next_u32 : forall s, rs_wf s -> is_u32 (rs_next s).1;
  rs_next_wf : forall s, rs_wf s -> rs_wf (rs_next s).2
}.

#[export] Instance mt19937_source : RandomSource MT19937.state.
Proof.
  refine {| rs_wf := MT19937.mt_wf; rs_next := MT19937.genrand_uint32 |}.
  - intros s Hs. apply MT19937.genrand_uint32_wf, Hs.
  - intros s Hs. apply MT19937.genrand_uint32_wf, Hs.
Defined.

Module PyRandom.
Local Open Scope Z_scope.

Section WithSource.
Context {St : Type} `{RandomSource St}.

Definition next32 : PyM St Z := mstate rs_next.

(** [random_getrandbits(self, k)]: the words of the general path are
    drawn least significant first, the last one shifted right to keep [k]
    bits. *)
Fixpoint getrandbits_words (words : nat) (k : Z) : PyM St Z :=
  match words with
  | O => mret 0
  | S w =>
      let* r := next32 in
      let r := if k <? 32 then Z.shiftr r (32 - k) else r in
      let* rest := getrandbits_words w (k - 32) in
      mret (r + 2 ^ 32 * rest)
  end.

Definition getrandbits (k : Z) : PyM St Z :=
  if k <? 0 then mthrow ValueError
  else if k =? 0 then mret 0
  else if k <=? 32 then
    let* r := next32 in mret (Z.shiftr r (32 - k))
  else getrandbits_words (Z.to_nat ((k - 1) / 32 + 1)) k.

(** [random_random(self)]: [a = genrand_uint32() >> 5],
    [b = genrand_uint32() >> 6], and the double
    [(a*67108864.0 + b) * (1.0/9007199254740992.0)].  Both products are
    exact in binary64 ([a * 2^26 + b < 2^53], and the second factor is a
    power of two), so the double is the rational [(a * 2^26 + b) / 2^53],
    which is what the model returns. *)
Definition random_numerator : PyM St Z :=
  let* a := next32 in
  let* b := next32 in
  mret (Z.shiftr a 5 * 67108864 + Z.shiftr b 6).

Definition random : PyM St Q :=
  let* r := random_numerator in
  mret (Qmake r (Z.to_pos (2 ^ 53))).

(** The comparison [x < y] of two Python floats that are exact rationals. *)
Definition qlt (x y : Q) : bool := negb (Qle_bool y x).

(** [int.bit_length]. *)
Definition bit_length (n : Z) : Z := if n =? 0 then 0 else Z.log2 (Z.abs n) + 1.

(** [_randbelow_with_getrandbits(n)]: draw [k = n.bit_length()] bits until
    the value is below [n].  [fuel] bounds the number of redraws. *)
Fixpoint randbelow_loop (fuel : nat) (n k r : Z) : PyM St Z :=
  if r <? n then mret r
  else match fuel with
       | O => mstuck
       | S f => let* r := getrandbits k in randbelow_loop f n k r
       end.

Definition randbelow (fuel : nat) (n : Z) : PyM St Z :=
  let k := bit_length n in
  let* r := getrandbits k in
  randbelow_loop fuel n k r.

(** [randrange(start, stop)] with the default step: [ValueError] on an
    empty range. *)
Definition randrange (fuel : nat) (start stop : Z) : PyM St Z :=
  let width := stop - start in
  if 0 <? width then
    let* r := randbelow fuel width in mret (start + r)
  else mthrow ValueError.
(** *** Specifications *)

Lemma next32_spec : inv_spec rs_wf next32 is_u32.
Proof.
  intros s Hs. unfold next32, mstate. destruct (rs_next s) as [w s'] eqn:E.
  pose proof (rs_next_u32 s Hs) as Hw. pose proof (rs_next_wf s Hs) as Hs'.
  rewrite E in Hw, Hs'. split; [done|]. exact Hw.
Qed.

Lemma shiftr_word_bound r k :
  is_u32 r -> 0 < k <= 32 -> 0 <= Z.shiftr r (32 - k) < 2 ^ k.
Proof.
  intros [H0 H1] Hk. rewrite Z.shiftr_div_pow2 by lia. split.
  - apply Z.div_pos; [lia|]. apply Z.pow_pos_nonneg; lia.
  - apply Z.div_lt_upper_bound; [apply Z.pow_pos_nonneg; lia|].
    rewrite <- Z.pow_add_r by lia. replace (32 - k + k) with 32 by lia. lia.
Qed.

Lemma getrandbits_words_spec w k :
  0 < k -> 32 * Z.of_nat w - 32 < k <= 32 * Z.of_nat w ->
  inv_spec rs_wf (getrandbits_words w k) (fun r => 0 <= r < 2 ^ k).
Proof.
  revert k. induction w as [|w IH]; intros k Hk0 Hk; [lia|]. cbn [getrandbits_words].
  inv_spec_call next32_spec. rename a into r.
  destruct w as [|w].
  - cbn [getrandbits_words]. do 2 inv_spec_step.
    destruct (Z.ltb_spec k 32).
    + pose proof (shiftr_word_bound r k H0 ltac:(lia)). lia.
    + replace k with 32 by lia. destruct H0. lia.
  - destruct (Z.ltb_spec k 32); [lia|].
    inv_spec_call IH; [lia|lia|]. rename a into rest. inv_spec_step.
    destruct H0. replace (2 ^ k) with (2 ^ 32 * 2 ^ (k - 32)) by (rewrite <- Z.pow_add_r; f_equal; lia).
    set (X := 2 ^ (k - 32)) in *. change (2 ^ 32) with 4294967296 in *. cbv beta in *. lia.
Qed.

(** [getrandbits(k)] with [k >= 0] raises nothing, keeps the generator invariant and
    returns an integer in [0, 2^k); with [k < 0] it raises [ValueError]. *)
Lemma getrandbits_spec k :
  0 <= k -> inv_spec rs_wf (getrandbits k) (fun r => 0 <= r < 2 ^ k).
Proof.
  intros Hk. unfold getrandbits.
  destruct (Z.ltb_spec k 0); [lia|].
  destruct (Z.eqb_spec k 0) as [->|Hne]; [inv_spec_step; simpl; lia|].
  destruct (Z.leb_spec k 32).
  - inv_spec_call next32_spec. inv_spec_step. apply shiftr_word_bound; [done|lia].
  - apply getrandbits_words_spec; [lia|].
    rewrite Z2Nat.id by (apply Z.add_nonneg_nonneg; [apply Z.div_pos|]; lia).
    pose proof (Z.mul_div_le (k - 1) 32 ltac:(lia)).
    pose proof (Z.mod_pos_bound (k - 1) 32 ltac:(lia)).
    pose proof (Z.div_mod (k - 1) 32 ltac:(lia)). lia.
Qed.

Lemma getrandbits_neg k s : k < 0 -> getrandbits k s = (Raise ValueError, s).
Proof. intros Hk. unfold getrandbits. by destruct (Z.ltb_spec k 0); [|lia]. Qed.

(** C19: The fast path of [random_getrandbits] for [k <= 32] (one word shifted
    right by [32 - k]) computes what the general word loop computes. *)
Theorem getrandbits_fast_path k s :
  0 < k <= 32 -> getrandbits k s = getrandbits_words (Z.to_nat ((k - 1) / 32 + 1)) k s.
Proof.
  intros Hk. unfold getrandbits.
  destruct (Z.ltb_spec k 0); [lia|]. destruct (Z.eqb_spec k 0); [lia|].
  destruct (Z.leb_spec k 32); [|lia].
  replace (Z.to_nat ((k - 1) / 32 + 1)) with 1%nat
    by (rewrite Z.div_small by lia; reflexivity).
  cbn [getrandbits_words]. unfold mbind, next32, mstate, mret.
  destruct (rs_next s) as [r s']. destruct (Z.ltb_spec k 32).
  - f_equal. f_equal. lia.
  - replace k with 32 by lia. rewrite Z.sub_diag, Z.shiftr_0_r. f_equal. f_equal. lia.
Qed.

Lemma random_numerator_spec :
  inv_spec rs_wf random_numerator (fun r => 0 <= r < 2 ^ 53).
Proof.
  unfold random_numerator. inv_spec_call next32_spec.
  inv_spec_call next32_spec. inv_spec_step.
  pose proof (shiftr_word_bound a 27 H0 ltac:(lia)).
  pose proof (shiftr_word_bound a0 26 H1 ltac:(lia)).
  change (32 - 27) with 5 in *. change (32 - 26) with 6 in *.
  change (2 ^ 27) with 134217728 in *. change (2 ^ 26) with 67108864 in *.
  change (2 ^ 53) with 9007199254740992. lia.
Qed.

(** [random()] keeps the generator invariant and returns a float in
    [0.0, 1.0). *)
Lemma random_spec : inv_spec rs_wf random (fun q => 0 <= q /\ q < 1)%Q.
Proof.
  unfold random. inv_spec_call random_numerator_spec. inv_spec_step.
  unfold Qle, Qlt. cbn [Qnum Qden]. change (Z.pos (Z.to_pos (2 ^ 53))) with (2 ^ 53).
  lia.
Qed.

(** C18: [random() < 0.5] holds exactly when the first of the two 32-bit words
    that [random()] draws has its top bit clear: the coin that decides the
    sign of a literal is that bit. *)
Theorem random_lt_half s :
  rs_wf s ->
  exists q, (random s).1 = Ret q /\ qlt q (1 # 2) = ((rs_next s).1 <? 2 ^ 31).
Proof.
  intros Hs. unfold random, random_numerator, next32, mbind, mstate, mret.
  pose proof (rs_next_u32 s Hs) as Ha. pose proof (rs_next_wf s Hs) as Hs'.
  destruct (rs_next s) as [a s1] eqn:E1. cbn [fst snd] in *.
  pose proof (rs_next_u32 s1 Hs') as Hb.
  destruct (rs_next s1) as [b s2] eqn:E2. cbn [fst snd] in *.
  eexists; split; [reflexivity|].
  unfold qlt, Qle_bool. cbn [Qnum Qden]. change (Z.pos (Z.to_pos (2 ^ 53))) with (2 ^ 53).
  pose proof (shiftr_word_bound b 26 Hb ltac:(lia)).
  change (32 - 26) with 6 in *. change (2 ^ 26) with 67108864 in *.
  assert (Z.shiftr a 5 < 67108864 <-> a < 2 ^ 31) as Htop.
  { rewrite Z.shiftr_div_pow2 by lia. destruct Ha.
    split; intros Hlt.
    - apply Z.nle_gt. intros Hge. apply Z.nle_gt in Hlt. apply Hlt.
      apply Z.div_le_lower_bound; [lia|]. change (2 ^ 31) with 2147483648 in Hge.
      change (2 ^ 5) with 32. lia.
    - apply Z.div_lt_upper_bound; [lia|]. change (2 ^ 31) with 2147483648 in Hlt.
      change (2 ^ 5) with 32. lia. }
  change (2 ^ 53) with 9007199254740992.
  destruct (Z.leb_spec (1 * 9007199254740992) ((Z.shiftr a 5 * 67108864 + Z.shiftr b 6) * Z.pos 2));
    destruct (Z.ltb_spec a (2 ^ 31)); simpl; lia.
Qed.

Lemma bit_length_nonneg n : 0 <= bit_length n.
Proof.
  unfold bit_length. destruct (Z.eqb_spec n 0); [lia|].
  pose proof (Z.log2_nonneg (Z.abs n)). lia.
Qed.

Lemma randbelow_loop_spec fuel n k r :
  0 <= k -> 0 <= r ->
  inv_spec rs_wf (randbelow_loop fuel n k r) (fun x => 0 <= x < n).
Proof.
  revert r. induction fuel as [|f IH]; intros r Hk Hr; cbn [randbelow_loop];
    (destruct (Z.ltb_spec r n); [inv_spec_step; lia|]).
  - inv_spec_step.
  - inv_spec_call getrandbits_spec as r' Hr'; [done|]. apply IH; [done|]. by destruct Hr'.
Qed.

(** [_randbelow(n)] keeps the generator invariant, never raises, and what
    it returns is in [0, n). *)
Lemma randbelow_spec fuel n :
  inv_spec rs_wf (randbelow fuel n) (fun x => 0 <= x < n).
Proof.
  unfold randbelow. pose proof (bit_length_nonneg n).
  inv_spec_call getrandbits_spec as r Hr; [done|].
  apply randbelow_loop_spec; [done|]. by destruct Hr.
Qed.

(** The fuel only bounds the number of redraws: a run that ends with a
    value ends with the same value and state under any larger fuel. *)
Lemma randbelow_loop_fuel_mono fuel fuel' n k r s x s' :
  (fuel <= fuel')%nat -> 0 <= k ->
  randbelow_loop fuel n k r s = (Ret x, s') -> randbelow_loop fuel' n k r s = (Ret x, s').
Proof.
  revert fuel' r s. induction fuel as [|f IH]; intros fuel' r s Hle Hk Hrun;
    cbn [randbelow_loop] in *; destruct fuel' as [|f']; cbn [randbelow_loop];
    destruct (Z.ltb_spec r n); try done; try lia.
  unfold mbind in *. destruct (getrandbits k s) as [[r'| e |] s1]; [|done|done].
  apply IH; [lia|done|done].
Qed.

(** [randrange(start, stop)] raises [ValueError] when the range is empty
    ([stop <= start]) and otherwise keeps the generator invariant and
    returns an integer in [start, stop). *)
Lemma randrange_spec fuel start stop :
  (stop <= start -> forall s, randrange fuel start stop s = (Raise ValueError, s)) /\
  (start < stop -> inv_spec rs_wf (randrange fuel start stop) (fun x => start <= x < stop)).
Proof.
  unfold randrange. split.
  - intros Hle s. by destruct (Z.ltb_spec 0 (stop - start)); [lia|].
  - intros Hlt. destruct (Z.ltb_spec 0 (stop - start)); [|lia].
    inv_spec_call randbelow_spec. inv_spec_step. lia.
Qed.

End WithSource.

(** [random.seed(a)] for an [int] [a], on the module's generator. *)
Definition seed (a : Z) : PyM MT19937.state unit :=
  fun st => (Ret tt, MT19937.random_seed st a).

(** ** Witnesses, on the generator seeded with 42 *)

Lemma seeded_wf (a : Z) : rs_wf (MT19937.random_seed MT19937.fresh a).
Proof. apply MT19937.random_seed_wf, MT19937.fresh_arr_wf. Qed.

Lemma getrandbits_fast_path_witness :
  0 < 7 <= 32 /\
  getrandbits 7 (MT19937.random_seed MT19937.fresh 42) =
  getrandbits_words (Z.to_nat ((7 - 1) / 32 + 1)) 7 (MT19937.random_seed MT19937.fresh 42).
Proof. split; [lia|]. apply getrandbits_fast_path. lia. Defined.

Lemma random_lt_half_witness :
  rs_wf (MT19937.random_seed MT19937.fresh 42) /\
  exists q, (random (MT19937.random_seed MT19937.fresh 42)).1 = Ret q /\
    qlt q (1 # 2) = ((rs_next (MT19937.random_seed MT19937.fresh 42)).1 <? 2 ^ 31).
Proof. split; [apply seeded_wf|]. apply random_lt_half. apply seeded_wf. Defined.

End PyRandom.
