(* ===== verification/PySet.v ===== *)
(** * Python sets of integers

    The generator builds each clause in a Python [set] (line 7,
    [clause = set()]), adds literals with [clause.add(lit)] (line 12), tests
    [len(clause)] (line 8) and iterates over it in [" ".join(map(str, clause))]
    (line 13).  The order of the printed literals is the iteration order of
    CPython's hash table.

    The interface is the class [PySetOps] with its laws [PySetLaws]: what a
    client may rely on (the elements are distinct, adding inserts the element
    unless present, [len] counts the elements), for sets of fewer than
    [2^32] elements.  [ListSet] is the abstract set; [adds_spec] shows that
    an implementation whose [add] agrees with it up to order builds the same
    set from the same keys.

    The implementation [CPySet] is CPython's open-addressing table of
    Objects/setobject.c: [make_new_set], [set_add_entry] with its probe
    sequence (runs of [LINEAR_PROBES + 1] slots, then
    [i = (i*5 + 1 + perturb) & mask] with [perturb >>= 5]),
    [set_table_resize] and [set_insert_clean], and iteration in slot order,
    with [int.__hash__] of Objects/longobject.c.  Entries are never deleted
    here, so the table holds no dummy entries.  The proofs recast the probe
    loops as searches along [probe_seq], show that the sequence visits every
    slot, and keep the invariant [tbl_inv] (each key is the first stop of
    its own probe sequence), from which [cpyset_laws] and the refinement
    [cpyset_refines] follow.  Two bounds of the table are shown as well:
    every slot a probe reads is inside the table ([probe_in_table]), and
    the table stays under three fifths full ([set_load_factor]).  In the
    8-slot table of a clause, keys with distinct home slots are iterated in
    increasing order of home slot ([set_slot_order]). *)

From stdpp Require Import base list.
From Stdlib Require Import ZArith Lia Sorted.
From S2P Require Import Prelude.

(** ** The interface *)
Class PySetOps (T : Type) : Type := {
  set_empty : T;
  set_add : Z -> T -> T;
  set_elements : T -> list Z;
  set_len : T -> nat
}.

(** The laws bound the size of the set by [2^32] elements: CPython's table of
    [2^k] slots is indexed by 64-bit words, and the model of
    [set_table_resize] assumes its new size fits one. *)
Definition set_room (n : nat) : Prop := (Z.of_nat n < 2 ^ 32)%Z.

Class PySetLaws (T : Type) `{PySetOps T} (wf : T -> Prop) : Prop := {
  set_empty_wf : wf set_empty;
  set_add_wf : forall x s, wf s -> set_room (set_len s) -> wf (set_add x s);
  set_elements_empty : set_elements set_empty = [];
  set_elements_NoDup : forall s, wf s -> NoDup (set_elements s);
  set_elements_add : forall x s, wf s -> set_room (set_len s) ->
    set_elements (set_add x s) ≡ₚ
      (if decide (x ∈ set_elements s) then set_elements s else x :: set_elements s);
  set_len_elements : forall s, wf s -> set_len s = length (set_elements s)
}.

(** ** The abstract set

    The specification of a set of integers: a duplicate-free list, new
    elements in front.  It satisfies the laws, and the CPython table refines
    it up to the order of iteration. *)
Lemma set_room_small n : (n < 3)%nat -> set_room n.
Proof. unfold set_room. lia. Qed.

Module ListSet.
Definition t := list Z.

Definition add (x : Z) (s : t) : t := if decide (x ∈ s) then s else x :: s.

#[export] Instance ops : PySetOps t := {|
  set_empty := [];
  set_add := add;
  set_elements := fun s => s;
  set_len := fun s => length s
|}.

#[export] Instance laws : PySetLaws t NoDup.
Proof.
  split; cbn.
  - constructor.
  - intros x s Hs _. unfold add. case_decide; [done|by constructor].
  - done.
  - done.
  - intros x s Hs _. done.
  - done.
Qed.

(** Sets are equal up to the order of their elements. *)
#[global] Instance add_proper x : Proper ((≡ₚ) ==> (≡ₚ)) (add x).
Proof.
  intros s1 s2 Hs. unfold add.
  case_decide as H1; case_decide as H2; try by rewrite Hs.
  - rewrite Hs in H1. by destruct H2.
  - rewrite Hs in H1. by destruct H1.
Qed.

Lemma add_length x s : (length (add x s) <= S (length s))%nat.
Proof. unfold add. case_decide; cbn [length]; lia. Qed.
End ListSet.

(** ** Refinement of the abstract set

    An implementation whose [add] keeps its invariant and adds to its
    elements, up to order, what [ListSet.add] adds, builds from the keys
    [xs], added one by one, the abstract set of [xs] up to order. *)
Definition list_adds (l : list Z) (xs : list Z) : list Z := foldl (fun l x => ListSet.add x l) l xs.

#[global] Instance list_adds_proper : Proper ((≡ₚ) ==> eq ==> (≡ₚ)) list_adds.
Proof.
  intros l1 l2 Hl xs ? <-. revert l1 l2 Hl.
  induction xs as [|x xs IH]; intros l1 l2 Hl; [done|]. cbn. apply IH. by rewrite Hl.
Qed.

Lemma list_adds_length_mono l xs : (length l <= length (list_adds l xs))%nat.
Proof.
  revert l. induction xs as [|x xs IH]; intros l; [done|]. cbn.
  etrans; [|apply IH]. unfold ListSet.add. case_decide; cbn; lia.
Qed.

Section Refinement.
Context {T : Type} (add : Z -> T -> T) (elems : T -> list Z) (wf : T -> Prop).
Hypothesis add_spec : forall x s, wf s -> (Z.of_nat (length (elems s)) < 2 ^ 32)%Z ->
  wf (add x s) /\ elems (add x s) ≡ₚ ListSet.add x (elems s).

Lemma adds_spec xs s l :
  wf s -> elems s ≡ₚ l -> (Z.of_nat (length l + length xs) < 2 ^ 32)%Z ->
  wf (foldl (fun s x => add x s) s xs) /\ elems (foldl (fun s x => add x s) s xs) ≡ₚ list_adds l xs.
Proof.
  revert s l. induction xs as [|x xs IH]; intros s l Hs Hl Hroom; [done|].
  cbn [length] in Hroom. pose proof (ListSet.add_length x l).
  destruct (add_spec x s Hs) as [Hwf Hel]; [rewrite Hl; lia|].
  apply IH; [done| |lia]. by rewrite Hel, Hl.
Qed.
End Refinement.

(** ** CPython's table *)
Module CPySet.
Local Open Scope Z_scope.

(** [int.__hash__] on a 64-bit build: the value modulo [2^61 - 1] with the
    sign of the value, and [-1] (reserved for errors) mapped to [-2]. *)
Definition PyHASH_MODULUS : Z := 2 ^ 61 - 1.

Definition long_hash (v : Z) : Z :=
  let x := if v <? 0 then - ((- v) mod PyHASH_MODULUS) else v mod PyHASH_MODULUS in
  if x =? -1 then -2 else x.

Definition PySet_MINSIZE : Z := 8.
Definition LINEAR_PROBES : Z := 9.
Definition PERTURB_SHIFT : Z := 5.

(** A [size_t] value. *)
Definition size_t (z : Z) : Z := z mod 2 ^ 64.

(** [setentry]: an empty slot, or a key with its hash. *)
Notation entry := (option (Z * Z)) (only parsing).

(** [PySetObject]: [fill], [used], [mask] and [table]. *)
Record setobject : Type := mkSet {
  fill : Z;
  used : Z;
  mask : Z;
  table : list entry
}.

(** [make_new_set]: an empty table of [PySet_MINSIZE] slots. *)
Definition make_new_set : setobject :=
  mkSet 0 0 (PySet_MINSIZE - 1) (replicate (Z.to_nat PySet_MINSIZE) None).

Definition slot (tbl : list entry) (i : Z) : entry :=
  match tbl !! Z.to_nat i with Some e => e | None => None end.

(** Where a probe for a key stops: at a slot holding the key, or at an
    empty slot. *)
Inductive probe_stop : Type :=
  | Active (i : Z)
  | Unused (i : Z).

(** The inner [do { ... entry++; } while (probes--)] of [set_add_entry]:
    [cnt] more entries after this one. *)
Fixpoint scan (tbl : list entry) (key hash : Z) (cnt : nat) (j : Z) : option probe_stop :=
  match slot tbl j with
  | None => Some (Unused j)
  | Some (k, h) =>
      if (h =? hash) && (k =? key) then Some (Active j)
      else match cnt with
           | O => None
           | S c => scan tbl key hash c (j + 1)
           end
  end.

Definition probes_at (msk i : Z) : nat :=
  if i + LINEAR_PROBES <=? msk then Z.to_nat LINEAR_PROBES else 0%nat.

(** The outer [while (1)] loop; [fuel] bounds its iterations. *)
Fixpoint probe (fuel : nat) (tbl : list entry) (msk key hash i perturb : Z)
    : outcome probe_stop :=
  match fuel with
  | O => OutOfFuel
  | S f =>
      match scan tbl key hash (probes_at msk i) i with
      | Some r => Ret r
      | None =>
          let perturb := Z.shiftr perturb PERTURB_SHIFT in
          let i := Z.land (size_t (i * 5 + 1 + perturb)) msk in
          probe f tbl msk key hash i perturb
      end
  end.

(** Enough iterations of the probe loop for a table of [msk + 1] slots: the
    [perturb] of a 64-bit hash is [0] after 13 shifts, and from there the
    sequence [i -> 5 i + 1] visits every slot. *)
Definition probe_fuel (msk : Z) : nat := (14 + Z.to_nat (msk + 1))%nat.

Definition start_probe (tbl : list entry) (msk key hash : Z) : outcome probe_stop :=
  probe (probe_fuel msk) tbl msk key hash (Z.land (size_t hash) msk) (size_t hash).

(** [set_insert_clean]: the same probe sequence, stopping at the first empty
    slot. *)
Fixpoint scan_clean (tbl : list entry) (cnt : nat) (j : Z) : option Z :=
  match slot tbl j with
  | None => Some j
  | Some _ => match cnt with O => None | S c => scan_clean tbl c (j + 1) end
  end.

Fixpoint probe_clean (fuel : nat) (tbl : list entry) (msk i perturb : Z) : option Z :=
  match fuel with
  | O => None
  | S f =>
      match scan_clean tbl (probes_at msk i) i with
      | Some j => Some j
      | None =>
          let perturb := Z.shiftr perturb PERTURB_SHIFT in
          probe_clean f tbl msk (Z.land (size_t (i * 5 + 1 + perturb)) msk) perturb
      end
  end.

Definition set_insert_clean (tbl : list entry) (msk key hash : Z) : list entry :=
  match probe_clean (probe_fuel msk) tbl msk (Z.land (size_t hash) msk) (size_t hash) with
  | Some j => <[Z.to_nat j := Some (key, hash)]> tbl
  | None => tbl
  end.

(** [set_table_resize(so, minused)]: the smallest power of two above
    [minused], at least [PySet_MINSIZE]; the old entries are inserted in
    slot order. *)
Fixpoint grow_size (fuel : nat) (newsize minused : Z) : Z :=
  match fuel with
  | O => newsize
  | S f => if newsize <=? minused then grow_size f (Z.shiftl newsize 1) minused else newsize
  end.

(** The loop of [set_table_resize] over the old entries. *)
Definition reinsert (msk : Z) (tbl : list entry) (e : entry) : list entry :=
  match e with
  | Some (k, h) => set_insert_clean tbl msk k h
  | None => tbl
  end.

Definition set_table_resize (so : setobject) (minused : Z) : setobject :=
  let newsize := grow_size 64 PySet_MINSIZE minused in
  let newmask := newsize - 1 in
  let fresh := replicate (Z.to_nat newsize) None in
  let tbl := foldl (reinsert newmask) fresh (table so) in
  mkSet (used so) (used so) newmask tbl.

(** The [found_unused:] block of [set_add_entry]: the key fills the empty
    slot [j], and the table grows once it is three fifths full. *)
Definition found_unused (so : setobject) (j key hash : Z) : setobject :=
  let so := mkSet (fill so + 1) (used so + 1) (mask so)
                  (<[Z.to_nat j := Some (key, hash)]> (table so)) in
  if fill so * 5 <? mask so * 3 then so
  else set_table_resize so (if used so >? 50000 then used so * 2 else used so * 4).

(** [set_add_entry(so, key, hash)]. *)
Definition set_add_entry (so : setobject) (key : Z) : setobject :=
  let hash := long_hash key in
  match start_probe (table so) (mask so) key hash with
  | Ret (Unused j) => found_unused so j key hash
  | _ => so
  end.

(** Iteration ([set_next]) visits the slots in order. *)
Definition keys (tbl : list entry) : list Z :=
  omap (fun e => match e with Some (k, _) => Some k | None => None end) tbl.

Definition elements (so : setobject) : list Z := keys (table so).

#[export] Instance cpyset_ops : PySetOps setobject := {|
  set_empty := make_new_set;
  set_add := fun x s => set_add_entry s x;
  set_elements := elements;
  set_len := fun s => Z.to_nat (used s)
|}.

(** ** The probe sequence visits every slot

    After [perturb] is shifted out, the probe moves by [i -> 5 i + 1] modulo
    the table size [2^k].  That map has a single cycle through all [2^k]
    slots: [4 (5^t x + ...) + 1 = 5^t (4 x + 1)], and [5^(2^k)] is
    [1 + 2^(k+2)] times an odd number, so [2^k] steps move a slot by [2^k]
    modulo [2^(k+1)]. *)
Definition lcg (t : nat) (x : Z) : Z := Nat.iter t (fun i => 5 * i + 1) x.

Lemma lcg_succ t x : lcg (S t) x = 5 * lcg t x + 1.
Proof. reflexivity. Qed.

Lemma lcg_add t s x : lcg (t + s) x = lcg t (lcg s x).
Proof. apply Nat.iter_add. Qed.

Lemma lcg_closed t x : 4 * lcg t x + 1 = 5 ^ Z.of_nat t * (4 * x + 1).
Proof.
  induction t as [|t IH]; [simpl; lia|].
  rewrite lcg_succ, Nat2Z.inj_succ, Z.pow_succ_r by lia. lia.
Qed.

Lemma pow5_two_pow k :
  exists o, 5 ^ (2 ^ Z.of_nat k) = 1 + 4 * 2 ^ Z.of_nat k * (2 * o + 1).
Proof.
  induction k as [|k [o Ho]]; [exists 0; reflexivity|].
  exists (o + 2 ^ Z.of_nat k * (2 * o + 1) ^ 2).
  rewrite Nat2Z.inj_succ, Z.pow_succ_r, Z.mul_comm, Z.pow_mul_r, Ho by lia.
  ring.
Qed.

(** [2^k] steps move a slot by an odd multiple of [2^k]. *)
Lemma lcg_lift k a : exists e, lcg (2 ^ k) a = a + 2 ^ Z.of_nat k + 2 ^ Z.of_nat (S k) * e.
Proof.
  destruct (pow5_two_pow k) as [o Ho].
  pose proof (lcg_closed (2 ^ k) a) as Hc. rewrite Nat2Z.inj_pow in Hc. change (Z.of_nat 2) with 2 in Hc. rewrite Ho in Hc.
  exists (4 * o * a + o + 2 * a). rewrite Nat2Z.inj_succ, Z.pow_succ_r by lia. nia.
Qed.

Lemma lcg_cover k x y : exists t, (t < 2 ^ k)%nat /\ (2 ^ Z.of_nat k | lcg t x - y).
Proof.
  induction k as [|k [t [Ht [c Hcy]]]].
  - exists 0%nat. split; [simpl; lia|]. apply Z.divide_1_l.
  - destruct (Z.Even_or_Odd c) as [[d ->]|[d ->]].
    + exists t. split; [rewrite Nat.pow_succ_r'; lia|].
      exists d. rewrite Nat2Z.inj_succ, Z.pow_succ_r by lia. lia.
    + destruct (lcg_lift k (lcg t x)) as [e He].
      exists (2 ^ k + t)%nat. split; [rewrite Nat.pow_succ_r'; lia|].
      rewrite lcg_add, He. exists (d + 1 + e).
      rewrite Nat2Z.inj_succ, Z.pow_succ_r in * by lia. lia.
Qed.

Lemma lcg_mod t x m : 0 < m -> lcg t x mod m = lcg t (x mod m) mod m.
Proof.
  intros Hm. induction t as [|t IH]; [simpl; by rewrite Zmod_mod|].
  rewrite !lcg_succ, Z.add_mod, Z.mul_mod, IH, <- Z.mul_mod, <- Z.add_mod by lia.
  done.
Qed.

(** *** The probe loops as a search along a sequence of slots

    [run cnt j] is the slots [j .. j + cnt] one pass of the inner loop looks
    at; [probe_seq] chains the passes exactly as [probe] moves [i] and
    [perturb].  The loops of [set_add_entry] and [set_insert_clean] are then
    searches along the same sequence. *)
Fixpoint run (cnt : nat) (j : Z) : list Z :=
  j :: match cnt with O => [] | S c => run c (j + 1) end.

Fixpoint probe_seq (fuel : nat) (msk i perturb : Z) : list Z :=
  match fuel with
  | O => []
  | S f =>
      run (probes_at msk i) i ++
      (let perturb := Z.shiftr perturb PERTURB_SHIFT in
       probe_seq f msk (Z.land (size_t (i * 5 + 1 + perturb)) msk) perturb)
  end.

(** The sequence a key of hash [h] follows. *)
Definition hash_seq (msk h : Z) : list Z :=
  probe_seq (probe_fuel msk) msk (Z.land (size_t h) msk) (size_t h).

Definition stops (tbl : list entry) (key hash j : Z) : bool :=
  match slot tbl j with
  | None => true
  | Some (k, h) => (h =? hash) && (k =? key)
  end.

Definition is_empty (tbl : list entry) (j : Z) : bool :=
  match slot tbl j with None => true | Some _ => false end.

Definition classify (tbl : list entry) (j : Z) : probe_stop :=
  match slot tbl j with None => Unused j | Some _ => Active j end.

Lemma scan_find tbl key hash cnt j :
  scan tbl key hash cnt j = option_map (classify tbl) (find (stops tbl key hash) (run cnt j)).
Proof.
  revert j. induction cnt as [|c IH]; intros j; cbn [scan run find];
    unfold stops at 1, classify at 1; destruct (slot tbl j) as [[k h]|] eqn:E;
    try (destruct ((h =? hash) && (k =? key))); cbn; rewrite ?E; done.
Qed.

Lemma probe_find fuel tbl msk key hash i perturb :
  probe fuel tbl msk key hash i perturb =
  match find (stops tbl key hash) (probe_seq fuel msk i perturb) with
  | Some j => Ret (classify tbl j)
  | None => OutOfFuel
  end.
Proof.
  revert i perturb. induction fuel as [|f IH]; intros i perturb; [done|].
  cbn [probe probe_seq]. rewrite scan_find, find_app, IH.
  by destruct (find _ (run _ _)).
Qed.

Lemma start_probe_find tbl msk key hash :
  start_probe tbl msk key hash =
  match find (stops tbl key hash) (hash_seq msk hash) with
  | Some j => Ret (classify tbl j)
  | None => OutOfFuel
  end.
Proof. apply probe_find. Qed.

Lemma scan_clean_find tbl cnt j : scan_clean tbl cnt j = find (is_empty tbl) (run cnt j).
Proof.
  revert j. induction cnt as [|c IH]; intros j; cbn [scan_clean run find];
    unfold is_empty; destruct (slot tbl j); done.
Qed.

Lemma probe_clean_find fuel tbl msk i perturb :
  probe_clean fuel tbl msk i perturb = find (is_empty tbl) (probe_seq fuel msk i perturb).
Proof.
  revert i perturb. induction fuel as [|f IH]; intros i perturb; [done|].
  cbn [probe_clean probe_seq]. by rewrite scan_clean_find, find_app, IH.
Qed.

(** Every slot of the sequence is a slot of the table. *)
Lemma run_range cnt j z : In z (run cnt j) -> j <= z <= j + Z.of_nat cnt.
Proof.
  revert j. induction cnt as [|c IH]; intros j; cbn [run In].
  - intros [->|[]]. lia.
  - intros [->|Hz]; [lia|]. apply IH in Hz. lia.
Qed.

Lemma land_mask_range a msk : 0 <= msk -> 0 <= Z.land (size_t a) msk <= msk.
Proof.
  intros Hm. assert (0 <= size_t a) by (apply Z.mod_pos_bound; lia).
  assert (0 <= Z.land (size_t a) msk) by (apply Z.land_nonneg; lia). split; [done|].
  rewrite <- (Z2N.id (size_t a)), <- (Z2N.id msk), <- N2Z.inj_land by done.
  apply N2Z.inj_le, N.land_le_r.
Qed.

Lemma probe_seq_range fuel msk i perturb z :
  0 <= i <= msk -> In z (probe_seq fuel msk i perturb) -> 0 <= z <= msk.
Proof.
  revert i perturb. induction fuel as [|f IH]; intros i perturb Hi; [done|].
  cbn [probe_seq]. rewrite in_app_iff. intros [Hz|Hz].
  - apply run_range in Hz. unfold probes_at, LINEAR_PROBES in Hz.
    destruct (Z.leb_spec (i + 9) msk); cbn in Hz; lia.
  - eapply IH; [|exact Hz]. apply land_mask_range. lia.
Qed.

Lemma hash_seq_range msk h z : 0 <= msk -> In z (hash_seq msk h) -> 0 <= z <= msk.
Proof. intros Hm. apply probe_seq_range. by apply land_mask_range. Qed.

(** The first slot of the [n]-th pass. *)
Fixpoint idx (n : nat) (msk i perturb : Z) : Z :=
  match n with
  | O => i
  | S n =>
      let perturb := Z.shiftr perturb PERTURB_SHIFT in
      idx n msk (Z.land (size_t (i * 5 + 1 + perturb)) msk) perturb
  end.

Lemma idx_in_seq fuel n msk i perturb :
  (n < fuel)%nat -> In (idx n msk i perturb) (probe_seq fuel msk i perturb).
Proof.
  revert n i perturb. induction fuel as [|f IH]; intros n i perturb Hn; [lia|].
  cbn [probe_seq]. apply in_app_iff. destruct n as [|n]; cbn [idx].
  - left. destruct (probes_at msk i); by left.
  - right. apply IH. lia.
Qed.

Lemma idx_add a b msk i perturb :
  idx (a + b) msk i perturb = idx b msk (idx a msk i perturb) (Z.shiftr perturb (5 * Z.of_nat a)).
Proof.
  revert i perturb. induction a as [|a IH]; intros i perturb; [by rewrite Z.shiftr_0_r|].
  cbn [Nat.add idx]. rewrite IH, Z.shiftr_shiftr by lia. unfold PERTURB_SHIFT.
  do 3 f_equal. lia.
Qed.

Lemma idx_range n msk i perturb : 0 <= msk -> 0 <= i <= msk -> 0 <= idx n msk i perturb <= msk.
Proof.
  revert i perturb. induction n as [|n IH]; intros i perturb Hm Hi; [done|].
  cbn [idx]. apply IH; [done|]. by apply land_mask_range.
Qed.

Lemma size_t_mask k a :
  (k <= 64)%nat -> Z.land (size_t a) (2 ^ Z.of_nat k - 1) = a mod 2 ^ Z.of_nat k.
Proof.
  intros Hk. replace (2 ^ Z.of_nat k - 1) with (Z.ones (Z.of_nat k))
    by (rewrite Z.ones_equiv; lia).
  rewrite Z.land_ones by lia. unfold size_t.
  apply Z.mod_mod_divide.
  exists (2 ^ (64 - Z.of_nat k)). rewrite <- Z.pow_add_r by lia. f_equal. lia.
Qed.

(** Once [perturb] is zero, the passes start at the slots of the cycle of
    [i -> 5 i + 1]. *)
Lemma idx_lcg k t i :
  (k <= 64)%nat -> 0 <= i < 2 ^ Z.of_nat k ->
  idx t (2 ^ Z.of_nat k - 1) i 0 = lcg t i mod 2 ^ Z.of_nat k.
Proof.
  intros Hk. revert i. induction t as [|t IH]; intros i Hi.
  - symmetry. by apply Z.mod_small.
  - cbn [idx]. rewrite Z.shiftr_0_l, Z.add_0_r, size_t_mask, IH by
      (done || apply Z.mod_pos_bound; lia).
    rewrite <- lcg_mod by lia. replace (S t) with (t + 1)%nat by lia.
    rewrite (lcg_add t 1). do 2 f_equal. simpl. lia.
Qed.

Lemma pow2_to_nat k : Z.to_nat (2 ^ Z.of_nat k) = (2 ^ k)%nat.
Proof.
  rewrite <- Nat2Z.id. f_equal. rewrite Nat2Z.inj_pow. reflexivity.
Qed.

Lemma perturb_spent p : 0 <= p < 2 ^ 64 -> Z.shiftr p (5 * Z.of_nat 13) = 0.
Proof.
  intros Hp. rewrite Z.shiftr_div_pow2 by lia. apply Z.div_small.
  split; [lia|]. apply (Z.lt_le_trans _ (2 ^ 64)); [lia|]. apply Z.pow_le_mono_r; lia.
Qed.

(** In a table of [2^k] slots ([k <= 64]), the passes of the probe loop
    started from any slot with any 64-bit [perturb] look at every slot within
    [probe_fuel] passes. *)
Lemma probe_visits_all_slots k i p y :
  (k <= 64)%nat -> 0 <= i < 2 ^ Z.of_nat k -> 0 <= p < 2 ^ 64 -> 0 <= y < 2 ^ Z.of_nat k ->
  In y (probe_seq (probe_fuel (2 ^ Z.of_nat k - 1)) (2 ^ Z.of_nat k - 1) i p).
Proof.
  intros Hk Hi Hp Hy. set (i13 := idx 13 (2 ^ Z.of_nat k - 1) i p).
  assert (0 <= i13 <= 2 ^ Z.of_nat k - 1) by (apply idx_range; lia).
  destruct (lcg_cover k i13 y) as [t [Ht [c Hc]]].
  assert (idx (13 + t) (2 ^ Z.of_nat k - 1) i p = y) as <-.
  { rewrite idx_add, perturb_spent by lia. fold i13. rewrite idx_lcg by lia.
    replace (lcg t i13) with (y + c * 2 ^ Z.of_nat k) by lia.
    rewrite Z.mod_add, Z.mod_small by lia. done. }
  apply idx_in_seq. unfold probe_fuel. rewrite Z.sub_add, pow2_to_nat. lia.
Qed.

(** *** The invariant of the table

    Every entry holds the hash of its key, and the search for its key along
    the key's probe sequence stops at the entry: every slot before it on the
    sequence holds another key.  This is what [set_add_entry] relies on to
    find a key that is present, and what it keeps when it fills the first
    empty slot of an absent key. *)
Definition tbl_inv (msk : Z) (tbl : list entry) : Prop :=
  forall j x h, tbl !! j = Some (Some (x, h)) ->
    h = long_hash x /\ find (stops tbl x h) (hash_seq msk h) = Some (Z.of_nat j).

Lemma slot_of_nat tbl j : slot tbl (Z.of_nat j) = match tbl !! j with Some e => e | None => None end.
Proof. unfold slot. by rewrite Nat2Z.id. Qed.

Lemma slot_insert_ne tbl j0 z e :
  0 <= z -> 0 <= j0 -> z <> j0 -> slot (<[Z.to_nat j0 := e]> tbl) z = slot tbl z.
Proof. intros. unfold slot. rewrite list_lookup_insert_ne by lia. done. Qed.

Lemma slot_insert_eq tbl j0 e :
  (Z.to_nat j0 < length tbl)%nat -> slot (<[Z.to_nat j0 := e]> tbl) j0 = e.
Proof. intros. unfold slot. by rewrite list_lookup_insert_eq. Qed.

Lemma elem_of_keys x tbl : x ∈ keys tbl <-> exists j h, tbl !! j = Some (Some (x, h)).
Proof.
  unfold keys. rewrite list_elem_of_omap. split.
  - intros [[[k h]|] [He Hk]]; [|done]. injection Hk as ->.
    apply list_elem_of_lookup in He as [j Hj]. eauto.
  - intros (j & h & Hj). exists (Some (x, h)). split; [|done].
    by eapply list_elem_of_lookup_2.
Qed.

Lemma keys_cons e tbl :
  keys (e :: tbl) = match e with Some (k, _) => k :: keys tbl | None => keys tbl end.
Proof. by destruct e as [[k h]|]. Qed.

Lemma keys_insert_empty tbl j e :
  tbl !! j = Some None ->
  keys (<[j := e]> tbl) ≡ₚ (match e with Some (k, _) => [k] | None => [] end) ++ keys tbl.
Proof.
  revert j. induction tbl as [|e0 tbl IH]; intros [|j] Hj; try done; cbn in Hj.
  - injection Hj as ->. change (<[0%nat := e]> (None :: tbl)) with (e :: tbl).
    rewrite !keys_cons. by destruct e as [[k h]|].
  - change (<[S j := e]> (e0 :: tbl)) with (e0 :: <[j := e]> tbl).
    rewrite !keys_cons.
    destruct e0 as [[k0 h0]|]; rewrite (IH j Hj); [|done].
    destruct e as [[k h]|]; [apply perm_swap|done].
Qed.

Lemma keys_short_empty tbl :
  (length (keys tbl) < length tbl)%nat -> exists j, tbl !! j = Some None.
Proof.
  induction tbl as [|e tbl IH]; cbn [length]; [lia|]. rewrite keys_cons.
  destruct e as [[k h]|]; cbn [length].
  - intros Hl. destruct IH as [j Hj]; [lia|]. by exists (S j).
  - intros _. by exists 0%nat.
Qed.

Lemma keys_NoDup tbl :
  (forall j1 j2 x h1 h2, tbl !! j1 = Some (Some (x, h1)) -> tbl !! j2 = Some (Some (x, h2)) ->
    j1 = j2) ->
  NoDup (keys tbl).
Proof.
  induction tbl as [|e tbl IH]; intros Huniq; [constructor|]. rewrite keys_cons.
  assert (NoDup (keys tbl)) as Hnd by (apply IH; intros j1 j2 x h1 h2 H1 H2;
    enough (S j1 = S j2) by lia; by eapply Huniq).
  destruct e as [[k h]|]; [|done]. constructor; [|done].
  intros (j & h' & Hj)%elem_of_keys.
  enough (0%nat = S j) by lia. by eapply (Huniq 0%nat (S j)).
Qed.

Section TableInv.
Context (msk : Z) (tbl : list entry) (Hinv : tbl_inv msk tbl).

Lemma tbl_inv_NoDup : NoDup (keys tbl).
Proof.
  apply keys_NoDup. intros j1 j2 x h1 h2 H1 H2.
  destruct (Hinv _ _ _ H1) as [-> F1], (Hinv _ _ _ H2) as [-> F2].
  rewrite F1 in F2. injection F2. lia.
Qed.

Lemma tbl_inv_present j x h :
  tbl !! j = Some (Some (x, h)) ->
  start_probe tbl msk x (long_hash x) = Ret (Active (Z.of_nat j)).
Proof.
  intros Hj. destruct (Hinv _ _ _ Hj) as [-> F].
  rewrite start_probe_find, F. unfold classify. by rewrite slot_of_nat, Hj.
Qed.

Lemma absent_stops x z :
  x ∉ keys tbl -> stops tbl x (long_hash x) z = is_empty tbl z.
Proof.
  intros Hx. unfold stops, is_empty, slot.
  destruct (tbl !! Z.to_nat z) as [[[k h]|]|] eqn:E; [|done|done].
  destruct (Hinv _ _ _ E) as [-> _].
  destruct (Z.eqb_spec k x) as [->|]; [|by rewrite andb_false_r].
  destruct Hx. apply elem_of_keys. eauto.
Qed.
(** The search for an empty slot along any hash's sequence succeeds when the
    table of [2^k] slots has one, and lands on a slot of the table. *)
Lemma find_empty_slot k h :
  (k <= 64)%nat -> length tbl = (2 ^ k)%nat -> msk = 2 ^ Z.of_nat k - 1 ->
  (exists j, tbl !! j = Some None) ->
  exists j0, find (is_empty tbl) (hash_seq msk h) = Some j0 /\ 0 <= j0 <= msk /\
    tbl !! Z.to_nat j0 = Some None.
Proof.
  intros Hk Hlen -> [j Hj].
  assert (In (Z.of_nat j) (hash_seq (2 ^ Z.of_nat k - 1) h)) as Hin.
  { apply probe_visits_all_slots; [done| |unfold size_t; apply Z.mod_pos_bound; lia|].
    - pose proof (land_mask_range h (2 ^ Z.of_nat k - 1)). lia.
    - apply lookup_lt_Some in Hj. rewrite Hlen in Hj.
      rewrite <- pow2_to_nat in Hj. lia. }
  destruct (find_exists (is_empty tbl) _ _ Hin) as (j0 & Hf & Hin0 & He0).
  { unfold is_empty. by rewrite slot_of_nat, Hj. }
  exists j0. split; [done|]. apply hash_seq_range in Hin0; [|lia]. split; [done|].
  unfold is_empty, slot in He0. destruct (tbl !! Z.to_nat j0) as [[e|]|] eqn:E; [done|done|].
  apply lookup_ge_None in E. rewrite Hlen, <- pow2_to_nat in E. lia.
Qed.

(** For an absent key, the probe stops at the first empty slot. *)
Lemma absent_probe x j0 :
  x ∉ keys tbl -> find (is_empty tbl) (hash_seq msk (long_hash x)) = Some j0 ->
  tbl !! Z.to_nat j0 = Some None ->
  start_probe tbl msk x (long_hash x) = Ret (Unused j0).
Proof.
  intros Hx Hf Hj0. rewrite start_probe_find,
    (find_ext (stops tbl x (long_hash x)) (is_empty tbl)), Hf by (intros; by apply absent_stops).
  unfold classify, slot. by rewrite Hj0.
Qed.

(** Filling the first empty slot of an absent key's sequence keeps the
    invariant: this is the insertion of [set_add_entry] and of
    [set_insert_clean]. *)
Lemma tbl_inv_insert x j0 :
  0 <= msk -> x ∉ keys tbl ->
  find (is_empty tbl) (hash_seq msk (long_hash x)) = Some j0 -> tbl !! Z.to_nat j0 = Some None ->
  tbl_inv msk (<[Z.to_nat j0 := Some (x, long_hash x)]> tbl).
Proof.
  intros Hm Hx Hf Hj0.
  assert (0 <= j0) by (apply find_some in Hf as [Hin _]; apply hash_seq_range in Hin; lia).
  assert (slot tbl j0 = None) as Hs0 by (unfold slot; by rewrite Hj0).
  assert (Z.to_nat j0 < length tbl)%nat by (by apply lookup_lt_Some in Hj0).
  (* a slot the old table fills is not [j0], and keeps its entry *)
  assert (forall y h z, In z (hash_seq msk h) -> stops tbl y h z = false ->
            stops (<[Z.to_nat j0 := Some (x, long_hash x)]> tbl) y h z = false) as Hkeep.
  { intros y h z Hin Hz. apply hash_seq_range in Hin; [|done].
    assert (z <> j0) by (intros ->; unfold stops in Hz; by rewrite Hs0 in Hz).
    unfold stops in *. by rewrite slot_insert_ne by lia. }
  intros j y h Hj. destruct (decide (j = Z.to_nat j0)) as [->|Hne].
  - rewrite list_lookup_insert_eq in Hj by done. injection Hj as <- <-. split; [done|].
    rewrite Z2Nat.id by done. eapply find_mono; [|by apply Hkeep|].
    + rewrite <- Hf. apply find_ext. intros z _. by apply absent_stops.
    + unfold stops. rewrite slot_insert_eq by done. by rewrite !Z.eqb_refl.
  - rewrite list_lookup_insert_ne in Hj by done.
    destruct (Hinv _ _ _ Hj) as [Hh F]. split; [done|].
    eapply find_mono; [exact F|by apply Hkeep|].
    unfold stops. rewrite slot_insert_ne by lia. rewrite slot_of_nat, Hj.
    by rewrite !Z.eqb_refl.
Qed.

End TableInv.

(** *** Resizing *)
Lemma grow_size_spec fuel k m :
  0 <= m < 2 ^ Z.of_nat (k + fuel) ->
  exists k', (k <= k')%nat /\ grow_size fuel (2 ^ Z.of_nat k) m = 2 ^ Z.of_nat k' /\
    m < 2 ^ Z.of_nat k' /\ (k' = k \/ 2 ^ Z.of_nat k' <= 2 * m).
Proof.
  revert k. induction fuel as [|f IH]; intros k Hm; cbn [grow_size].
  - exists k. rewrite Nat.add_0_r in Hm. split_and!; auto; lia.
  - destruct (Z.leb_spec (2 ^ Z.of_nat k) m) as [Hle|Hlt]; [|exists k; split_and!; auto; lia].
    replace (Z.shiftl (2 ^ Z.of_nat k) 1) with (2 ^ Z.of_nat (S k))
      by (rewrite Z.shiftl_mul_pow2, Nat2Z.inj_succ, Z.pow_succ_r by lia; lia).
    destruct (IH (S k)) as (k' & Hk' & -> & Hlt & Hor); [by replace (S k + f)%nat with (k + S f)%nat by lia|].
    exists k'. split_and!; [lia|done|done|]. right.
    destruct Hor as [->|]; [|done]. rewrite Nat2Z.inj_succ, Z.pow_succ_r by lia. lia.
Qed.

Lemma keys_replicate_None n : keys (replicate n None) = [].
Proof. induction n as [|n IH]; [done|]. cbn [replicate]. by rewrite keys_cons. Qed.

Lemma tbl_inv_fresh msk n : tbl_inv msk (replicate n None).
Proof. intros j x h Hj. apply lookup_replicate in Hj as [? _]. done. Qed.

(** The entries of a table with the invariant hold the hashes of their keys. *)
Definition hashes_ok (es : list entry) : Prop :=
  Forall (fun e => match e with Some (x, h) => h = long_hash x | None => True end) es.

Lemma tbl_inv_hashes_ok msk tbl : tbl_inv msk tbl -> hashes_ok tbl.
Proof.
  intros Hinv. apply Forall_lookup. intros j [[x h]|] Hj; [|done].
  by destruct (Hinv _ _ _ Hj).
Qed.

(** The loop of [set_table_resize] puts every old entry in the new table,
    keeping the invariant, while the new table has room. *)
Lemma resize_fold k es tbl :
  (k <= 64)%nat -> length tbl = (2 ^ k)%nat -> tbl_inv (2 ^ Z.of_nat k - 1) tbl ->
  NoDup (keys es ++ keys tbl) -> hashes_ok es ->
  (length (keys es) + length (keys tbl) < 2 ^ k)%nat ->
  let r := foldl (reinsert (2 ^ Z.of_nat k - 1)) tbl es in
  length r = (2 ^ k)%nat /\ tbl_inv (2 ^ Z.of_nat k - 1) r /\ keys r ≡ₚ keys es ++ keys tbl.
Proof.
  revert tbl. induction es as [|e es IH]; intros tbl Hk Hlen Hinv Hnd Hh Hroom; [done|].
  cbn [foldl]. inversion Hh as [|? ? He Hh']; subst.
  rewrite keys_cons in Hnd, Hroom |- *. destruct e as [[x h]|]; [|by apply IH].
  subst h. cbn [length app] in Hnd, Hroom.
  assert (x ∉ keys tbl) as Hx
    by (apply NoDup_cons_1_1 in Hnd; rewrite elem_of_app in Hnd; tauto).
  destruct (find_empty_slot _ tbl Hinv k (long_hash x)) as (j0 & Hf & Hr & Hj0); [done|done|done| |].
  { apply keys_short_empty. lia. }
  assert (reinsert (2 ^ Z.of_nat k - 1) tbl (Some (x, long_hash x)) =
          <[Z.to_nat j0 := Some (x, long_hash x)]> tbl) as ->.
  { unfold reinsert, set_insert_clean. rewrite probe_clean_find. unfold hash_seq in Hf. by rewrite Hf. }
  pose proof (keys_insert_empty tbl _ (Some (x, long_hash x)) Hj0) as Hk0. cbn [app] in Hk0.
  destruct (IH (<[Z.to_nat j0 := Some (x, long_hash x)]> tbl)) as (Hl & Hi & Hp).
  - done.
  - by rewrite length_insert.
  - apply tbl_inv_insert; [done|lia|done|done|done].
  - by rewrite Hk0, <- Permutation_middle.
  - done.
  - rewrite Hk0. cbn [length]. lia.
  - split_and!; [done|done|]. rewrite Hp, Hk0. cbn [app]. symmetry. apply Permutation_middle.
Qed.

Lemma pow2_nat_lt (n k : nat) : (Z.of_nat n < 2 ^ Z.of_nat k)%Z -> (n < 2 ^ k)%nat.
Proof. intros H. rewrite <- pow2_to_nat. lia. Qed.

(** *** The set invariant

    A table of [2^k] slots ([3 <= k <= 40]) with the invariant of the
    probe sequences, [fill = used] (no dummies), [used] its number of keys,
    and at least one empty slot. *)
Definition set_wf (so : setobject) : Prop :=
  exists k : nat, (3 <= k <= 40)%nat /\ mask so = 2 ^ Z.of_nat k - 1 /\
    length (table so) = (2 ^ k)%nat /\ tbl_inv (mask so) (table so) /\
    fill so = used so /\ used so = Z.of_nat (length (keys (table so))) /\
    used so < 2 ^ Z.of_nat k.

Lemma set_table_resize_spec so minused :
  tbl_inv (mask so) (table so) -> used so = Z.of_nat (length (keys (table so))) ->
  used so <= minused < 2 ^ 34 ->
  set_wf (set_table_resize so minused) /\ elements (set_table_resize so minused) ≡ₚ elements so.
Proof.
  intros Hinv Hused Hmin.
  destruct (grow_size_spec 64 3 minused) as (k & Hk3 & Hg & Hlt & Hor).
  { split; [lia|]. apply (Z.lt_trans _ (2 ^ 34)); [lia|]. apply Z.pow_lt_mono_r; lia. }
  assert (k <= 35)%nat.
  { destruct Hor as [->|Hle]; [lia|]. destruct (Nat.le_gt_cases k 35) as [|Hgt]; [done|].
    enough (2 ^ 36 <= 2 ^ Z.of_nat k) by lia. apply Z.pow_le_mono_r; lia. }
  unfold set_table_resize. change PySet_MINSIZE with (2 ^ Z.of_nat 3). rewrite Hg.
  destruct (resize_fold k (table so) (replicate (Z.to_nat (2 ^ Z.of_nat k)) None))
    as (Hl & Hi & Hp).
  - lia.
  - by rewrite length_replicate, pow2_to_nat.
  - apply tbl_inv_fresh.
  - rewrite keys_replicate_None, app_nil_r. by eapply tbl_inv_NoDup.
  - by eapply tbl_inv_hashes_ok.
  - rewrite keys_replicate_None. cbn [length]. apply pow2_nat_lt. lia.
  - rewrite keys_replicate_None, app_nil_r in Hp. split; [|done].
    exists k. cbn [mask table fill used]. split_and!; try done; try lia.
    by rewrite Hp, <- Hused.
Qed.

(** [set_add_entry] on a key already present finds it and changes
    nothing. *)
Lemma set_add_entry_present so x :
  set_wf so -> x ∈ elements so -> set_add_entry so x = so.
Proof.
  intros (k & _ & _ & _ & Hinv & _) (j & h & Hj)%elem_of_keys.
  unfold set_add_entry. by rewrite (tbl_inv_present _ _ Hinv j x h Hj).
Qed.

(** On an absent key, the probe stops at the first empty slot of its
    sequence, which exists. *)
Lemma set_add_entry_absent so x :
  set_wf so -> x ∉ elements so ->
  exists j0, find (is_empty (table so)) (hash_seq (mask so) (long_hash x)) = Some j0 /\
    table so !! Z.to_nat j0 = Some None /\
    set_add_entry so x = found_unused so j0 x (long_hash x).
Proof.
  intros (k & Hk & Hm & Hlen & Hinv & Hfill & Hused & Hlt) Hx.
  destruct (find_empty_slot _ _ Hinv k (long_hash x)) as (j0 & Hf & Hr & Hj0);
    [lia|done|done| |].
  { apply keys_short_empty. rewrite Hlen. apply pow2_nat_lt. lia. }
  exists j0. split_and!; [done|done|]. unfold set_add_entry, elements in *.
  by rewrite (absent_probe _ _ Hinv x j0 Hx Hf Hj0).
Qed.


Lemma make_new_set_wf : set_wf make_new_set.
Proof. exists 3%nat. cbn. split_and!; try done; try lia. apply tbl_inv_fresh. Qed.

(** C6: Termination of the probe loop of [set_add_entry]: on a well-formed
    table, the search for any key stops, at the key or at an empty slot,
    within the [probe_fuel] passes the model allows. *)
Theorem set_add_entry_probe_terminates so x :
  set_wf so ->
  exists j, start_probe (table so) (mask so) x (long_hash x) = Ret (Active j) /\
              slot (table so) j = Some (x, long_hash x)
         \/ start_probe (table so) (mask so) x (long_hash x) = Ret (Unused j) /\
              slot (table so) j = None.
Proof.
  intros Hwf. destruct (decide (x ∈ elements so)) as [Hx|Hx].
  - destruct Hwf as (k & _ & _ & _ & Hinv & _). apply elem_of_keys in Hx as (j & h & Hj).
    exists (Z.of_nat j). left. rewrite (tbl_inv_present _ _ Hinv j x h Hj).
    split; [done|]. rewrite slot_of_nat, Hj. by destruct (Hinv _ _ _ Hj) as [-> _].
  - destruct (set_add_entry_absent so x Hwf Hx) as (j0 & Hf & Hj0 & _).
    destruct Hwf as (k & _ & _ & _ & Hinv & _).
    exists j0. right. rewrite (absent_probe _ _ Hinv x j0 Hx Hf Hj0).
    split; [done|]. unfold slot. by rewrite Hj0.
Qed.

Lemma set_add_entry_spec x so :
  set_wf so -> Z.of_nat (length (elements so)) < 2 ^ 32 ->
  set_wf (set_add_entry so x) /\ elements (set_add_entry so x) ≡ₚ ListSet.add x (elements so).
Proof.
  intros Hwf Hroom. unfold ListSet.add. case_decide as Hx.
  { by rewrite set_add_entry_present. }
  destruct (set_add_entry_absent so x Hwf Hx) as (j0 & Hf & Hj0 & ->). unfold found_unused.
  destruct Hwf as (k & Hk & Hm & Hlen & Hinv & Hfill & Hused & Hlt). unfold elements in *.
  pose proof (keys_insert_empty _ _ (Some (x, long_hash x)) Hj0) as Hkeys. cbn [app] in Hkeys.
  assert (tbl_inv (mask so) (<[Z.to_nat j0 := Some (x, long_hash x)]> (table so))) as Hinv'.
  { apply tbl_inv_insert; [done|lia|done|done|done]. }
  cbv zeta. cbn [fill used mask table]. destruct (Z.ltb_spec ((fill so + 1) * 5) (mask so * 3)).
  - split; [|done]. exists k. cbn [fill used mask table].
    rewrite length_insert, Hkeys. cbn [length]. split_and!; try done; lia.
  - match goal with |- context [set_table_resize ?so' ?mu] =>
      destruct (set_table_resize_spec so' mu) as [Hwf' Hel] end; cbn [fill used mask table].
    + done.
    + rewrite Hkeys. cbn [length]. lia.
    + destruct (Z.gtb_spec (used so + 1) 50000); lia.
    + split; [done|]. rewrite Hel. apply Hkeys.
Qed.

(** C5: Refinement: adding the keys [xs] one by one to CPython's empty
    table gives, up to the order of iteration, the abstract set of [xs]. *)
Theorem cpyset_refines xs :
  (Z.of_nat (length xs) < 2 ^ 32)%Z ->
  elements (foldl set_add_entry make_new_set xs) ≡ₚ list_adds [] xs.
Proof.
  intros Hxs.
  destruct (adds_spec (fun x s => set_add_entry s x) elements set_wf set_add_entry_spec
              xs make_new_set []) as [_ Hel]; [apply make_new_set_wf|done|done|exact Hel].
Qed.

(** The table [set_table_resize] builds has more than [minused] slots, and
    its [fill] is the number of keys. *)
Lemma set_table_resize_shape so minused :
  0 <= minused < 2 ^ 34 ->
  fill (set_table_resize so minused) = used so /\ minused < mask (set_table_resize so minused) + 1.
Proof.
  intros Hmin. destruct (grow_size_spec 64 3 minused) as (k & _ & Hg & Hlt & _).
  { split; [lia|]. apply (Z.lt_trans _ (2 ^ 34)); [lia|]. apply Z.pow_lt_mono_r; lia. }
  unfold set_table_resize. change PySet_MINSIZE with (2 ^ Z.of_nat 3). rewrite Hg. cbn. lia.
Qed.

(** [set_add_entry] keeps the table less than three fifths full: an insert
    that would reach that load resizes to at least twice (four times, for
    small sets) the number of keys. *)
Lemma set_add_entry_load so x :
  set_wf so -> Z.of_nat (length (elements so)) < 2 ^ 32 -> fill so * 5 < mask so * 3 ->
  fill (set_add_entry so x) * 5 < mask (set_add_entry so x) * 3.
Proof.
  intros Hwf Hroom Hload. destruct (decide (x ∈ elements so)) as [Hx|Hx].
  { by rewrite set_add_entry_present. }
  destruct (set_add_entry_absent so x Hwf Hx) as (j0 & _ & _ & ->). unfold found_unused.
  destruct Hwf as (k & _ & _ & _ & _ & Hfill & Hused & _). unfold elements in Hroom.
  cbv zeta. cbn [fill used mask]. destruct (Z.ltb_spec ((fill so + 1) * 5) (mask so * 3)); [done|].
  edestruct set_table_resize_shape as [-> Hm]; [|cbn [used] in *; destruct (Z.gtb_spec (used so + 1) 50000) in Hm; lia].
  cbn [used]. destruct (Z.gtb_spec (used so + 1) 50000); lia.
Qed.

(** C8: Load bound: a set built by [set_add_entry] from [make_new_set] is
    well formed and its table is always less than three fifths full
    ([fill * 5 < mask * 3]), so a probe always meets an empty slot. *)
Theorem set_load_factor xs :
  Z.of_nat (length xs) < 2 ^ 32 ->
  set_wf (foldl set_add_entry make_new_set xs) /\
  fill (foldl set_add_entry make_new_set xs) * 5 < mask (foldl set_add_entry make_new_set xs) * 3.
Proof.
  intros Hxs. change xs with ([] ++ xs) in Hxs.
  replace (@nil Z) with (elements make_new_set) in Hxs by apply keys_replicate_None.
  generalize make_new_set_wf. assert (fill make_new_set * 5 < mask make_new_set * 3) as Hl by done.
  revert Hl Hxs. generalize make_new_set. induction xs as [|x xs IH]; intros so Hl Hxs Hwf; [done|].
  rewrite length_app in Hxs. cbn [length foldl] in *.
  destruct (set_add_entry_spec x so Hwf) as [Hwf' Hel]; [lia|].
  apply IH; [apply set_add_entry_load; [done|lia|done]| |done].
  apply Permutation_length in Hel. pose proof (ListSet.add_length x (elements so)).
  rewrite length_app, Hel. lia.
Qed.

(** C7: Memory safety of the probe: in a well-formed table every slot the
    probe sequence of any hash reaches (the linear runs included, which
    [probes_at] allows only when they end before the last slot) is inside
    the table, so [set_add_entry] and [set_insert_clean] never read past
    its end. *)
Theorem probe_in_table so h :
  set_wf so -> Forall (fun j => 0 <= j /\ (Z.to_nat j < length (table so))%nat) (hash_seq (mask so) h).
Proof.
  intros (k & Hk & Hm & Hlen & _). pose proof (Z.pow_pos_nonneg 2 (Z.of_nat k)) as Hp.
  apply Forall_forall. intros j Hj%list_elem_of_In. apply hash_seq_range in Hj; [|lia].
  split; [lia|]. rewrite Hlen, <- pow2_to_nat. apply Z2Nat.inj_lt; lia.
Qed.

(** *** Iteration order of a small set

    In a table of 8 slots a key whose home slot [hash & 7] is free is stored
    there, and iteration visits the slots in order: the elements of a small
    set whose keys have distinct home slots come out sorted by home slot. *)
Definition home (msk x : Z) : Z := Z.land (size_t (long_hash x)) msk.

Definition at_home (msk : Z) (tbl : list entry) : Prop :=
  forall j x h, tbl !! j = Some (Some (x, h)) -> home msk x = Z.of_nat j.

Lemma hash_seq_head msk h : exists r, hash_seq msk h = Z.land (size_t h) msk :: r.
Proof.
  unfold hash_seq, probe_fuel. cbn [Nat.add probe_seq].
  destruct (probes_at _ _); cbn; eexists; reflexivity.
Qed.

Lemma keys_sorted_at msk tbl off :
  (forall j x h, tbl !! j = Some (Some (x, h)) -> home msk x = off + Z.of_nat j) ->
  StronglySorted (fun x y => home msk x < home msk y) (keys tbl) /\
  Forall (fun y => off <= home msk y) (keys tbl).
Proof.
  revert off. induction tbl as [|e tbl IH]; intros off Hh; [split; constructor|].
  destruct (IH (off + 1)) as [Hs Hf].
  { intros j x h Hj. rewrite (Hh (S j) x h Hj). lia. }
  rewrite keys_cons. destruct e as [[x h]|].
  - pose proof (Hh 0%nat x h eq_refl) as H0. cbn in H0.
    split; constructor; [done| |lia|]; eapply Forall_impl; try exact Hf; intros y Hy; cbv beta in Hy; lia.
  - split; [done|]. eapply Forall_impl; [exact Hf|]. intros y Hy; cbv beta in Hy; lia.
Qed.

(** One insertion of a key whose home slot no other key shares, into a set
    that stays at most four keys: no resize, and the key lands at home. *)
Lemma set_add_entry_home so x :
  set_wf so -> mask so = 7 -> at_home 7 (table so) ->
  (length (ListSet.add x (elements so)) <= 4)%nat ->
  (forall y, y ∈ elements so -> home 7 y = home 7 x -> y = x) ->
  set_wf (set_add_entry so x) /\ mask (set_add_entry so x) = 7 /\
  at_home 7 (table (set_add_entry so x)) /\ elements (set_add_entry so x) ≡ₚ ListSet.add x (elements so).
Proof.
  intros Hwf Hm Hh Hlen Hd.
  destruct (set_add_entry_spec x so Hwf) as [Hwf' Hel].
  { destruct Hwf as (k & _ & _ & _ & _ & _ & Hused & _). unfold ListSet.add in Hlen.
    case_decide; cbn in Hlen; lia. }
  destruct (decide (x ∈ elements so)) as [Hx|Hx].
  { rewrite (set_add_entry_present so x Hwf Hx) in Hwf', Hel |- *. done. }
  unfold ListSet.add in Hlen. rewrite decide_False in Hlen by done. cbn in Hlen.
  destruct (set_add_entry_absent so x Hwf Hx) as (j0 & Hf & _ & Hrun).
  assert (0 <= home 7 x <= 7) as Hr by (apply land_mask_range; lia).
  assert (is_empty (table so) (home 7 x) = true) as He.
  { unfold is_empty, slot. destruct (table so !! Z.to_nat (home 7 x)) as [[[y h]|]|] eqn:E; [|done|done].
    exfalso. apply Hx. replace x with y; [apply elem_of_keys; eauto|]. apply Hd.
    - apply elem_of_keys. eauto.
    - rewrite (Hh _ _ _ E). lia. }
  destruct (hash_seq_head (mask so) (long_hash x)) as [r Hseq].
  rewrite Hseq, Hm in Hf. cbn in Hf. fold (home 7 x) in Hf. rewrite He in Hf. injection Hf as <-.
  destruct Hwf as (k & _ & Hmk & Hlt & _ & Hfill & Hused & _).
  assert (Z.to_nat (home 7 x) < length (table so))%nat as Hin.
  { rewrite Hlt, <- pow2_to_nat. apply Z2Nat.inj_lt; lia. }
  assert (((fill so + 1) * 5 <? mask so * 3) = true) as Hc
    by (apply Z.ltb_lt; unfold elements in Hlen; lia).
  rewrite Hrun in Hwf', Hel |- *. unfold found_unused in *. cbv zeta in *.
  cbn [fill used mask table] in *. rewrite Hc in *.
  split_and!; [done|done| |done]. intros j y h Hj. cbn [table] in Hj.
  destruct (decide (j = Z.to_nat (home 7 x))) as [->|Hne].
  - rewrite list_lookup_insert_eq in Hj by done. injection Hj as <- _. lia.
  - rewrite list_lookup_insert_ne in Hj by done. by apply (Hh j y h).
Qed.

Lemma add_app_incl x y l xs : y ∈ ListSet.add x l ++ xs -> y ∈ l ++ x :: xs.
Proof. unfold ListSet.add. case_decide; rewrite !elem_of_app, ?elem_of_cons; tauto. Qed.

Lemma adds_home xs so l :
  set_wf so -> mask so = 7 -> at_home 7 (table so) -> elements so ≡ₚ l ->
  (length (list_adds l xs) <= 4)%nat ->
  (forall x y, x ∈ l ++ xs -> y ∈ l ++ xs -> home 7 x = home 7 y -> x = y) ->
  mask (foldl set_add_entry so xs) = 7 /\ at_home 7 (table (foldl set_add_entry so xs)) /\
  elements (foldl set_add_entry so xs) ≡ₚ list_adds l xs.
Proof.
  revert so l. induction xs as [|x xs IH]; intros so l Hwf Hm Hh Hel Hlen Hd; [done|].
  cbn [foldl list_adds] in *. pose proof (list_adds_length_mono (ListSet.add x l) xs).
  destruct (set_add_entry_home so x) as (Hwf' & Hm' & Hh' & Hel'); [done|done|done| | |].
  - rewrite Hel. fold (list_adds (ListSet.add x l) xs) in Hlen. lia.
  - intros y Hy Hyx. apply Hd; [|rewrite elem_of_app, elem_of_cons; tauto|done].
    rewrite elem_of_app, <- Hel. tauto.
  - apply IH; [done|done|done|by rewrite Hel', Hel|done|].
    intros y z Hy Hz. apply Hd; by apply add_app_incl.
Qed.

(** C9: Iteration order of a clause's set: keys added to CPython's empty
    table of 8 slots, at most four distinct ones and no two with the same
    home slot [hash & 7], are iterated in increasing order of home slot
    (for a literal, [hash(l) = l] except [hash(-1) = -2]); the iteration is
    the abstract set of the keys. *)
Theorem set_slot_order xs :
  (length (list_adds [] xs) <= 4)%nat ->
  (forall x y, x ∈ xs -> y ∈ xs -> home 7 x = home 7 y -> x = y) ->
  StronglySorted (fun x y => home 7 x < home 7 y) (elements (foldl set_add_entry make_new_set xs)) /\
  elements (foldl set_add_entry make_new_set xs) ≡ₚ list_adds [] xs.
Proof.
  intros Hlen Hd. destruct (adds_home xs make_new_set []) as (_ & Hh & Hel);
    [apply make_new_set_wf|done| |unfold elements, make_new_set; cbn [table]; by rewrite keys_replicate_None|done|done|].
  { intros j x h Hj. cbn in Hj. apply lookup_replicate in Hj as [[=] _]. }
  split; [|done]. apply (keys_sorted_at 7 _ 0). intros j x h Hj. rewrite (Hh j x h Hj). lia.
Qed.

(** CPython's table is a set: from [make_new_set], [set_add_entry] keeps
    the invariant of the table while the set has fewer than [2^32] elements,
    iteration visits every key once, adding a key inserts it unless present,
    and [len] counts the keys. *)
#[export] Instance cpyset_laws : PySetLaws setobject set_wf.
Proof.
  split; cbn [set_empty set_add set_elements set_len cpyset_ops].
  - apply make_new_set_wf.
  - intros x so Hwf Hr. apply set_add_entry_spec; [done|].
    destruct Hwf as (k & _ & _ & _ & _ & _ & Hused & _). unfold set_room, elements in *. lia.
  - apply keys_replicate_None.
  - intros so (k & _ & _ & _ & Hinv & _). by eapply tbl_inv_NoDup.
  - intros x so Hwf Hr. apply set_add_entry_spec; [done|].
    destruct Hwf as (k & _ & _ & _ & _ & _ & Hused & _). unfold set_room, elements in *. lia.
  - intros so (k & _ & _ & _ & _ & _ & Hused & _). unfold elements. lia.
Qed.



(** ** Witnesses *)
Lemma set_add_entry_probe_terminates_witness :
  set_wf make_new_set /\
  exists j, start_probe (table make_new_set) (mask make_new_set) 5 (long_hash 5) = Ret (Active j) /\
              slot (table make_new_set) j = Some (5, long_hash 5)
         \/ start_probe (table make_new_set) (mask make_new_set) 5 (long_hash 5) = Ret (Unused j) /\
              slot (table make_new_set) j = None.
Proof.
  assert (set_wf make_new_set) as Hwf by apply make_new_set_wf.
  split; [exact Hwf|]. apply set_add_entry_probe_terminates. exact Hwf.
Defined.

Lemma cpyset_refines_witness :
  (Z.of_nat (length [2; -3; -2; 2]) < 2 ^ 32)%Z /\
  elements (foldl set_add_entry make_new_set [2; -3; -2; 2]) ≡ₚ list_adds [] [2; -3; -2; 2].
Proof. split; [simpl; lia|]. apply cpyset_refines. simpl; lia. Defined.

Lemma set_load_factor_witness :
  Z.of_nat (length [3; 1; 4; 1; 5; 9; 2; 6]) < 2 ^ 32 /\
  set_wf (foldl set_add_entry make_new_set [3; 1; 4; 1; 5; 9; 2; 6]) /\
  fill (foldl set_add_entry make_new_set [3; 1; 4; 1; 5; 9; 2; 6]) * 5 <
    mask (foldl set_add_entry make_new_set [3; 1; 4; 1; 5; 9; 2; 6]) * 3.
Proof.
  assert (Z.of_nat (length [3; 1; 4; 1; 5; 9; 2; 6]) < 2 ^ 32) as H by (cbn; lia).
  split; [exact H|]. exact (set_load_factor _ H).
Defined.

Lemma probe_in_table_witness :
  set_wf make_new_set /\
  Forall (fun j => 0 <= j /\ (Z.to_nat j < length (table make_new_set))%nat)
    (hash_seq (mask make_new_set) (long_hash 7)).
Proof. split; [exact make_new_set_wf|]. exact (probe_in_table _ _ make_new_set_wf). Defined.

Lemma set_slot_order_witness :
  elements (foldl set_add_entry make_new_set [3; -1; 5]) = [3; 5; -1] /\
  (length (list_adds [] [3; -1; 5]%Z) <= 4)%nat /\
  (forall x y, x ∈ [3; -1; 5] -> y ∈ [3; -1; 5] -> home 7 x = home 7 y -> x = y) /\
  StronglySorted (fun x y => home 7 x < home 7 y) (elements (foldl set_add_entry make_new_set [3; -1; 5])) /\
  elements (foldl set_add_entry make_new_set [3; -1; 5]) ≡ₚ list_adds [] [3; -1; 5].
Proof.
  assert (length (list_adds [] [3; -1; 5]%Z) <= 4)%nat as H1 by (vm_compute; lia).
  assert (forall x y, x ∈ [3; -1; 5] -> y ∈ [3; -1; 5] -> home 7 x = home 7 y -> x = y) as H2.
  { intros x y Hx%list_elem_of_In Hy%list_elem_of_In Hxy.
    destruct Hx as [<-|[<-|[<-|[]]]], Hy as [<-|[<-|[<-|[]]]]; vm_compute in Hxy; congruence. }
  split; [vm_compute; reflexivity|]. split; [exact H1|]. split; [exact H2|].
  exact (set_slot_order _ H1 H2).
Defined.

End CPySet.
