(* ===== verification/PyInt.v ===== *)
(** * Python's [int(str)] and [str(int)]

    Line 2 of src/scripts/gen_random_3sat.py converts the command-line
    arguments with [int(sys.argv[i])]; lines 5 and 13 print integers with
    [f"{n}"] and [str(lit)].  This file models, on ASCII text:
    - [int(s)] in base 10 as CPython's [PyLong_FromString] reads it: leading
      and trailing ASCII white space ([Py_ISSPACE]), an optional sign,
      decimal digits with single underscores between digits, at most 4300
      digits (the default [sys.get_int_max_str_digits()] of Python 3.11 and
      later), and [ValueError] (here [None]) otherwise;
    - [str(z)], the canonical decimal form (its own 4300-digit limit is not
      modelled: in the script every printed number is at most [n] in
      absolute value, and [n] has passed [int()]);
    - [sys.argv[i]], which raises [IndexError] out of range.
    Theorems: [int(str(z)) == z] within the digit limit ([py_int_py_str])
    and white space around a literal is ignored ([py_int_strip]). *)

From stdpp Require Import base list.
From Stdlib Require Import ZArith Ascii Lia.
From S2P Require Import Prelude.

Module PyInt.
Local Open Scope Z_scope.

(** [Py_ISSPACE]: tab, line feed, vertical tab, form feed, carriage return
    and space.  [_PyUnicode_TransformDecimalAndSpaceToASCII] copies the
    characters below 127 unchanged, so on ASCII text these are all the white
    space [int] skips. *)
Definition is_space (c : ascii) : bool :=
  let n := nat_of_ascii c in
  ((9 <=? n) && (n <=? 13))%nat || (n =? 32)%nat.

Definition digit_val (c : ascii) : option nat :=
  let n := nat_of_ascii c in
  if ((48 <=? n) && (n <=? 57))%nat then Some (n - 48)%nat else None.

Definition digit_char (d : nat) : ascii := ascii_of_nat (48 + d).

Definition underscore : ascii := "_"%char.

Fixpoint skip_spaces (s : text) : text :=
  match s with
  | c :: s' => if is_space c then skip_spaces s' else s
  | [] => []
  end.

(** The scan loop of [PyLong_FromString]: digits and underscores, an
    underscore never after an underscore nor at the end of the run. *)
Fixpoint scan_digits (s : text) (prev_us : bool) : option (list nat * text) :=
  match s with
  | c :: s' =>
      if decide (c = underscore) then
        if prev_us then None else scan_digits s' true
      else match digit_val c with
           | Some d =>
               match scan_digits s' false with
               | Some (ds, rest) => Some (d :: ds, rest)
               | None => None
               end
           | None => if prev_us then None else Some ([], s)
           end
  | [] => if prev_us then None else Some ([], [])
  end.

Definition digits_value (ds : list nat) : Z :=
  foldl (fun acc d => 10 * acc + Z.of_nat d) 0 ds.

(** The literal after the sign: no leading underscore, at least one digit,
    and nothing but white space after the digits. *)
Definition scan_literal (s : text) : option (list nat) :=
  match s with
  | c :: _ => if decide (c = underscore) then None else
      match scan_digits s false with
      | Some (ds, rest) =>
          if decide (ds = []) then None
          else if forallb is_space rest then Some ds else None
      | None => None
      end
  | [] => None
  end.

(** The scan of [PyLong_FromString] in base 10: white space, an optional
    sign, the literal; the sign and the digits read. *)
Definition parse_decimal (s : text) : option (bool * list nat) :=
  let s := skip_spaces s in
  let '(neg, s) := match s with
                   | c :: t => if decide (c = "+"%char) then (false, t)
                               else if decide (c = "-"%char) then (true, t)
                               else (false, s)
                   | [] => (false, s)
                   end in
  match scan_literal s with
  | Some ds => Some (neg, ds)
  | None => None
  end.

Definition signed_value (neg : bool) (ds : list nat) : Z :=
  if neg then - digits_value ds else digits_value ds.

(** [sys.int_info.default_max_str_digits] (Python 3.11 and later). *)
Definition PY_INT_MAX_STR_DIGITS : nat := 4300.

(** [int(s)]; [None] is the [ValueError] of an invalid literal, and of a
    literal of more than [PY_INT_MAX_STR_DIGITS] digits. *)
Definition py_int (s : text) : option Z :=
  match parse_decimal s with
  | Some (neg, ds) =>
      if (length ds <=? PY_INT_MAX_STR_DIGITS)%nat then Some (signed_value neg ds) else None
  | None => None
  end.

(** [str(z)]: the decimal digits of [|z|], most significant first, after a
    minus sign when [z < 0]. *)
Fixpoint digits_aux (fuel : nat) (n : Z) (acc : list nat) : list nat :=
  match fuel with
  | O => acc
  | S f => if n =? 0 then acc else digits_aux f (n / 10) (Z.to_nat (n mod 10) :: acc)
  end.

Definition decimal_digits (n : Z) : list nat :=
  if n =? 0 then [0%nat] else digits_aux (Z.to_nat (Z.log2 n + 1)) n [].

Definition py_str (z : Z) : text :=
  (if z <? 0 then ["-"%char] else []) ++ map digit_char (decimal_digits (Z.abs z)).

(** [sys.argv[i]]. *)
Definition argv_get (argv : list text) (i : nat) : outcome text :=
  match argv !! i with Some a => Ret a | None => Raise IndexError end.

(** [int(sys.argv[i])]. *)
Definition argv_int (argv : list text) (i : nat) : outcome Z :=
  match argv_get argv i with
  | Ret a => match py_int a with Some z => Ret z | None => Raise ValueError end
  | Raise e => Raise e
  | OutOfFuel => OutOfFuel
  end.

(** ** Decimal digits *)

Lemma foldl_digits_value (a : Z) ds :
  foldl (fun acc d => 10 * acc + Z.of_nat d) a ds = a * 10 ^ Z.of_nat (length ds) + digits_value ds.
Proof.
  revert a. induction ds as [|d ds IH]; intros a.
  - cbn [foldl length]. unfold digits_value. cbn [foldl]. lia.
  - cbn [foldl length].
    change (digits_value (d :: ds))
      with (foldl (fun acc d => 10 * acc + Z.of_nat d) (10 * 0 + Z.of_nat d) ds).
    rewrite (IH (10 * a + Z.of_nat d)), (IH (10 * 0 + Z.of_nat d)).
    rewrite Nat2Z.inj_succ, Z.pow_succ_r by lia. ring.
Qed.

Lemma digits_value_cons d ds :
  digits_value (d :: ds) = Z.of_nat d * 10 ^ Z.of_nat (length ds) + digits_value ds.
Proof.
  change (digits_value (d :: ds))
    with (foldl (fun acc d => 10 * acc + Z.of_nat d) (10 * 0 + Z.of_nat d) ds).
  rewrite foldl_digits_value. lia.
Qed.

Lemma digits_aux_value f n acc :
  0 <= n < 2 ^ Z.of_nat f ->
  digits_value (digits_aux f n acc) = n * 10 ^ Z.of_nat (length acc) + digits_value acc.
Proof.
  revert n acc. induction f as [|f IH]; intros n acc Hn; simpl.
  - assert (n = 0) as -> by (simpl in Hn; lia). lia.
  - destruct (Z.eqb_spec n 0) as [->|Hne]; [lia|].
    rewrite IH.
    + rewrite digits_value_cons. cbn [length]. rewrite Nat2Z.inj_succ, Z.pow_succ_r by lia.
      rewrite Z2Nat.id by (apply Z.mod_pos_bound; lia).
      pose proof (Z.div_mod n 10 ltac:(lia)). nia.
    + rewrite Nat2Z.inj_succ, Z.pow_succ_r in Hn by lia. split; [apply Z.div_pos; lia|].
      apply Z.div_lt_upper_bound; lia.
Qed.

Lemma digits_aux_small f n acc :
  Forall (fun d => d < 10)%nat acc -> Forall (fun d => d < 10)%nat (digits_aux f n acc).
Proof.
  revert n acc. induction f as [|f IH]; intros n acc Hacc; simpl; [done|].
  destruct (n =? 0); [done|]. apply IH. constructor; [|done].
  destruct (Z.mod_pos_bound n 10 ltac:(lia)). lia.
Qed.

Lemma decimal_digits_spec n :
  0 <= n ->
  digits_value (decimal_digits n) = n /\ decimal_digits n <> [] /\
  Forall (fun d => d < 10)%nat (decimal_digits n).
Proof.
  intros Hn. unfold decimal_digits. destruct (Z.eqb_spec n 0) as [->|Hne].
  - split; [reflexivity|split; [discriminate|repeat constructor; lia]].
  - pose proof (Z.log2_spec n ltac:(lia)) as [_ Hlt].
    pose proof (Z.log2_nonneg n).
    assert (0 <= n < 2 ^ Z.of_nat (Z.to_nat (Z.log2 n + 1))) as Hb
      by (rewrite Z2Nat.id by lia; unfold Z.succ in Hlt; lia).
    split; [rewrite digits_aux_value by done; change (digits_value []) with 0;
            cbn [length Z.of_nat]; rewrite Z.pow_0_r; lia|].
    split; [|apply digits_aux_small; constructor].
    intros Hnil. pose proof (digits_aux_value _ n [] Hb) as Hv.
    rewrite Hnil in Hv. simpl in Hv. lia.
Qed.

Lemma digit_val_char d : (d < 10)%nat -> digit_val (digit_char d) = Some d.
Proof. intros Hd. do 10 (destruct d as [|d]; [reflexivity|]). lia. Qed.

Lemma digit_char_not_underscore d : (d < 10)%nat -> digit_char d <> underscore.
Proof. intros Hd. do 10 (destruct d as [|d]; [discriminate|]). lia. Qed.

Lemma digit_char_not_space d : (d < 10)%nat -> is_space (digit_char d) = false.
Proof. intros Hd. do 10 (destruct d as [|d]; [reflexivity|]). lia. Qed.

Lemma scan_digits_of_digits ds :
  Forall (fun d => d < 10)%nat ds -> scan_digits (map digit_char ds) false = Some (ds, []).
Proof.
  induction 1 as [|d ds Hd Hds IH]; [done|]. cbn [map scan_digits].
  rewrite decide_False by (by apply digit_char_not_underscore).
  by rewrite digit_val_char, IH.
Qed.

Lemma digit_char_not_sign d :
  (d < 10)%nat -> digit_char d <> "+"%char /\ digit_char d <> "-"%char.
Proof. intros Hd. do 10 (destruct d as [|d]; [split; discriminate|]). lia. Qed.

(** The digits after the sign read back as their value. *)
Lemma py_int_unsigned_tail ds :
  ds <> [] -> Forall (fun d => d < 10)%nat ds -> scan_literal (map digit_char ds) = Some ds.
Proof.
  intros Hne Hsmall. unfold scan_literal. rewrite scan_digits_of_digits by done.
  destruct ds as [|d ds]; [done|]. cbn [map].
  rewrite decide_False by (apply digit_char_not_underscore; by inversion Hsmall).
  rewrite decide_False by done. done.
Qed.

(** A character that is neither [-] nor a digit does not occur in [str(z)]. *)
Lemma py_str_avoids (ch : ascii) z :
  ch <> "-"%char -> (forall d, (d < 10)%nat -> digit_char d <> ch) -> ch ∉ py_str z.
Proof.
  intros Hm Hd. destruct (decimal_digits_spec (Z.abs z) ltac:(lia)) as (_ & _ & Hsmall).
  unfold py_str. rewrite elem_of_app. intros [H|H].
  - destruct (z <? 0); [|by inversion H]. inversion H as [|? ? ? H']; [done|inversion H'].
  - apply list_elem_of_fmap_1 in H as (d & -> & Hin). rewrite Forall_forall in Hsmall.
    by apply (Hd d); [apply Hsmall|].
Qed.

(** [str(z)] is a non-empty word: no white space in it. *)
Lemma py_str_no_space z : py_str z <> [] /\ Forall (fun c => is_space c = false) (py_str z).
Proof.
  destruct (decimal_digits_spec (Z.abs z) ltac:(lia)) as (_ & Hne & Hsmall).
  unfold py_str. split.
  - destruct (decimal_digits (Z.abs z)); [done|]. by destruct (z <? 0).
  - apply Forall_app. split; [destruct (z <? 0); repeat constructor|].
    apply Forall_map. eapply Forall_impl; [exact Hsmall|]. intros d Hd.
    by apply digit_char_not_space.
Qed.

(** The scan of [str(z)] gives the sign and the digits of [z]. *)
Lemma parse_decimal_py_str z :
  parse_decimal (py_str z) = Some (bool_decide (z < 0), decimal_digits (Z.abs z)).
Proof.
  destruct (decimal_digits_spec (Z.abs z) ltac:(lia)) as (_ & Hne & Hsmall).
  pose proof (py_int_unsigned_tail _ Hne Hsmall) as Htail.
  unfold parse_decimal, py_str.
  destruct (Z.ltb_spec z 0) as [Hneg|Hpos].
  - change (skip_spaces (["-"%char] ++ map digit_char (decimal_digits (Z.abs z))))
      with ("-"%char :: map digit_char (decimal_digits (Z.abs z))).
    cbn beta iota. rewrite decide_False by discriminate. rewrite decide_True by reflexivity.
    cbn beta iota. rewrite Htail. by rewrite bool_decide_true.
  - change ([] ++ map digit_char (decimal_digits (Z.abs z)))
      with (map digit_char (decimal_digits (Z.abs z))).
    destruct (decimal_digits (Z.abs z)) as [|d ds] eqn:E; [done|].
    inversion Hsmall as [|? ? Hd Hds]; subst.
    cbn [map skip_spaces]. rewrite digit_char_not_space by done.
    destruct (digit_char_not_sign d Hd) as [Hp Hm].
    cbn beta iota. rewrite decide_False by done. rewrite decide_False by done.
    cbn beta iota. cbn [map] in Htail. rewrite Htail. by rewrite bool_decide_false by lia.
Qed.

(** The sign and digits of [str(z)] denote [z]. *)
Lemma signed_value_py_str z : signed_value (bool_decide (z < 0)) (decimal_digits (Z.abs z)) = z.
Proof.
  destruct (decimal_digits_spec (Z.abs z) ltac:(lia)) as (Hv & _ & _).
  unfold signed_value. case_bool_decide; rewrite Hv; lia.
Qed.

(** [int(str(z)) == z] for every integer of at most 4300 digits: the text
    written for a number reads back as that number. *)
Lemma py_int_py_str z :
  (length (decimal_digits (Z.abs z)) <= PY_INT_MAX_STR_DIGITS)%nat -> py_int (py_str z) = Some z.
Proof.
  intros Hz. unfold py_int. rewrite parse_decimal_py_str, signed_value_py_str.
  by rewrite (proj2 (Nat.leb_le _ _) Hz).
Qed.

(** ** White space around a literal *)

Lemma space_not_digit c : is_space c = true -> digit_val c = None /\ c <> underscore.
Proof.
  unfold is_space, digit_val. cbv zeta. intros H. split.
  - destruct (Nat.leb 48 (nat_of_ascii c) && Nat.leb (nat_of_ascii c) 57) eqn:E; [|done].
    apply andb_true_iff in E as [E1 E2].
    apply Nat.leb_le in E1, E2.
    apply orb_true_iff in H as [H|H];
      [apply andb_true_iff in H as [H1 H2]; apply Nat.leb_le in H1, H2|apply Nat.eqb_eq in H]; lia.
  - intros ->. discriminate H.
Qed.

Lemma forallb_spaces ws : Forall (fun c => is_space c = true) ws -> forallb is_space ws = true.
Proof. induction 1; cbn; [done|]. by apply andb_true_iff. Qed.

Lemma skip_spaces_app ws s :
  Forall (fun c => is_space c = true) ws -> skip_spaces (ws ++ s) = skip_spaces s.
Proof. induction 1 as [|c ws Hc _ IH]; [done|]. cbn. by rewrite Hc. Qed.

Lemma skip_spaces_app_r s ws :
  Forall (fun c => is_space c = true) ws ->
  skip_spaces (s ++ ws) = match skip_spaces s with [] => [] | u => u ++ ws end.
Proof.
  intros Hws. induction s as [|c s IH]; cbn.
  - rewrite <- (app_nil_r ws), skip_spaces_app by done. done.
  - by destruct (is_space c).
Qed.

Lemma scan_digits_app t ws b :
  Forall (fun c => is_space c = true) ws ->
  scan_digits (t ++ ws) b =
    match scan_digits t b with Some (ds, rest) => Some (ds, rest ++ ws) | None => None end.
Proof.
  intros Hws. revert b. induction t as [|c t IH]; intros b; cbn [app scan_digits].
  - destruct ws as [|c ws]; [by destruct b|]. inversion Hws as [|? ? Hc _]; subst.
    destruct (space_not_digit c Hc) as [Hd Hu]. cbn. rewrite decide_False, Hd by done.
    by destruct b.
  - case_decide; [destruct b; [done|apply IH]|].
    destruct (digit_val c); [|by destruct b]. rewrite IH.
    by destruct (scan_digits t false) as [[? ?]|].
Qed.

Lemma scan_literal_app t ws :
  Forall (fun c => is_space c = true) ws -> scan_literal (t ++ ws) = scan_literal t.
Proof.
  intros Hws. unfold scan_literal. destruct t as [|c t].
  - destruct ws as [|c ws]; [done|]. inversion Hws as [|? ? Hc _]; subst.
    destruct (space_not_digit c Hc) as [Hd Hu]. cbn [app].
    rewrite decide_False by done. cbn [scan_digits]. rewrite decide_False, Hd by done.
    by rewrite decide_True.
  - cbn [app]. case_decide; [done|]. rewrite app_comm_cons, scan_digits_app by done.
    destruct (scan_digits (c :: t) false) as [[ds rest]|]; [|done].
    case_decide; [done|]. by rewrite forallb_app, (forallb_spaces ws Hws), andb_true_r.
Qed.

Lemma parse_decimal_strip ws1 s ws2 :
  Forall (fun c => is_space c = true) ws1 -> Forall (fun c => is_space c = true) ws2 ->
  parse_decimal (ws1 ++ s ++ ws2) = parse_decimal s.
Proof.
  intros H1 H2. unfold parse_decimal. rewrite skip_spaces_app, skip_spaces_app_r by done.
  destruct (skip_spaces s) as [|c u]; [done|]. cbn [app].
  case_decide; [|case_decide]; cbn beta iota;
    rewrite ?app_comm_cons, scan_literal_app by done; done.
Qed.

(** C22: [int(s)] reads a literal with white space around it as the literal
    itself: [int(" \t1_000\n") == int("1_000")], and an invalid literal
    stays invalid, so an argument of line 2 may carry spaces or a newline. *)
Theorem py_int_strip ws1 s ws2 :
  Forall (fun c => is_space c = true) ws1 -> Forall (fun c => is_space c = true) ws2 ->
  py_int (ws1 ++ s ++ ws2) = py_int s.
Proof. intros H1 H2. unfold py_int. by rewrite parse_decimal_strip. Qed.

Lemma py_int_strip_witness :
  Forall (fun c => is_space c = true) [" "%char; "009"%char] /\
  Forall (fun c => is_space c = true) ["010"%char] /\
  py_int ([" "%char; "009"%char] ++ ["1"%char; "_"%char; "0"%char; "0"%char; "0"%char] ++ ["010"%char]) = py_int (["1"%char; "_"%char; "0"%char; "0"%char; "0"%char]) /\
  py_int (["1"%char; "_"%char; "0"%char; "0"%char; "0"%char]) = Some 1000.
Proof.
  assert (Forall (fun c => is_space c = true) [" "%char; "009"%char]) as H1
    by (repeat constructor).
  assert (Forall (fun c => is_space c = true) ["010"%char]) as H2 by (repeat constructor).
  split_and!; [exact H1|exact H2|exact (py_int_strip _ _ _ H1 H2)|reflexivity].
Defined.

End PyInt.
