(* ===== verification/Gen3Sat.v ===== *)
(** * The random 3-SAT generator, src/scripts/gen_random_3sat.py

    The script reads [n], [m], [seed] and [path] from the command line
    (line 2), seeds the module's generator (line 3), opens [path] for writing
    (line 4), writes the DIMACS header (line 5) and then, for each of the [m]
    clauses (line 6), fills a fresh set (line 7) with literals until it holds
    three (lines 8 to 12), and writes the set's elements and a terminating
    [0] (line 13).

    The process state is a [world]: the generator's state and the file
    system, a map from paths to contents.  Each line of the script is an
    operation of [PyM world]: an exception leaves the state as it is at the
    point of the raise, so a file opened by [with open(path, "w")] keeps what
    was written before the exception ([with] closes and flushes it).

    The clause loop is proved against the set interface and any random
    source: it keeps three distinct literals over [n] variables
    ([fill_clause_spec]), and it ends as soon as the draws, [draw_lits],
    have brought three distinct values ([fill_clause_live]), while for
    [n = 1] it never does ([write_instance_one_var_diverges]). *)

From stdpp Require Import base list strings gmap.
From Stdlib Require Import ZArith QArith Ascii Lia.
From S2P Require Import Prelude MT19937 PyRandom PySet PyInt.

Module Gen3Sat.
Import PyRandom PyInt.
Local Open Scope Z_scope.

(** The state of the process: the hidden generator and the files. *)
Record world (St : Type) : Type := mkWorld {
  w_rng : St;
  w_files : gmap text text
}.
Arguments mkWorld {St} _ _.
Arguments w_rng {St} _.
Arguments w_files {St} _.

Section Script.
Context {St T : Type} `{RandomSource St} `{PySetOps T}.

(** A call into the [random] module. *)
Definition rng {A} (c : PyM St A) : PyM (world St) A :=
  fun w => let '(o, s) := c (w_rng w) in (o, mkWorld s (w_files w)).

(** [open(path, "w")]: the file is created or truncated. *)
Definition open_w (path : text) : PyM (world St) unit :=
  fun w => (Ret tt, mkWorld (w_rng w) (<[path := []]> (w_files w))).

(** [f.write(s)] on the file opened at [path]. *)
Definition f_write (path s : text) : PyM (world St) unit :=
  fun w =>
    let old := match w_files w !! path with Some c => c | None => [] end in
    (Ret tt, mkWorld (w_rng w) (<[path := old ++ s]> (w_files w))).

(** Lines 9 to 11: a variable drawn in [1, n], negated when
    [random() < 0.5]. *)
Definition draw_lit (rfuel : nat) (n : Z) : PyM (world St) Z :=
  let* lit := rng (randrange rfuel 1 (n + 1)) in
  let* x := rng random in
  mret (if qlt x (1 # 2) then Z.opp lit else lit).

(** The first [k] literals lines 9 to 11 would draw, in order: the stream
    the loop of lines 8 to 12 consumes. *)
Fixpoint draw_lits (k : nat) (rfuel : nat) (n : Z) : PyM (world St) (list Z) :=
  match k with
  | O => mret []
  | S k' =>
      let* l := draw_lit rfuel n in
      let* ls := draw_lits k' rfuel n in
      mret (l :: ls)
  end.

(** Lines 8 to 12: [while len(clause) < 3: ... clause.add(lit)]; [fuel]
    bounds the iterations of the loop. *)
Fixpoint fill_clause (fuel rfuel : nat) (n : Z) (clause : T) : PyM (world St) T :=
  if (set_len clause <? 3)%nat then
    match fuel with
    | O => mstuck
    | S f =>
        let* lit := draw_lit rfuel n in
        fill_clause f rfuel n (set_add lit clause)
    end
  else mret clause.

(** Line 13: [" ".join(map(str, clause)) + " 0\n"]. *)
Definition clause_line (lits : list Z) : text :=
  join (txt " ") (map py_str lits) ++ txt " 0" ++ ["010"%char].

(** Line 5: [f"p cnf {n} {m}\n"]. *)
Definition header (n m : Z) : text :=
  txt "p cnf " ++ py_str n ++ txt " " ++ py_str m ++ ["010"%char].

(** Lines 6 to 13, the loop body run [k] times. *)
Fixpoint gen_clauses (k : nat) (fuel rfuel : nat) (n : Z) (path : text) : PyM (world St) unit :=
  match k with
  | O => mret tt
  | S k' =>
      let* clause := fill_clause fuel rfuel n set_empty in
      f_write path (clause_line (set_elements clause)) ;;;
      gen_clauses k' fuel rfuel n path
  end.

(** Lines 4 to 13, after the generator is seeded; [range(m)] is empty
    when [m <= 0]. *)
Definition write_instance (fuel rfuel : nat) (n m : Z) (path : text) : PyM (world St) unit :=
  open_w path ;;;
  f_write path (header n m) ;;;
  gen_clauses (Z.to_nat m) fuel rfuel n path.
End Script.

(** ** What a clause line holds *)

(** A literal of an instance over [n] variables. *)
Definition lit_ok (n l : Z) : Prop := l <> 0 /\ Z.abs l <= n.

(** A clause as line 13 prints it: three distinct literals over [n]
    variables, in the set's iteration order. *)
Definition clause_ok (n : Z) (c : list Z) : Prop :=
  length c = 3%nat /\ NoDup c /\ Forall (lit_ok n) c.

(** The text of an instance: the header, then one line per clause. *)
Definition dimacs_text (n m : Z) (cls : list (list Z)) : text :=
  header n m ++ concat (map clause_line cls).

Section ScriptProofs.
Context {St T : Type} `{RandomSource St} `{PySetOps T}.
Context {wf : T -> Prop} `{!PySetLaws T wf}.

Definition world_wf (w : world St) : Prop := rs_wf (w_rng w).

Lemma rng_spec {A} (c : PyM St A) Q :
  inv_spec rs_wf c Q -> inv_spec world_wf (rng c) Q.
Proof.
  intros Hc w Hw. unfold rng. destruct (Hc (w_rng w) Hw) as [H1 H2].
  destruct (c (w_rng w)) as [o s]. done.
Qed.

Lemma draw_lit_spec rfuel n :
  1 <= n -> inv_spec world_wf (draw_lit rfuel n) (lit_ok n).
Proof.
  intros Hn. unfold draw_lit.
  inv_spec_call rng_spec as l Hl; [apply (proj2 (randrange_spec rfuel 1 (n + 1))); lia|].
  inv_spec_call rng_spec as x Hx; [apply random_spec|].
  inv_spec_step. unfold lit_ok. destruct (qlt x (1 # 2)); lia.
Qed.

Lemma draw_lit_raise rfuel n w :
  n <= 0 -> draw_lit rfuel n w = (Raise ValueError, w).
Proof.
  intros Hn. unfold draw_lit, mbind, rng.
  rewrite (proj1 (randrange_spec rfuel 1 (n + 1))) by lia. by destruct w.
Qed.

Lemma elements_add_length x c :
  wf c -> set_room (set_len c) ->
  (length (set_elements (set_add x c)) <= S (length (set_elements c)))%nat.
Proof.
  intros Hc Hr. rewrite (set_elements_add x c Hc Hr).
  destruct (decide (x ∈ set_elements c)); simpl; lia.
Qed.

Lemma elements_add_Forall (P : Z -> Prop) x c :
  wf c -> set_room (set_len c) -> P x -> Forall P (set_elements c) ->
  Forall P (set_elements (set_add x c)).
Proof.
  intros Hc Hr Hx Hall. rewrite (set_elements_add x c Hc Hr).
  destruct (decide (x ∈ set_elements c)); [done|by constructor].
Qed.

(** The loop of lines 8 to 12 keeps a well-formed set of at most three
    literals over [n] variables, and ends with exactly three. *)
Lemma fill_clause_spec fuel rfuel n c :
  1 <= n -> wf c -> Forall (lit_ok n) (set_elements c) -> (length (set_elements c) <= 3)%nat ->
  inv_spec world_wf (fill_clause fuel rfuel n c)
    (fun c' => wf c' /\ clause_ok n (set_elements c')).
Proof.
  revert c. induction fuel as [|f IH]; intros c Hn Hc Hall Hlen; cbn [fill_clause];
    rewrite (set_len_elements c Hc);
    (destruct (Nat.ltb_spec (length (set_elements c)) 3);
     [|inv_spec_step; split; [done|split; [lia|split; [by apply set_elements_NoDup|done]]]]).
  - inv_spec_step.
  - inv_spec_call draw_lit_spec as l Hl; [done|].
    assert (set_room (set_len c)) as Hr
      by (rewrite (set_len_elements c Hc); by apply set_room_small).
    pose proof (elements_add_length l c Hc Hr).
    apply IH; [done|by apply set_add_wf|by apply elements_add_Forall|lia].
Qed.

(** *** Progress of the clause loop *)

(** A set of three elements ends the loop at once. *)
Lemma fill_clause_full fuel rfuel n c (w : world St) :
  wf c -> length (set_elements c) = 3%nat -> fill_clause fuel rfuel n c w = (Ret c, w).
Proof. intros Hc Hl. destruct fuel; cbn; by rewrite (set_len_elements c Hc), Hl. Qed.

(** The loop stops at the first draw that makes three distinct literals:
    if the next [k] draws bring the set to three elements, [k] iterations
    are enough, and the set holds the distinct literals of the shortest
    such prefix of the draws. *)
Lemma fill_clause_progress k : forall fuel rfuel n c ls (w w' : world St),
  wf c -> (length (set_elements c) <= 3)%nat ->
  draw_lits k rfuel n w = (Ret ls, w') -> (k <= fuel)%nat ->
  (3 <= length (list_adds (set_elements c) ls))%nat ->
  exists c' w'', fill_clause fuel rfuel n c w = (Ret c', w'') /\ wf c' /\
    exists p, p `prefix_of` ls /\ length (list_adds (set_elements c) p) = 3%nat /\
      set_elements c' ≡ₚ list_adds (set_elements c) p.
Proof.
  induction k as [|k IH]; intros fuel rfuel n c ls w w' Hc Hlen Hd Hk H3;
    (destruct (decide (length (set_elements c) = 3%nat)) as [Hfull|Hnot];
     [exists c, w; rewrite fill_clause_full by done; split_and!; [done|done|];
      exists []; split_and!; [apply prefix_nil|done|done]|]).
  { cbn in Hd. injection Hd as <- <-. cbn in H3. lia. }
  destruct fuel as [|f]; [lia|]. cbn [fill_clause]. rewrite (set_len_elements c Hc).
  rewrite (proj2 (Nat.ltb_lt _ _)) by lia. cbn [draw_lits] in Hd. unfold mbind in Hd |- *.
  destruct (draw_lit rfuel n w) as [[l| |] w1]; try discriminate.
  destruct (draw_lits k rfuel n w1) as [[ls'| |] w2] eqn:E; try discriminate.
  injection Hd as <- <-.
  assert (set_room (set_len c)) as Hr
    by (rewrite (set_len_elements c Hc); apply set_room_small; lia).
  assert (set_elements (set_add l c) ≡ₚ ListSet.add l (set_elements c)) as Hel
    by (rewrite (set_elements_add l c Hc Hr); done).
  pose proof (elements_add_length l c Hc Hr).
  destruct (IH f rfuel n (set_add l c) ls' w1 w2) as (c' & w'' & Hrun & Hc' & p & Hp & Hp3 & Hpe);
    [by apply set_add_wf|lia|done|lia|by rewrite Hel|].
  exists c', w''. split_and!; [done|done|]. exists (l :: p). rewrite Hel in Hp3, Hpe.
  split_and!; [by apply prefix_cons|done|done].
Qed.

(** C4: Liveness of the clause loop under fair draws: if the literals the
    generator draws next contain three distinct values within [k] draws,
    the [while] loop of lines 8 to 12 ends with a fuel of [k] or more, and
    the clause holds the distinct literals of the shortest prefix of the
    draws that has three. *)
Theorem fill_clause_live k fuel rfuel n ls (w w' : world St) :
  draw_lits k rfuel n w = (Ret ls, w') -> (k <= fuel)%nat ->
  (3 <= length (list_adds [] ls))%nat ->
  exists c w'', fill_clause fuel rfuel n set_empty w = (Ret c, w'') /\ wf c /\
    exists p, p `prefix_of` ls /\ length (list_adds [] p) = 3%nat /\ set_elements c ≡ₚ list_adds [] p.
Proof.
  intros Hd Hk H3. rewrite <- set_elements_empty in H3 |- *.
  apply (fill_clause_progress k fuel rfuel n set_empty ls w w'); [apply set_empty_wf|rewrite set_elements_empty; cbn; lia|done..].
Qed.

(** *** The file system is touched only by [open] and [write] *)
Definition keeps_files {A} (c : PyM (world St) A) : Prop :=
  forall w, w_files (c w).2 = w_files w.

Lemma keeps_files_ret {A} (a : A) : keeps_files (mret a).
Proof. done. Qed.

Lemma keeps_files_stuck {A} : keeps_files (A := A) mstuck.
Proof. done. Qed.

Lemma keeps_files_rng {A} (c : PyM St A) : keeps_files (rng c).
Proof. intros w. unfold rng. by destruct (c (w_rng w)). Qed.

Lemma keeps_files_bind {A B} (c : PyM (world St) A) (k : A -> PyM (world St) B) :
  keeps_files c -> (forall a, keeps_files (k a)) -> keeps_files (mbind c k).
Proof.
  intros Hc Hk w. unfold mbind. specialize (Hc w).
  destruct (c w) as [[a| e |] w1]; simpl in *; [by rewrite Hk|done|done].
Qed.

#[local] Hint Resolve keeps_files_ret keeps_files_stuck keeps_files_rng keeps_files_bind : core.

Lemma fill_clause_keeps_files fuel rfuel n c : keeps_files (fill_clause fuel rfuel n c).
Proof.
  revert c. induction fuel as [|f IH]; intros c; cbn [fill_clause];
    repeat case_match; unfold draw_lit; auto 8.
Qed.

Lemma f_write_run path s (w : world St) :
  f_write path s w =
    (Ret tt, mkWorld (w_rng w)
       (<[path := match w_files w !! path with Some c => c | None => [] end ++ s]> (w_files w))).
Proof. done. Qed.

(** *** The clause loop of lines 6 to 13 *)

(** When the clause loop of [k] rounds returns, it has appended [k] clause
    lines, each of three distinct literals over [n] variables, to the file
    at [path], and no other file has changed. *)
Lemma gen_clauses_ret k fuel rfuel n path (w w' : world St) old :
  world_wf w -> w_files w !! path = Some old ->
  gen_clauses k fuel rfuel n path w = (Ret tt, w') ->
  exists cls, length cls = k /\ Forall (clause_ok n) cls /\
    w_files w' !! path = Some (old ++ concat (map clause_line cls)) /\
    world_wf w' /\ (forall p, p <> path -> w_files w' !! p = w_files w !! p).
Proof.
  revert w old. induction k as [|k IH]; intros w old Hw Hold Hrun.
  - injection Hrun as <-. exists []. rewrite app_nil_r. by repeat split.
  - cbn [gen_clauses] in Hrun.
    apply mbind_ret_inv in Hrun as (c & w1 & Hfill & Hrest).
    assert (1 <= n) as Hn.
    { destruct (Z.le_gt_cases 1 n) as [?|Hn]; [done|].
      destruct fuel as [|f]; cbn [fill_clause] in Hfill;
        rewrite (set_len_elements _ set_empty_wf), set_elements_empty in Hfill;
        cbn in Hfill; [discriminate|].
      unfold mbind in Hfill. rewrite draw_lit_raise in Hfill by lia. discriminate. }
    destruct (inv_spec_ret_inv world_wf _ _ _ _ _
      (fill_clause_spec fuel rfuel n set_empty Hn set_empty_wf
        ltac:(rewrite set_elements_empty; constructor)
        ltac:(rewrite set_elements_empty; simpl; lia)) Hw Hfill) as (Hw1 & _ & Hok).
    pose proof (fill_clause_keeps_files fuel rfuel n set_empty w) as Hf.
    rewrite Hfill in Hf. cbn [snd] in Hf.
    unfold mbind in Hrest. rewrite f_write_run in Hrest.
    rewrite Hf, Hold in Hrest.
    edestruct IH as (cls & Hlen & Hall & Hpath & Hw' & Hother); [| |exact Hrest|].
    + exact Hw1.
    + apply lookup_insert_eq.
    + exists (set_elements c :: cls). split; [simpl; lia|]. split; [by constructor|].
      split; [rewrite Hpath; cbn [map concat]; by rewrite app_assoc|].
      split; [done|]. intros p Hp. rewrite Hother by done. cbn [w_files].
      by rewrite lookup_insert_ne by congruence.
Qed.

(** *** The whole write *)

Lemma write_instance_unfold fuel rfuel n m path (w : world St) :
  write_instance fuel rfuel n m path w =
    gen_clauses (Z.to_nat m) fuel rfuel n path
      (mkWorld (w_rng w) (<[path := header n m]> (w_files w))).
Proof.
  unfold write_instance, mbind, open_w. rewrite f_write_run. cbn [w_files w_rng].
  rewrite lookup_insert_eq. cbn [app]. by rewrite insert_insert_eq.
Qed.

(** When lines 4 to 13 run to the end, the file at [path] holds the header
    [p cnf n m] and exactly [max(m, 0)] clause lines, each made of three
    distinct non-zero literals of absolute value at most [n] followed by
    [0]; no other file has changed. *)
Lemma write_instance_output fuel rfuel n m path (w w' : world St) :
  world_wf w -> write_instance fuel rfuel n m path w = (Ret tt, w') ->
  exists cls, length cls = Z.to_nat m /\ Forall (clause_ok n) cls /\
    w_files w' !! path = Some (dimacs_text n m cls) /\
    (forall p, p <> path -> w_files w' !! p = w_files w !! p).
Proof.
  intros Hw Hrun. rewrite write_instance_unfold in Hrun.
  edestruct gen_clauses_ret as (cls & Hlen & Hall & Hpath & _ & Hother);
    [| |exact Hrun|]; [exact Hw|apply lookup_insert_eq|].
  exists cls. split; [done|]. split; [done|]. split; [exact Hpath|].
  intros p Hp. rewrite Hother by done. cbn [w_files]. by rewrite lookup_insert_ne by congruence.
Qed.

(** C2: With [n <= 0] and at least one clause to write, [randrange(1, n + 1)]
    raises [ValueError] on the first draw: the run stops with that
    exception, the file at [path] holding only the header line. *)
Theorem write_instance_nonpos_vars f rfuel n m path (w : world St) :
  n <= 0 -> 0 < m ->
  write_instance (S f) rfuel n m path w =
    (Raise ValueError, mkWorld (w_rng w) (<[path := header n m]> (w_files w))).
Proof.
  intros Hn Hm. rewrite write_instance_unfold.
  destruct (Z.to_nat m) as [|k] eqn:E; [lia|]. cbn [gen_clauses fill_clause].
  rewrite (set_len_elements _ set_empty_wf), set_elements_empty. cbn [length Nat.ltb Nat.leb].
  unfold mbind. by rewrite draw_lit_raise by done.
Qed.

(** C21: With [m <= 0], [range(m)] is empty: lines 4 to 13 write the
    header and nothing else, draw nothing from the generator and return,
    whatever [n] is. *)
Theorem write_instance_no_clauses fuel rfuel n m path (w : world St) :
  m <= 0 ->
  write_instance fuel rfuel n m path w =
    (Ret tt, mkWorld (w_rng w) (<[path := header n m]> (w_files w))).
Proof. intros Hm. rewrite write_instance_unfold. by replace (Z.to_nat m) with 0%nat by lia. Qed.

Lemma lit_ok_one_length (l : list Z) :
  NoDup l -> Forall (lit_ok 1) l -> (length l <= 2)%nat.
Proof.
  intros Hnd Hall. change 2%nat with (length [1; -1]).
  apply submseteq_length, NoDup_submseteq; [done|]. intros x Hx.
  rewrite Forall_forall in Hall. destruct (Hall x Hx) as [Hx0 Hx1].
  destruct (Z.abs_spec x) as [[_ Ha]|[_ Ha]].
  - assert (x = 1) as -> by lia. set_solver.
  - assert (x = -1) as -> by lia. set_solver.
Qed.

Lemma fill_clause_one_var fuel rfuel c :
  wf c -> Forall (lit_ok 1) (set_elements c) ->
  inv_spec world_wf (fill_clause fuel rfuel 1 c) (fun _ => False).
Proof.
  revert c. induction fuel as [|f IH]; intros c Hc Hall; cbn [fill_clause];
    rewrite (set_len_elements c Hc);
    pose proof (lit_ok_one_length _ (set_elements_NoDup c Hc) Hall);
    (destruct (Nat.ltb_spec (length (set_elements c)) 3); [|lia]).
  - inv_spec_step.
  - inv_spec_call draw_lit_spec as l Hl; [lia|].
    assert (set_room (set_len c)) as Hr
      by (rewrite (set_len_elements c Hc); apply set_room_small; lia).
    apply IH; [by apply set_add_wf|by apply elements_add_Forall].
Qed.

(** C3: With [n = 1] and at least one clause to write, the loop of lines 8 to
    12 can never collect three distinct literals (only [1] and [-1]
    exist): the run never ends, whatever fuel the model is given. *)
Theorem write_instance_one_var_diverges fuel rfuel m path (w : world St) :
  world_wf w -> 0 < m -> (write_instance fuel rfuel 1 m path w).1 = OutOfFuel.
Proof.
  intros Hw Hm. rewrite write_instance_unfold.
  destruct (Z.to_nat m) as [|k] eqn:E; [lia|]. cbn [gen_clauses]. unfold mbind.
  set (w1 := mkWorld _ _).
  pose proof (inv_spec_diverges world_wf (fill_clause fuel rfuel 1 set_empty) w1
    (fill_clause_one_var fuel rfuel set_empty set_empty_wf
      ltac:(rewrite set_elements_empty; constructor)) Hw) as Hd.
  destruct (fill_clause fuel rfuel 1 set_empty w1) as [o w2]. cbn in Hd. by subst o.
Qed.

End ScriptProofs.

(** Line 2: [n, m, seed, path = int(sys.argv[1]), int(sys.argv[2]),
    int(sys.argv[3]), sys.argv[4]], evaluated left to right. *)
Definition parse_args (argv : list text) : outcome (Z * Z * Z * text) :=
  match argv_int argv 1 with
  | Ret n =>
      match argv_int argv 2 with
      | Ret m =>
          match argv_int argv 3 with
          | Ret seed =>
              match argv_get argv 4 with
              | Ret path => Ret (n, m, seed, path)
              | Raise e => Raise e
              | OutOfFuel => OutOfFuel
              end
          | Raise e => Raise e
          | OutOfFuel => OutOfFuel
          end
      | Raise e => Raise e
      | OutOfFuel => OutOfFuel
      end
  | Raise e => Raise e
  | OutOfFuel => OutOfFuel
  end.

Definition lift_outcome {S A} (o : outcome A) : PyM S A := fun s => (o, s).

(** Lines 3 to 13 on CPython's generator and sets. *)
Definition run_seeded (fuel rfuel : nat) (n m seed : Z) (path : text)
    : PyM (world MT19937.state) unit :=
  rng (PyRandom.seed seed) ;;;
  @write_instance MT19937.state CPySet.setobject _ CPySet.cpyset_ops fuel rfuel n m path.

(** The whole script. *)
Definition main (fuel rfuel : nat) (argv : list text) : PyM (world MT19937.state) unit :=
  let* args := lift_outcome (parse_args argv) in
  let '(n, m, seed, path) := args in
  run_seeded fuel rfuel n m seed path.

(** ** The whole script *)

Lemma random_seed_opp st a : MT19937.random_seed st (- a) = MT19937.random_seed st a.
Proof. unfold MT19937.random_seed. by rewrite MT19937.seed_key_opp. Qed.

(** C23: The seed's sign is lost: run with seed [-z] instead of [z] (and the
    same other arguments), the script does exactly the same thing, so the two
    output files are byte-identical. *)
Theorem main_seed_sign fuel rfuel a0 a1 a2 s s' rest z (w : world MT19937.state) :
  py_int s = Some z -> py_int s' = Some (- z) ->
  main fuel rfuel (a0 :: a1 :: a2 :: s' :: rest) w = main fuel rfuel (a0 :: a1 :: a2 :: s :: rest) w.
Proof.
  intros Hs Hs'. unfold main, parse_args, argv_int, argv_get, mbind, lift_outcome.
  cbn [lookup list_lookup]. rewrite Hs, Hs'.
  destruct (py_int a1), (py_int a2); try done. destruct (rest !! 0%nat); [|done].
  unfold run_seeded, mbind, rng, PyRandom.seed. by rewrite random_seed_opp.
Qed.

(** C1: A run of the whole script that ends normally, on arguments that line
    2 reads as [n], [m], [seed] and [path], leaves in the file at [path] the
    header [p cnf n m] and [max(m, 0)] clause lines of three distinct
    literals in [[-n, n] \ {0}], and no other file changed; this holds on
    CPython's generator and CPython's set table. *)
Theorem main_output fuel rfuel argv n m seed path (w w' : world MT19937.state) :
  MT19937.arr_wf (MT19937.mt (w_rng w)) ->
  parse_args argv = Ret (n, m, seed, path) -> main fuel rfuel argv w = (Ret tt, w') ->
  exists cls, length cls = Z.to_nat m /\ Forall (clause_ok n) cls /\
    w_files w' !! path = Some (dimacs_text n m cls) /\
    (forall p, p <> path -> w_files w' !! p = w_files w !! p).
Proof.
  intros Hrng Hargs Hrun. unfold main, mbind, lift_outcome in Hrun. rewrite Hargs in Hrun.
  unfold run_seeded, mbind, rng, PyRandom.seed in Hrun. cbn beta iota in Hrun.
  eapply (@write_instance_output _ _ _ _ _ CPySet.cpyset_laws) in Hrun;
    [|by apply MT19937.random_seed_wf].
  exact Hrun.
Qed.

Lemma parse_args_short argv : (length argv <= 4)%nat -> exists e, parse_args argv = Raise e.
Proof.
  intros Hlen.
  assert (match parse_args argv with Raise _ => True | _ => False end) as H.
  { unfold parse_args, argv_int, argv_get.
    destruct argv as [|a0 [|a1 [|a2 [|a3 [|a4 rest]]]]]; cbn [lookup list_lookup length] in *;
      try lia; repeat case_match; done. }
  destruct (parse_args argv); [done| |done]. by eexists.
Qed.

(** An error of line 2 is raised before anything else happens. *)
Lemma main_parse_error fuel rfuel argv e (w : world MT19937.state) :
  parse_args argv = Raise e -> main fuel rfuel argv w = (Raise e, w).
Proof. intros He. unfold main, mbind, lift_outcome. by rewrite He. Qed.

(** C24: With fewer than four arguments after the script name, line 2 raises
    ([IndexError], or [ValueError] for an argument that is not an integer)
    before anything is seeded, opened or written. *)
Theorem main_short_argv fuel rfuel argv (w : world MT19937.state) :
  (length argv <= 4)%nat -> exists e, main fuel rfuel argv w = (Raise e, w).
Proof.
  intros Hlen. destruct (parse_args_short argv Hlen) as [e He].
  exists e. by apply main_parse_error.
Qed.

(** C20: Line 2 evaluates its conversions left to right: when the arguments
    before [sys.argv[i]] ([1 <= i <= 3]) are integers and [sys.argv[i]] is
    not, the script raises [ValueError], whatever follows (later arguments
    may be missing), and nothing is seeded, opened or written. *)
Theorem main_bad_int fuel rfuel argv i a (w : world MT19937.state) :
  (1 <= i <= 3)%nat -> argv !! i = Some a -> py_int a = None ->
  (forall j, (1 <= j < i)%nat -> exists a', argv !! j = Some a' /\ is_Some (py_int a')) ->
  main fuel rfuel argv w = (Raise ValueError, w).
Proof.
  intros Hi Ha Hbad Hprev. apply main_parse_error.
  assert (argv_int argv i = Raise ValueError) as Hv by (unfold argv_int, argv_get; by rewrite Ha, Hbad).
  assert (forall j, (1 <= j < i)%nat -> exists z, argv_int argv j = Ret z) as Hok.
  { intros j Hj. destruct (Hprev j Hj) as (a' & Ha' & [z Hz]).
    exists z. unfold argv_int, argv_get. by rewrite Ha', Hz. }
  unfold parse_args. destruct i as [|[|[|[|i]]]]; try lia.
  - by rewrite Hv.
  - destruct (Hok 1%nat) as [z1 H1]; [lia|]. by rewrite H1, Hv.
  - destruct (Hok 1%nat) as [z1 H1]; [lia|]. destruct (Hok 2%nat) as [z2 H2]; [lia|].
    by rewrite H1, H2, Hv.
Qed.

(** ** Witnesses *)

Definition fresh_world : world MT19937.state := mkWorld MT19937.fresh ∅.


(** ** Witnesses, on the seeded Mersenne Twister and CPython's set *)

Lemma main_seed_sign_witness :
  py_int (txt "42") = Some 42 /\ py_int (txt "-42") = Some (- 42) /\
  main 100 100 (map txt ["gen"; "5"; "3"; "-42"; "out.cnf"]) fresh_world =
  main 100 100 (map txt ["gen"; "5"; "3"; "42"; "out.cnf"]) fresh_world.
Proof.
  split; [reflexivity|]. split; [reflexivity|].
  apply main_seed_sign with (z := 42); reflexivity.
Defined.

Lemma main_short_argv_witness :
  (length (map txt ["gen"; "3"; "4"]) <= 4)%nat /\
  exists e, main 100 100 (map txt ["gen"; "3"; "4"]) fresh_world = (Raise e, fresh_world).
Proof. split; [simpl; lia|]. apply main_short_argv. simpl; lia. Defined.

Definition world0 (seed : Z) : world MT19937.state :=
  mkWorld (MT19937.random_seed MT19937.fresh seed) ∅.

Lemma world0_wf seed : world_wf (world0 seed).
Proof. apply seeded_wf. Qed.

Lemma write_instance_nonpos_vars_witness :
  0 <= 0 /\ 0 < 2 /\
  @write_instance MT19937.state CPySet.setobject mt19937_source CPySet.cpyset_ops 1 100 0 2 (txt "out.cnf") (world0 0) =
    (Raise ValueError, mkWorld (w_rng (world0 0)) (<[txt "out.cnf" := header 0 2]> (w_files (world0 0)))).
Proof.
  split; [lia|]. split; [lia|].
  apply (@write_instance_nonpos_vars MT19937.state CPySet.setobject mt19937_source CPySet.cpyset_ops CPySet.set_wf CPySet.cpyset_laws); lia.
Defined.

Lemma write_instance_one_var_diverges_witness :
  world_wf (world0 7) /\ 0 < 3 /\
  (@write_instance MT19937.state CPySet.setobject mt19937_source CPySet.cpyset_ops 50 50 1 3 (txt "out.cnf") (world0 7)).1 = OutOfFuel.
Proof.
  split; [apply world0_wf|]. split; [lia|].
  apply (@write_instance_one_var_diverges MT19937.state CPySet.setobject mt19937_source CPySet.cpyset_ops CPySet.set_wf CPySet.cpyset_laws);
    [apply world0_wf|lia].
Defined.

Lemma main_output_witness :
  let argv := map txt ["gen_random_3sat.py"; "3"; "4"; "0"; "out.cnf"] in
  let run := main 100 100 argv fresh_world in
  MT19937.arr_wf (MT19937.mt (w_rng fresh_world)) /\
  parse_args argv = Ret (3, 4, 0, txt "out.cnf") /\ run = (Ret tt, run.2) /\
  w_files run.2 !! txt "out.cnf" =
    Some (dimacs_text 3 4 [[2; -3; -2]; [1; 2; -2]; [1; 2; 3]; [1; 3; -2]]) /\
  exists cls, length cls = Z.to_nat 4 /\ Forall (clause_ok 3) cls /\
    w_files run.2 !! txt "out.cnf" = Some (dimacs_text 3 4 cls) /\
    (forall p, p <> txt "out.cnf" -> w_files run.2 !! p = w_files fresh_world !! p).
Proof.
  intros argv run.
  assert (parse_args argv = Ret (3, 4, 0, txt "out.cnf")) as Hargs by reflexivity.
  assert (run = (Ret tt, run.2)) as Hrun by (vm_compute; reflexivity).
  split; [apply MT19937.fresh_arr_wf|]. split; [exact Hargs|]. split; [exact Hrun|].
  split; [vm_compute; reflexivity|].
  eapply main_output; [apply MT19937.fresh_arr_wf|exact Hargs|exact Hrun].
Defined.

(** With [n = 2] the loop ends: the signed literals [1], [-1], [2], [-2]
    are four, and seed 1 draws three distinct ones in its first three draws. *)
Lemma fill_clause_live_witness :
  @draw_lits MT19937.state mt19937_source 3 100 2 (world0 1) =
    (Ret [1; -1; 2], (@draw_lits MT19937.state mt19937_source 3 100 2 (world0 1)).2) /\
  (3 <= 3)%nat /\ (3 <= length (list_adds [] [1; -1; 2]%Z))%nat /\
  exists c w'', @fill_clause MT19937.state CPySet.setobject mt19937_source CPySet.cpyset_ops
                  3 100 2 (@set_empty _ CPySet.cpyset_ops) (world0 1) = (Ret c, w'') /\ CPySet.set_wf c /\
    exists p : list Z, p `prefix_of` [1; -1; 2] /\ length (list_adds [] p) = 3%nat /\
      @set_elements _ CPySet.cpyset_ops c ≡ₚ list_adds [] p.
Proof.
  assert (@draw_lits MT19937.state mt19937_source 3 100 2 (world0 1) =
    (Ret [1; -1; 2], (@draw_lits MT19937.state mt19937_source 3 100 2 (world0 1)).2)) as H1
    by (vm_compute; reflexivity).
  assert (3 <= length (list_adds [] [1; -1; 2]%Z))%nat as H3 by (vm_compute; lia).
  split_and!; [exact H1|lia|exact H3|].
  exact (@fill_clause_live MT19937.state CPySet.setobject mt19937_source CPySet.cpyset_ops
           CPySet.set_wf CPySet.cpyset_laws 3 3 100 2 _ _ _ H1 (le_n 3) H3).
Defined.

Lemma write_instance_no_clauses_witness :
  -3 <= 0 /\
  @write_instance MT19937.state CPySet.setobject mt19937_source CPySet.cpyset_ops 10 100 0 (-3)
    (txt "out.cnf") (world0 7) =
    (Ret tt, mkWorld (w_rng (world0 7)) (<[txt "out.cnf" := header 0 (-3)]> (w_files (world0 7)))).
Proof.
  split; [lia|].
  apply (@write_instance_no_clauses MT19937.state CPySet.setobject mt19937_source CPySet.cpyset_ops).
  lia.
Defined.

Lemma main_bad_int_witness :
  (1 <= 2 <= 3)%nat /\ map txt ["gen"; "5"; "x"] !! 2%nat = Some (txt "x") /\ py_int (txt "x") = None /\
  (forall j, (1 <= j < 2)%nat -> exists a', map txt ["gen"; "5"; "x"] !! j = Some a' /\ is_Some (py_int a')) /\
  main 100 100 (map txt ["gen"; "5"; "x"]) fresh_world = (Raise ValueError, fresh_world).
Proof.
  assert (forall j, (1 <= j < 2)%nat -> exists a', map txt ["gen"; "5"; "x"] !! j = Some a' /\ is_Some (py_int a'))
    as Hprev.
  { intros j Hj. replace j with 1%nat by lia. eexists. split; [reflexivity|]. eexists. reflexivity. }
  assert (py_int (txt "x") = None) as Hx by reflexivity.
  split; [lia|]. split; [reflexivity|]. split; [exact Hx|]. split; [exact Hprev|].
  exact (main_bad_int 100 100 (map txt ["gen"; "5"; "x"]) 2 (txt "x") fresh_world ltac:(lia) eq_refl Hx Hprev).
Defined.

End Gen3Sat.
