(* ===== verification/Plot.v ===== *)
(** * The result plotter, src/plot/results_plot.py

    The script reads the CSV file named by [sys.argv[1]] with
    [pandas.read_csv] (line 3), plots the column [time_sec] against the
    column [vars] (line 4), sets the labels and the title (lines 5 to 7) and
    saves the figure to [sys.argv[2]] (line 8).

    The process state [pworld] holds the files (path to contents) and
    pyplot's current figure, which [plt.plot], [plt.xlabel], [plt.ylabel]
    and [plt.title] create on first use.  A figure is kept as the data
    pyplot holds for it: its lines (the x and y values of each [Line2D]),
    its labels and its title.  The bytes a backend renders from it are not
    modelled: [savefig] and [main] take the renderer as a section variable
    [render], and [savefig] writes [render fmt fig] into the same file map
    the CSV is read from, at the name matplotlib's [print_figure] chooses
    (the path, or [path.rstrip('.') + '.png'] when it has no extension).

    [read_csv] is modelled after pandas' C parser with the default options:
    lines end at [\n], [\r\n] or a lone [\r], blank and whitespace lines
    are skipped, the first line names the columns, fields are split at [,],
    a short row is padded with missing values, when the first data row has
    [k] fields more than the header its first [k] fields (in every row) are
    the index, a row longer than the header and those [k] index fields
    raises [ParserError], and each
    column gets the first type that fits all its fields: [int64], [float64],
    or strings ([object]), with pandas' missing-value strings read as [NaN].
    Quoting, [uint64] columns, booleans, [inf], the renaming of duplicate
    column names and the rounding of decimal fractions to doubles are left
    out: a float field is kept as the exact rational it denotes.

    Besides the runs of the script, the theorems show which errors the
    parser raises ([parse_csv_errors]) and that a table of [int64] values
    with distinct plain column names, written as [csv_text] writes it,
    reads back as its columns ([read_csv_roundtrip]). *)

From stdpp Require Import base list strings gmap.
From Stdlib Require Import ZArith QArith Ascii Lia.
From S2P Require Import Prelude PyInt.

Module Plot.
Import PyInt.
Local Open Scope Z_scope.

(** ** Text *)

(** The lines of a file as pandas' C tokenizer ends them: at [\n], at
    [\r\n] and at a lone [\r].  Splitting at [\n] and then at [\r] makes
    an empty line of every [\r\n]; blank lines are skipped, so the lines
    [read_csv] keeps are those of the tokenizer. *)
Definition split_lines (t : text) : list text :=
  concat (map (split_on "013"%char) (split_on "010"%char t)).

(** [IS_WHITESPACE] of pandas' tokenizer. *)
Definition is_ws (c : ascii) : bool := bool_decide (c = " "%char) || bool_decide (c = "009"%char).

Definition is_blank (l : text) : bool := forallb is_ws l.

(** ** Numbers in fields

    [str_to_int64] and [xstrtod] of pandas: leading and trailing ASCII
    white space, a sign, digits, and for a float an optional fraction and
    exponent. *)
Fixpoint skip_space (s : text) : text :=
  match s with
  | c :: s' => if is_space c then skip_space s' else s
  | [] => []
  end.

Definition trailing_ok (s : text) : bool := forallb is_space s.

Definition sign (s : text) : Z * text :=
  match s with
  | c :: s' => if decide (c = "-"%char) then (-1, s')
               else if decide (c = "+"%char) then (1, s') else (1, s)
  | [] => (1, s)
  end.

(** The leading digits of [s] and the rest. *)
Fixpoint digits (s : text) : list nat * text :=
  match s with
  | c :: s' => match digit_val c with
               | Some d => let '(ds, r) := digits s' in (d :: ds, r)
               | None => ([], s)
               end
  | [] => ([], [])
  end.

Definition INT64_MIN : Z := - 2 ^ 63.
Definition INT64_MAX : Z := 2 ^ 63 - 1.

Definition parse_int (f : text) : option Z :=
  let '(sg, s) := sign (skip_space f) in
  let '(ds, r) := digits s in
  if decide (ds = []) then None
  else if trailing_ok r then
    let v := sg * digits_value ds in
    if (INT64_MIN <=? v) && (v <=? INT64_MAX) then Some v else None
  else None.

(** [10^e] as a rational, for any integer [e]. *)
Definition pow10 (e : Z) : Q :=
  if 0 <=? e then inject_Z (10 ^ e) else 1 # Z.to_pos (10 ^ (- e)).

Definition parse_exponent (s : text) : Z * text :=
  match s with
  | c :: s' =>
      if bool_decide (c = "e"%char) || bool_decide (c = "E"%char) then
        let '(sg, t) := sign s' in
        let '(ds, r) := digits t in
        if decide (ds = []) then (0, s) else (sg * digits_value ds, r)
      else (0, s)
  | [] => (0, s)
  end.

Definition parse_float (f : text) : option Q :=
  let '(sg, s) := sign (skip_space f) in
  let '(ids, s) := digits s in
  let '(fds, s) := match s with
                   | c :: s' => if decide (c = "."%char) then digits s' else ([], s)
                   | [] => ([], s)
                   end in
  if decide (ids = [] /\ fds = []) then None else
  let '(e, r) := parse_exponent s in
  if trailing_ok r then
    Some (inject_Z (sg * digits_value (ids ++ fds)) * pow10 (e - Z.of_nat (length fds)))%Q
  else None.

(** The strings pandas reads as a missing value by default. *)
Definition na_values : list text :=
  map txt [""; "#N/A"; "#N/A N/A"; "#NA"; "-1.#IND"; "-1.#QNAN"; "-NaN"; "-nan";
           "1.#IND"; "1.#QNAN"; "<NA>"; "N/A"; "NA"; "NULL"; "NaN"; "None";
           "n/a"; "nan"; "null"].

Definition is_na (f : text) : bool := bool_decide (f ∈ na_values).

(** ** Frames *)

(** A value of a column: [int64], [float64], missing, or a string. *)
Inductive cell : Type :=
  | CInt (z : Z)
  | CFloat (q : Q)
  | CNaN
  | CStr (s : text).

(** A [DataFrame]: its columns in order, each with its name. *)
Definition frame : Type := list (text * list cell).

Definition is_int_field (f : text) : bool :=
  match parse_int f with Some _ => true | None => false end.

Definition is_float_field (f : text) : bool :=
  match parse_float f with Some _ => true | None => false end.

(** The type inference of the C parser for one column. *)
Definition infer_column (fs : list text) : list cell :=
  if forallb (fun f => is_na f || is_int_field f) fs then
    if existsb is_na fs then
      map (fun f => match parse_int f with
                    | Some z => if is_na f then CNaN else CFloat (inject_Z z)
                    | None => CNaN
                    end) fs
    else map (fun f => match parse_int f with Some z => CInt z | None => CNaN end) fs
  else if forallb (fun f => is_na f || is_float_field f) fs then
    map (fun f => if is_na f then CNaN
                  else match parse_float f with Some q => CFloat q | None => CNaN end) fs
  else map (fun f => if is_na f then CNaN else CStr f) fs.

Definition field (r : list text) (j : nat) : text :=
  match r !! j with Some f => f | None => [] end.

(** [pd.read_csv] on the text of a file. *)
Definition parse_csv (t : text) : outcome frame :=
  match filter (fun l => negb (is_blank l)) (split_lines t) with
  | [] => Raise EmptyDataError
  | h :: rows =>
      let cols := split_on ","%char h in
      let rs := map (split_on ","%char) rows in
      let off := match rs with r :: _ => (length r - length cols)%nat | [] => 0%nat end in
      if existsb (fun r => (length cols + off <? length r)%nat) rs then Raise ParserError
      else Ret (imap (fun j c => (c, infer_column (map (fun r => field r (j + off)) rs))) cols)
  end.

(** [df[key]]: the first column of that name, or [KeyError]. *)
Definition getitem (df : frame) (key : text) : outcome (list cell) :=
  match list_find (fun c => c.1 = key) df with
  | Some (_, (_, col)) => Ret col
  | None => Raise KeyError
  end.

(** ** pyplot *)

(** A [Line2D]: its x and y data. *)
Record line2d : Type := mkLine { xdata : list cell; ydata : list cell }.

Record figure : Type := mkFigure {
  fig_lines : list line2d;
  fig_xlabel : text;
  fig_ylabel : text;
  fig_title : text
}.

Definition empty_figure : figure := mkFigure [] [] [] [].

(** The process state: the files (path to contents, the images [savefig]
    writes included) and pyplot's current figure. *)
Record pworld : Type := mkPWorld {
  pw_files : gmap text text;
  pw_fig : option figure
}.

(** A call of the script that cannot fail or change the state. *)
Definition lift {A} (o : outcome A) : PyM pworld A := fun w => (o, w).

(** [plt.gcf()]: the current figure, created empty when there is none. *)
Definition gcf (w : pworld) : figure :=
  match pw_fig w with Some f => f | None => empty_figure end.

Definition set_fig (f : figure -> figure) : PyM pworld unit :=
  fun w => (Ret tt, mkPWorld (pw_files w) (Some (f (gcf w)))).

(** [pd.read_csv(path)]. *)
Definition read_csv (path : text) : PyM pworld frame :=
  fun w => match pw_files w !! path with
           | Some t => (parse_csv t, w)
           | None => (Raise FileNotFoundError, w)
           end.

(** [plt.plot(x, y)]: a line is added to the current axes; [x] and [y] must
    have the same length. *)
Definition plot (x y : list cell) : PyM pworld unit :=
  if decide (length x = length y) then
    set_fig (fun f => mkFigure (fig_lines f ++ [mkLine x y]) (fig_xlabel f) (fig_ylabel f) (fig_title f))
  else mthrow ValueError.

Definition xlabel (s : text) : PyM pworld unit :=
  set_fig (fun f => mkFigure (fig_lines f) s (fig_ylabel f) (fig_title f)).

Definition ylabel (s : text) : PyM pworld unit :=
  set_fig (fun f => mkFigure (fig_lines f) (fig_xlabel f) s (fig_title f)).

Definition title (s : text) : PyM pworld unit :=
  set_fig (fun f => mkFigure (fig_lines f) (fig_xlabel f) (fig_ylabel f) s).

(** The formats [savefig] knows, by file extension. *)
Definition supported_formats : list text :=
  map txt ["eps"; "jpeg"; "jpg"; "pdf"; "pgf"; "png"; "ps"; "raw"; "rgba";
           "svg"; "svgz"; "tif"; "tiff"; "webp"].

Definition lower (c : ascii) : ascii :=
  let n := nat_of_ascii c in
  if ((65 <=? n) && (n <=? 90))%nat then ascii_of_nat (n + 32) else c.

(** [os.path.splitext(path)[1][1:]]: what follows the last [.] of the last
    component of the path, leading dots of that component not counting. *)
Fixpoint skip_dots (s : text) : text :=
  match s with
  | c :: s' => if decide (c = "."%char) then skip_dots s' else s
  | [] => []
  end.

Definition extension (path : text) : text :=
  let base := skip_dots (default [] (last (split_on "/"%char path))) in
  match split_on "."%char base with
  | _ :: _ :: _ => default [] (last (split_on "."%char base))
  | _ => []
  end.

(** [str.rstrip('.')]. *)
Definition rstrip_dots (s : text) : text := reverse (skip_dots (reverse s)).

(** The format and the file name [savefig(path)] writes, as
    [FigureCanvasBase.print_figure] chooses them: the lower-cased extension
    and [path] itself; when the extension is empty, [png]
    (rcParams["savefig.format"]) and [path.rstrip('.') + '.png'];
    [ValueError] when the extension names no known format. *)
Definition savefig_target (path : text) : outcome (text * text) :=
  match map lower (extension path) with
  | [] => Ret (txt "png", rstrip_dots path ++ txt ".png")
  | e => if bool_decide (e ∈ supported_formats) then Ret (e, path) else Raise ValueError
  end.

Section Render.
(** The bytes a backend writes for a figure in a format.  The backends are
    not modelled: the renderer is a variable of the section, so [savefig],
    [main] and the theorems about them hold for any renderer. *)
Variable render : text -> figure -> text.

(** [plt.savefig(path)]: the current figure, rendered, is written to the
    file [savefig_target] names, replacing what was there. *)
Definition savefig (path : text) : PyM pworld unit :=
  fun w => match savefig_target path with
           | Ret (fmt, fname) =>
               (Ret tt, mkPWorld (<[fname := render fmt (gcf w)]> (pw_files w)) (Some (gcf w)))
           | Raise e => (Raise e, w)
           | OutOfFuel => (OutOfFuel, w)
           end.

(** The whole script.  Python evaluates [sys.argv[2]] at line 8, after the
    figure is drawn. *)
Definition main (argv : list text) : PyM pworld unit :=
  let* inp := lift (argv_get argv 1) in
  let* df := read_csv inp in
  let* x := lift (getitem df (txt "vars")) in
  let* y := lift (getitem df (txt "time_sec")) in
  plot x y ;;;
  xlabel (txt "variables") ;;;
  ylabel (txt "seconds") ;;;
  title (txt "DPLL (JW)") ;;;
  let* out := lift (argv_get argv 2) in
  savefig out.

(** ** Frames are rectangular *)

Lemma infer_column_length fs : length (infer_column fs) = length fs.
Proof. unfold infer_column. repeat case_match; apply length_map. Qed.

(** Every column of a parsed frame has one value per data row. *)
Lemma parse_csv_rect t df :
  parse_csv t = Ret df -> exists nrows, Forall (fun c => length c.2 = nrows) df.
Proof.
  unfold parse_csv. destruct (filter _ _) as [|h rows]; [done|].
  case_match; [done|]. intros [= <-]. exists (length rows).
  apply Forall_lookup. intros i c (y & _ & ->)%list_lookup_imap_Some.
  cbn -[infer_column]. by rewrite infer_column_length, !length_map.
Qed.

Lemma filter_negb_nil {A} (f : A -> bool) (l : list A) :
  filter (fun x => negb (f x)) l = [] <-> Forall (fun x => f x = true) l.
Proof.
  induction l as [|x l IH]; [split; [constructor|done]|].
  rewrite Forall_cons, filter_cons, <- IH. clear IH.
  case_decide as Hx; destruct (f x); cbn in Hx; try done; firstorder congruence.
Qed.


Lemma getitem_Ret df key col : getitem df key = Ret col -> (key, col) ∈ df.
Proof.
  unfold getitem. destruct (list_find _ df) as [[i [k c]]|] eqn:E; [|done].
  intros [= <-]. apply list_find_Some in E as (Hi & Hk & _). cbn in Hk. subst k.
  by eapply list_elem_of_lookup_2.
Qed.

Lemma getitem_KeyError df key : key ∉ df.*1 -> getitem df key = Raise KeyError.
Proof.
  intros Hk. unfold getitem. replace (list_find _ df) with (@None (nat * (text * list cell)));
    [done|]. symmetry. apply list_find_None, Forall_forall. intros [k c] Hc Hkk.
  cbn in Hkk. subst key. apply Hk. by apply (list_elem_of_fmap_2 fst) in Hc.
Qed.

Lemma getitem_cases df key : getitem df key = Raise KeyError \/ exists col, getitem df key = Ret col.
Proof. unfold getitem. destruct (list_find _ df) as [[i [k c]]|]; eauto. Qed.

Lemma getitem_same_length t df k1 k2 xs ys :
  parse_csv t = Ret df -> getitem df k1 = Ret xs -> getitem df k2 = Ret ys ->
  length xs = length ys.
Proof.
  intros Hp Hx%getitem_Ret Hy%getitem_Ret. destruct (parse_csv_rect t df Hp) as [n Hn].
  rewrite Forall_forall in Hn. pose proof (Hn _ Hx). pose proof (Hn _ Hy). cbn in *. lia.
Qed.

(** ** Reading back a table of integers

    A table as the benchmarking process writes it: a header line of column
    names, then one line of comma-separated integers per row.  It is not
    code of the repository; it is the input the plotter expects. *)
Definition csv_text (cols : list text) (rows : list (list Z)) : text :=
  join [","%char] cols ++ "010"%char ::
  concat (map (fun r => join [","%char] (map py_str r) ++ ["010"%char]) rows).

(** A column name or a field without white space, commas or quotes. *)
Definition plain (x : text) : Prop :=
  x <> [] /\ Forall (fun ch => is_space ch = false /\ ch <> ","%char /\ ch <> "034"%char) x.

Lemma digit_char_not_punct d : (d < 10)%nat -> digit_char d <> ","%char /\ digit_char d <> "034"%char.
Proof. intros Hd. do 10 (destruct d as [|d]; [split; discriminate|]). lia. Qed.

Lemma py_str_plain z : plain (py_str z).
Proof.
  destruct (py_str_no_space z) as [Hne Hsp]. split; [done|].
  eapply Forall_impl; [|intros ch H; exact H].
  apply Forall_forall. intros ch Hin. split; [rewrite Forall_forall in Hsp; by apply Hsp|].
  split; intros ->; revert Hin; (apply py_str_avoids; [done|]); intros d Hd;
    apply (digit_char_not_punct d Hd).
Qed.

Lemma Forall_join (P : ascii -> Prop) (xs : list text) :
  P ","%char -> Forall (Forall P) xs -> Forall P (join [","%char] xs).
Proof.
  intros Hc. induction 1 as [|x xs Hx Hxs IH]; [constructor|].
  destruct xs as [|y xs]; [done|].
  change (join [","%char] (x :: y :: xs)) with (x ++ ","%char :: join [","%char] (y :: xs)).
  apply Forall_app. split; [done|]. by constructor.
Qed.

(** A line of plain words joined by commas. *)
Lemma plain_line (xs : list text) :
  xs <> [] -> Forall plain xs ->
  let l := join [","%char] xs in
  split_on ","%char l = xs /\ ("010"%char ∉ l) /\ ("013"%char ∉ l) /\ is_blank l = false.
Proof.
  intros Hne Hxs l.
  assert (Forall (fun ch => is_space ch = false) l) as Hl.
  { apply Forall_join; [done|]. eapply Forall_impl; [exact Hxs|].
    intros x [_ Hx]. eapply Forall_impl; [exact Hx|]. by intros ch [? _]. }
  assert (forall ch, is_space ch = true -> ch ∉ l) as Hnot.
  { intros ch Hch Hin. rewrite Forall_forall in Hl. by rewrite (Hl ch Hin) in Hch. }
  split_and!.
  - apply split_on_join; [done|]. eapply Forall_impl; [exact Hxs|].
    intros x [_ Hx] Hin. rewrite Forall_forall in Hx. by destruct (Hx _ Hin) as (_ & ? & _).
  - by apply Hnot.
  - by apply Hnot.
  - destruct xs as [|x xs]; [done|]. inversion Hxs as [|? ? [Hx0 Hx] _]; subst.
    destruct x as [|ch x]; [done|]. inversion Hx as [|? ? [Hsp _] _]; subst.
    unfold l. destruct xs; cbn; unfold is_ws; rewrite ?bool_decide_false; try done;
      intros ->; discriminate.
Qed.

Lemma digits_of_digit_chars ds :
  Forall (fun d => d < 10)%nat ds -> digits (map digit_char ds) = (ds, []).
Proof.
  induction 1 as [|d ds Hd _ IH]; [done|]. cbn [map digits].
  by rewrite digit_val_char, IH.
Qed.

(** pandas reads [str(z)] back as [z] in the [int64] range. *)
Lemma parse_int_py_str z : INT64_MIN <= z <= INT64_MAX -> parse_int (py_str z) = Some z.
Proof.
  intros Hz. destruct (decimal_digits_spec (Z.abs z) ltac:(lia)) as (Hv & Hne & Hsmall).
  unfold parse_int, py_str. destruct (Z.ltb_spec z 0).
  - cbn [app skip_space]. change (is_space "-"%char) with false. cbn iota.
    cbn [sign]. rewrite decide_True by done. cbn iota beta.
    rewrite digits_of_digit_chars by done. cbn iota beta.
    rewrite decide_False by done. cbn [trailing_ok forallb]. rewrite Hv.
    replace (-1 * Z.abs z) with z by lia. unfold INT64_MIN, INT64_MAX in *.
    destruct (Z.leb_spec (- 2 ^ 63) z), (Z.leb_spec z (2 ^ 63 - 1)); cbn; lia || done.
  - destruct (decimal_digits (Z.abs z)) as [|d ds] eqn:E; [done|].
    inversion Hsmall as [|? ? Hd _]; subst.
    destruct (digit_char_not_sign d Hd) as [Hp Hm].
    cbn [app map skip_space]. rewrite digit_char_not_space by done. cbn iota.
    cbn [sign]. rewrite decide_False, decide_False by done. cbn iota beta.
    change (digit_char d :: map digit_char ds) with (map digit_char (d :: ds)).
    rewrite digits_of_digit_chars by done. cbn iota beta.
    rewrite decide_False by done. cbn [trailing_ok forallb]. rewrite Hv.
    replace (1 * Z.abs z) with z by lia. unfold INT64_MIN, INT64_MAX in *.
    destruct (Z.leb_spec (- 2 ^ 63) z), (Z.leb_spec z (2 ^ 63 - 1)); cbn; lia || done.
Qed.

Definition digit_or_minus (ch : ascii) : bool :=
  bool_decide (ch = "-"%char) || bool_decide (is_Some (digit_val ch)).

Lemma py_str_digit_or_minus z : forallb digit_or_minus (py_str z) = true.
Proof.
  destruct (decimal_digits_spec (Z.abs z) ltac:(lia)) as (_ & _ & Hsmall).
  apply forallb_forall. intros ch Hin%list_elem_of_In. unfold py_str in Hin.
  rewrite elem_of_app in Hin. destruct Hin as [Hin|Hin].
  - destruct (z <? 0); [|by inversion Hin]. apply list_elem_of_singleton in Hin as ->. done.
  - apply list_elem_of_fmap_1 in Hin as (d & -> & Hd). rewrite Forall_forall in Hsmall.
    unfold digit_or_minus. rewrite digit_val_char by (by apply Hsmall).
    apply orb_true_r.
Qed.

(** No missing-value string is made of digits and minus signs only. *)
Lemma py_str_not_na z : is_na (py_str z) = false.
Proof.
  unfold is_na. apply bool_decide_eq_false_2. intros Hin.
  assert (forallb (fun s => negb (forallb digit_or_minus s && negb (bool_decide (s = []))))
            na_values = true) as Hna by (vm_compute; reflexivity).
  rewrite forallb_forall in Hna. apply list_elem_of_In in Hin. specialize (Hna _ Hin).
  rewrite py_str_digit_or_minus in Hna. destruct (py_str_no_space z) as [Hne _].
  rewrite bool_decide_false in Hna by done. discriminate.
Qed.

(** A column of [str(z)] fields with [z] in the [int64] range is an
    [int64] column. *)
Lemma infer_column_ints zs :
  Forall (fun z => INT64_MIN <= z <= INT64_MAX) zs -> infer_column (map py_str zs) = map CInt zs.
Proof.
  intros Hzs. unfold infer_column.
  assert (forallb (fun f => is_na f || is_int_field f) (map py_str zs) = true) as ->.
  { apply forallb_forall. intros f Hf%list_elem_of_In.
    apply list_elem_of_fmap_1 in Hf as (z & -> & Hz). rewrite Forall_forall in Hzs.
    unfold is_int_field. rewrite parse_int_py_str by auto. apply orb_true_r. }
  assert (existsb is_na (map py_str zs) = false) as ->.
  { clear Hzs. induction zs as [|z zs IH]; [done|]. cbn. by rewrite py_str_not_na. }
  induction Hzs as [|z zs Hz _ IH]; [done|]. cbn [map]. by rewrite parse_int_py_str, IH.
Qed.

Lemma split_lines_no_cr (ls : list text) :
  Forall (fun l => "013"%char ∉ l) ls -> concat (map (split_on "013"%char) ls) = ls.
Proof.
  induction 1 as [|l ls Hl _ IH]; [done|]. cbn [map concat].
  by rewrite split_on_no_sep, IH.
Qed.

Section CsvTable.
Context (cols : list text) (rows : list (list Z)).
Hypothesis Hne : cols <> [].
Hypothesis Hcols : Forall plain cols.
Hypothesis Hrows :
  Forall (fun r => length r = length cols /\ Forall (fun z => INT64_MIN <= z <= INT64_MAX) r) rows.

Lemma csv_rows_plain : Forall (fun r => map py_str r <> [] /\ Forall plain (map py_str r)) rows.
Proof.
  eapply Forall_impl; [exact Hrows|]. intros r [Hl _]. split.
  - destruct r; [|done]. destruct cols; [done|discriminate].
  - apply Forall_map, Forall_forall. intros z _. apply py_str_plain.
Qed.

(** The lines [read_csv] keeps: the header and one line per row. *)
Lemma csv_text_lines :
  filter (fun l => negb (is_blank l)) (split_lines (csv_text cols rows)) =
  join [","%char] cols :: map (fun r => join [","%char] (map py_str r)) rows.
Proof.
  destruct (plain_line cols Hne Hcols) as (_ & Hnc & Hcr & Hbl).
  pose proof csv_rows_plain as Hr.
  set (R := map (fun r => join [","%char] (map py_str r)) rows).
  assert (Forall (fun l => ("010"%char ∉ l) /\ ("013"%char ∉ l) /\ is_blank l = false) R) as HR.
  { unfold R. apply Forall_map. eapply Forall_impl; [exact Hr|].
    intros r [Hne' Hp]. apply (plain_line _ Hne' Hp). }
  unfold split_lines, csv_text. rewrite split_on_app_sep by done.
  replace (concat (map _ rows)) with (concat (map (fun l => l ++ ["010"%char]) R))
    by (unfold R; by rewrite map_map).
  rewrite split_on_lines by (eapply Forall_impl; [exact HR|]; by intros l [? _]).
  rewrite split_lines_no_cr.
  - rewrite filter_cons_True by (by rewrite Hbl).
    rewrite filter_app, filter_cons_False, filter_nil, app_nil_r by (intros H; exact H).
    f_equal. apply list_filter_all. eapply Forall_impl; [exact HR|].
    intros l (_ & _ & Hb). by rewrite Hb.
  - constructor; [done|]. apply Forall_app. split; [|repeat constructor; intros H; inversion H].
    eapply Forall_impl; [exact HR|]. by intros l (_ & ? & _).
Qed.

(** The columns [read_csv] builds from the rows' fields. *)
Lemma csv_columns :
  let rs := map (fun r => map py_str r) rows in
  let off := match rs with r :: _ => (length r - length cols)%nat | [] => 0%nat end in
  (if existsb (fun r => (length cols + off <? length r)%nat) rs then Raise ParserError
   else Ret (imap (fun j c => (c, infer_column (map (fun r => field r (j + off)) rs))) cols)) =
  Ret (imap (fun j c => (c, map (fun r => CInt (nth j r 0)) rows)) cols).
Proof.
  intros rs off.
  assert (forall r, r ∈ rows -> length (map py_str r) = length cols) as Hlen.
  { intros r Hin. rewrite length_map. rewrite Forall_forall in Hrows. apply Hrows, Hin. }
  assert (off = 0%nat) as ->.
  { unfold off, rs. destruct rows as [|r rows']; [done|]. cbn [map].
    rewrite (Hlen r) by left. lia. }
  assert (existsb (fun r => (length cols + 0 <? length r)%nat) rs = false) as ->.
  { apply not_true_iff_false. intros (r & Hin & Hlt)%existsb_exists.
    apply list_elem_of_In, list_elem_of_fmap_1 in Hin as (r' & -> & Hin).
    rewrite (Hlen r' Hin) in Hlt. apply Nat.ltb_lt in Hlt. lia. }
  f_equal. apply imap_ext. intros j c Hj. f_equal. rewrite Nat.add_0_r.
  assert (Forall (fun r => (j < length r)%nat /\ Forall (fun z => INT64_MIN <= z <= INT64_MAX) r)
            rows) as Hj'.
  { eapply Forall_impl; [exact Hrows|]. intros r [Hl Hz]. split; [|done].
    apply lookup_lt_Some in Hj. lia. }
  replace (map (fun r => field r j) rs) with (map py_str (map (fun r => nth j r 0) rows)).
  - rewrite infer_column_ints, map_map; [done|]. apply Forall_map.
    eapply Forall_impl; [exact Hj'|]. intros r [Hl Hz]. rewrite Forall_forall in Hz.
    apply Hz, list_elem_of_In, nth_In. done.
  - unfold rs. rewrite !map_map. apply map_ext_in. intros r Hin%list_elem_of_In.
    rewrite Forall_forall in Hj'. destruct (Hj' r Hin) as [Hl _].
    unfold field. rewrite list_lookup_fmap.
    destruct (lookup_lt_is_Some_2 r j Hl) as [z Hz]. rewrite Hz. cbn.
    by rewrite (nth_lookup_Some r j 0 z Hz).
Qed.
End CsvTable.


(** ** The script *)

(** The figure lines 4 to 7 leave: the current figure with one more line,
    the labels and the title. *)
Definition drawn (w : pworld) (xs ys : list cell) : figure :=
  mkFigure (fig_lines (gcf w) ++ [mkLine xs ys]) (txt "variables") (txt "seconds") (txt "DPLL (JW)").

(** Lines 4 to 7 on two columns of the same length, then [k]. *)
Lemma draw_run {A} xs ys (k : PyM pworld A) (w : pworld) :
  length xs = length ys ->
  (plot xs ys ;;; xlabel (txt "variables") ;;; ylabel (txt "seconds") ;;;
   title (txt "DPLL (JW)") ;;; k) w =
  k (mkPWorld (pw_files w) (Some (drawn w xs ys))).
Proof. intros Hl. unfold plot. by rewrite decide_True by done. Qed.


(** C11: A CSV file without a column [vars] or without a column [time_sec]
    makes line 4 raise [KeyError] before anything is drawn or saved: the
    state is left as it was. *)
Theorem main_missing_column a0 inp rest t df (w : pworld) :
  pw_files w !! inp = Some t -> parse_csv t = Ret df ->
  txt "vars" ∉ df.*1 \/ txt "time_sec" ∉ df.*1 ->
  main (a0 :: inp :: rest) w = (Raise KeyError, w).
Proof.
  intros Hf Hp Hmiss. unfold main, mbind, lift, read_csv, argv_get. cbn [lookup list_lookup].
  rewrite Hf, Hp. destruct Hmiss as [Hv|Ht]; [by rewrite (getitem_KeyError _ _ Hv)|].
  destruct (getitem_cases df (txt "vars")) as [->|[xs ->]]; [done|].
  by rewrite (getitem_KeyError _ _ Ht).
Qed.

(** C25: Line 3 fails before anything is drawn, leaving the state as it
    was: with [FileNotFoundError] when no file is at the input path, and
    with the parser's error ([EmptyDataError] for a file without a line,
    [ParserError] for a row longer than the header) otherwise. *)
Theorem main_read_error a0 inp rest e (w : pworld) :
  (pw_files w !! inp = None /\ e = FileNotFoundError) \/
  (exists t, pw_files w !! inp = Some t /\ parse_csv t = Raise e) ->
  main (a0 :: inp :: rest) w = (Raise e, w).
Proof.
  intros He. unfold main, mbind, lift, read_csv, argv_get. cbn [lookup list_lookup].
  destruct He as [[-> ->]|(t & -> & ->)]; done.
Qed.


End Render.

(** ** Witnesses *)

(** A process that has the file [results.csv] with the text [csv]. *)
Definition pw0 (csv : text) : pworld := mkPWorld {[txt "results.csv" := csv]} None.

Definition spec_csv : text := txt "vars,time_sec" ++ ["010"%char] ++ txt "1,0.5" ++ ["010"%char] ++ txt "2,1.0".

(** A renderer for the witnesses: the format's name followed by the title. *)
Definition demo_render (fmt : text) (f : figure) : text := fmt ++ " "%char :: fig_title f.

(** A table whose rows end with a comma: the first field of each row is
    the index, so [vars] holds the times and [time_sec] missing values. *)
Definition trailing_csv : text :=
  txt "vars,time_sec" ++ ["010"%char] ++ txt "1,0.5," ++ ["010"%char] ++ txt "2,1.0," ++ ["010"%char].


Lemma main_missing_column_witness :
  let csv := txt "vars,time" ++ ["010"%char] ++ txt "1,2" in
  let df := [(txt "vars", [CInt 1]); (txt "time", [CInt 2])] in
  pw_files (pw0 csv) !! txt "results.csv" = Some csv /\ parse_csv csv = Ret df /\
  (txt "vars" ∉ df.*1 \/ txt "time_sec" ∉ df.*1) /\
  main demo_render [txt "p"; txt "results.csv"; txt "out.png"] (pw0 csv) = (Raise KeyError, pw0 csv).
Proof.
  intros csv df.
  assert (pw_files (pw0 csv) !! txt "results.csv" = Some csv) as Hf by reflexivity.
  assert (parse_csv csv = Ret df) as Hp by (vm_compute; reflexivity).
  assert (txt "vars" ∉ df.*1 \/ txt "time_sec" ∉ df.*1) as Hm
    by (right; apply (bool_decide_unpack _); vm_compute; exact I).
  split; [exact Hf|]. split; [exact Hp|]. split; [exact Hm|].
  exact (main_missing_column demo_render _ _ _ _ _ _ Hf Hp Hm).
Defined.

Lemma main_read_error_witness :
  ((pw_files (pw0 spec_csv) !! txt "missing.csv" = None /\ FileNotFoundError = FileNotFoundError) \/
   (exists t, pw_files (pw0 spec_csv) !! txt "missing.csv" = Some t /\ parse_csv t = Raise FileNotFoundError)) /\
  main demo_render [txt "p"; txt "missing.csv"; txt "out.png"] (pw0 spec_csv) =
    (Raise FileNotFoundError, pw0 spec_csv).
Proof.
  assert ((pw_files (pw0 spec_csv) !! txt "missing.csv" = None /\ FileNotFoundError = FileNotFoundError) \/
   (exists t, pw_files (pw0 spec_csv) !! txt "missing.csv" = Some t /\ parse_csv t = Raise FileNotFoundError))
    as H by (left; split; reflexivity).
  split; [exact H|]. exact (main_read_error demo_render _ _ _ _ _ H).
Defined.



End Plot.
