(* ===== verification/Dimacs.v ===== *)
(** * The DIMACS CNF format of the generator's output

    The spec (sections 3 and 6, and the glossary) fixes the format the
    generator writes: a header line [p cnf <N> <M>], then one line per clause
    listing its literals and a terminating [0].  This file defines a reader
    of that format, [parse_dimacs] (the words of a line are separated by
    spaces, numbers are read as Python's [int] scans them, with no limit on
    their digits), and proves that it reads back the text [dimacs_text] that
    src/scripts/gen_random_3sat.py
    writes (lines 5 and 13), so that the output is a well-formed DIMACS
    file whatever the clauses are. *)

From stdpp Require Import base list strings gmap.
From Stdlib Require Import ZArith Ascii Lia.
From S2P Require Import Prelude PyInt Gen3Sat.

Module Dimacs.
Import PyInt Gen3Sat.
Local Open Scope Z_scope.

(** The words of a line: the non-empty pieces between spaces. *)
Definition words (l : text) : list text := filter (fun w => w <> []) (split_on " "%char l).

(** A number of a DIMACS file: white space, an optional sign and decimal
    digits, scanned as [int] scans them but without Python's limit on the
    number of digits, which a DIMACS reader does not have. *)
Definition dimacs_int (w : text) : option Z :=
  match parse_decimal w with Some (neg, ds) => Some (signed_value neg ds) | None => None end.

(** A clause line: non-zero literals, then [0]. *)
Definition parse_clause (l : text) : option (list Z) :=
  lits ← mapM dimacs_int (words l);
  match reverse lits with
  | 0 :: r => if forallb (fun x => negb (x =? 0)) r then Some (reverse r) else None
  | _ => None
  end.

(** A DIMACS file: the header, the clause lines, and a final newline. *)
Definition parse_dimacs (t : text) : option (Z * Z * list (list Z)) :=
  match split_on "010"%char t with
  | h :: rest =>
      match words h with
      | [p; c; ns; ms] =>
          if decide (p = txt "p" /\ c = txt "cnf" /\ last rest = Some []) then
            n ← dimacs_int ns; m ← dimacs_int ms;
            cls ← mapM parse_clause (removelast rest);
            Some (n, m, cls)
          else None
      | _ => None
      end
  | [] => None
  end.

(** ** Reading back what the script writes *)

Lemma space_not_in_py_str z : " "%char ∉ py_str z.
Proof.
  destruct (py_str_no_space z) as [_ H]. intros Hin.
  rewrite Forall_forall in H. by specialize (H _ Hin).
Qed.

Lemma newline_not_in_py_str z : "010"%char ∉ py_str z.
Proof.
  destruct (py_str_no_space z) as [_ H]. intros Hin.
  rewrite Forall_forall in H. by specialize (H _ Hin).
Qed.

(** The words of a clause line are its literals and [0]. *)
Lemma words_clause c :
  words (join (txt " ") (map py_str c) ++ txt " 0") = map py_str c ++ [txt "0"].
Proof.
  unfold words. destruct c as [|l c]; [done|].
  change (txt " 0") with (" "%char :: txt "0"). change (txt " ") with [" "%char].
  rewrite (join_snoc " "%char) by done.
  rewrite (split_on_join " "%char).
  - apply list_filter_all. apply Forall_app. split; [|by repeat constructor].
    apply Forall_map, Forall_forall. intros z _. apply py_str_no_space.
  - by destruct (map py_str (l :: c)).
  - apply Forall_app. split;
      [|repeat constructor; apply (bool_decide_unpack _); vm_compute; exact I].
    apply Forall_map, Forall_forall. intros z _. apply space_not_in_py_str.
Qed.

Lemma dimacs_int_py_str z : dimacs_int (py_str z) = Some z.
Proof. unfold dimacs_int. by rewrite parse_decimal_py_str, signed_value_py_str. Qed.

Lemma mapM_dimacs_int_py_str (c : list Z) : mapM dimacs_int (map py_str c) = Some c.
Proof. apply (mapM_fmap_Some _ py_str). apply dimacs_int_py_str. Qed.

(** A clause line of [c] without its newline. *)
Definition clause_words (c : list Z) : text := join (txt " ") (map py_str c) ++ txt " 0".

Lemma not_in_join (ch : ascii) (xs : list text) :
  ch <> " "%char -> Forall (fun x => ch ∉ x) xs -> ch ∉ join (txt " ") xs.
Proof.
  intros Hch. induction 1 as [|x xs Hx Hxs IH]; [intros H; inversion H|].
  destruct xs as [|y xs]; [done|].
  change (join (txt " ") (x :: y :: xs)) with (x ++ " "%char :: join (txt " ") (y :: xs)).
  rewrite elem_of_app, elem_of_cons. intros [H|[H|H]]; auto.
Qed.

Lemma newline_not_in_clause c : "010"%char ∉ clause_words c.
Proof.
  unfold clause_words. rewrite elem_of_app. intros [H|H].
  - revert H. apply not_in_join; [done|]. apply Forall_map, Forall_forall.
    intros z _. apply newline_not_in_py_str.
  - by repeat (inversion H as [|? ? ? H']; subst; clear H; rename H' into H).
Qed.

Lemma split_clause_lines cls :
  split_on "010"%char (concat (map clause_line cls)) = map clause_words cls ++ [[]].
Proof.
  replace (map clause_line cls) with (map (fun l => l ++ ["010"%char]) (map clause_words cls)).
  - apply split_on_lines, Forall_map, Forall_forall. intros c _. apply newline_not_in_clause.
  - rewrite map_map. apply map_ext. intros c. unfold clause_line, clause_words.
    by rewrite <- app_assoc.
Qed.

Lemma parse_clause_words c : Forall (fun l => l <> 0) c -> parse_clause (clause_words c) = Some c.
Proof.
  intros Hc. unfold parse_clause, clause_words. rewrite words_clause.
  change [txt "0"] with (map py_str [0]). rewrite <- map_app, mapM_dimacs_int_py_str.
  simpl. rewrite reverse_snoc.
  assert (forallb (fun x => negb (x =? 0)) (reverse c) = true) as ->.
  { apply forallb_forall. intros x Hx%list_elem_of_In. rewrite elem_of_reverse in Hx.
    rewrite Forall_forall in Hc. specialize (Hc x Hx). lia. }
  by rewrite reverse_involutive.
Qed.

(** C12: The text the script writes reads back, with the DIMACS reader, as
    the header's [n] and [m] and the clauses in the order written: the
    output is a well-formed DIMACS file for any clauses of non-zero
    literals. *)
Theorem dimacs_roundtrip n m cls :
  Forall (Forall (fun l => l <> 0)) cls -> parse_dimacs (dimacs_text n m cls) = Some (n, m, cls).
Proof.
  intros Hcls. unfold parse_dimacs. set (hline := txt "p cnf " ++ py_str n ++ txt " " ++ py_str m).
  assert (split_on "010"%char (dimacs_text n m cls) = hline :: map clause_words cls ++ [[]]) as ->.
  { unfold dimacs_text, header. rewrite <- split_clause_lines.
    replace (txt "p cnf " ++ py_str n ++ txt " " ++ py_str m ++ ["010"%char])
      with (hline ++ ["010"%char]) by (unfold hline; by rewrite <- !app_assoc).
    rewrite <- app_assoc. apply split_on_app_sep. unfold hline.
    rewrite !elem_of_app. intros [H|[H|[H|H]]]; [| |revert H..].
    - revert H. apply (bool_decide_unpack _). vm_compute. exact I.
    - by apply (newline_not_in_py_str n).
    - apply (bool_decide_unpack _). vm_compute. exact I.
    - apply newline_not_in_py_str. }
  assert (words hline = [txt "p"; txt "cnf"; py_str n; py_str m]) as ->.
  { change hline with
      (txt "p" ++ (" "%char :: (txt "cnf" ++ (" "%char :: (py_str n ++ (" "%char :: py_str m)))))).
    assert ((" "%char ∉ txt "p") /\ (" "%char ∉ txt "cnf")) as [Hp Hc]
      by (split; apply (bool_decide_unpack _); vm_compute; exact I).
    unfold words. rewrite !split_on_app_sep, split_on_no_sep by (done || apply space_not_in_py_str).
    apply list_filter_all. repeat constructor; try done; apply py_str_no_space. }
  rewrite decide_True by (split_and!; [done|done|apply last_snoc]).
  rewrite !dimacs_int_py_str, removelast_last, (mapM_fmap_Forall_Some _ clause_words); [done|].
  eapply Forall_impl; [exact Hcls|]. apply parse_clause_words.
Qed.


Lemma dimacs_roundtrip_witness :
  Forall (Forall (fun l => l <> 0)) [[2; -3; -2]; [1; 2; 3]] /\
  parse_dimacs (dimacs_text 3 2 [[2; -3; -2]; [1; 2; 3]]) = Some (3, 2, [[2; -3; -2]; [1; 2; 3]]).
Proof.
  assert (Forall (Forall (fun l => l <> 0)) [[2; -3; -2]; [1; 2; 3]]) as H
    by (repeat constructor; lia).
  split; [exact H|]. exact (dimacs_roundtrip 3 2 _ H).
Defined.

End Dimacs.
